(** * x-spider: the download store and its schedulers

    A shallow embedding of the zustand download store of x-spider
    ([useDownloadStore], [runCreationTask], [scheduleCreationTasks] and
    [scheduleAutoSyncTasks]) together with the properties its
    specification states about it.

    Conventions of the embedding.
    - JavaScript numbers that hold counters, byte counts and [Date.now()]
      stamps are integers ([Z]); the [Infinity] sentinel of [totalSize]
      is a constructor of its own.
    - An [async] function is a computation in the monad [Async]: it
      threads the whole [World] (store, daemon, side table, notification
      sinks, timers) and either returns or throws.  The state at the
      moment of the throw is kept, so that what was written before a
      failure stays visible.
    - The aria2 daemon, the clock and the file system are an abstract
      deterministic environment ([Host]); every RPC the code issues is
      also appended to [rpcs], so that one can speak about which calls
      were made.
    - Calls to the logger are dropped: they have no effect on anything
      the store or the daemon can observe.
    - A computation in [Async] is one operation run from its call to its
      end with nothing else running at its awaits; the host may move at
      each of them.  The properties of single operations are about such
      runs.  Where the interleaving of operations is the point (the
      creation-task queue), it is modelled as a step relation, in
      [Interleavings]. *)

From stdpp Require Import gmap strings list.
From Stdlib Require Import ZArith Lia.

Open Scope Z_scope.

(** ** Data model *)

(** Modelled from the spec: the [AriaStatus] enumeration of
    [utils/aria2] is not part of the sources at hand; section 3 of the
    specification lists its members. *)
Inductive AriaStatus : Type :=
  | Waiting | Active | Paused | Error | Complete.

Definition AriaStatus_eqb (a b : AriaStatus) : bool :=
  match a, b with
  | Waiting, Waiting | Active, Active | Paused, Paused
  | Error, Error | Complete, Complete => true
  | _, _ => false
  end.

(** A JavaScript number that is either an integer or [Infinity]. *)
Inductive JsSize : Type :=
  | Num (z : Z)
  | Infinity.

(** The fields of [TwitterMedia] and [TwitterPost] the store reads;
    [mediaRef] and [postRef] stand for the rest of the objects, which the
    store only passes along. *)
Record TwitterMedia : Type := mkMedia {
  type : string;
  mediaRef : string
}.

Record TwitterPost : Type := mkPost {
  postRef : string;
  createdAt : option Z;
  medias : option (list TwitterMedia)
}.

Record DownloadTask : Type := mkDownloadTask {
  gid : string;
  status : AriaStatus;
  completeSize : JsSize;
  totalSize : JsSize;
  fileName : string;
  media : TwitterMedia;
  post : TwitterPost;
  error : option string;
  dir : string;
  updatedAt : Z;
  downloadUrl : string;
  ariaRetryCountRemains : Z
}.

Record CreateDownloadTaskParams : Type := mkParams {
  p_post : TwitterPost;
  p_media : TwitterMedia
}.

(** What [aria2.tellStatus] answers for one handle. *)
Record AriaFile : Type := mkFile { path : string }.

Record AriaStatusReply : Type := mkReply {
  r_gid : string;
  r_status : AriaStatus;
  completedLength : Z;
  totalLength : Z;
  files : list AriaFile;
  errorMessage : option string;
  r_dir : string
}.

Inductive CreationStatus : Type := CWaiting | CActive.

Definition CreationStatus_eqb (a b : CreationStatus) : bool :=
  match a, b with
  | CWaiting, CWaiting | CActive, CActive => true
  | _, _ => false
  end.

Record DownloadFilter : Type := mkFilter {
  mediaTypes : option (list string);
  (* either bound of the pair may be missing *)
  dateRange : option (option Z * option Z);
  source : string
}.

Record TwitterUser : Type := mkUser { user_id : string }.

Record CreationTask : Type := mkCreationTask {
  id : string;
  user : TwitterUser;
  filter : DownloadFilter;
  c_status : CreationStatus;
  completeCount : Z;
  skipCount : Z
}.

Record DownloadSettings : Type := mkSettings {
  saveDirBase : string;
  dirTemplate : string;
  fileNameTemplate : string;
  sameFileSkip : bool
}.

(** The state of the zustand store. *)
Record DownloadStore : Type := mkStore {
  currentTab : string;
  downloadTasks : list DownloadTask;
  autoSyncTaskIds : list string;
  creationTasks : list CreationTask
}.

Definition initialStore : DownloadStore :=
  {| currentTab := ""; downloadTasks := []; autoSyncTaskIds := [];
     creationTasks := [] |}.

(** ** Errors, notifications, RPC trace *)

Inductive JsError : Type :=
  | ErrorMsg (message : string)      (* [throw new Error(message)] *)
  | Aria2Rejected (reason : string)  (* a daemon call whose promise rejects *)
  | HostRejected (reason : string)   (* a rejected fetch or file-system call *)
  | TypeError.                       (* a property read on [undefined] *)

Inductive Notification : Type :=
  | AntError (message : string) (description : option string)
  | OsNotification (title body : string).

Inductive RpcCall : Type :=
  | AddUri (url dir out : string)
  | TellStatus (g : string)
  | TellStatusMany (gs : list string)
  | Remove (g : string)
  | BatchAddUri (jobs : list (string * string * string))
  | BatchRemove (gs : list string).

Inductive Callback : Type :=
  | CbScheduleCreationTasks
  | CbScheduleAutoSyncTasks.

Definition INTERVAL : Z := 500.

(** ** Small JavaScript and ramda helpers *)

Definition includes (l : list string) (x : string) : bool :=
  existsb (String.eqb x) l.

Fixpoint findIndex {A} (p : A -> bool) (l : list A) : option nat :=
  match l with
  | [] => None
  | x :: l' => if p x then Some O else S <$> findIndex p l'
  end.

(** [R.fromPairs]: a later pair with the same key overrides an earlier
    one.  The keys are aria2 handles (strings of hexadecimal digits), so
    a lookup in the resulting object finds what the pairs put there and
    nothing else. *)
Definition fromPairs {A} (l : list (string * A)) : gmap string A :=
  foldl (fun m p => <[p.1 := p.2]> m) ∅ l.

(** [x || fallback] on a possibly missing string: the empty string is falsy. *)
Definition orElse (x : option string) (fallback : string) : string :=
  match x with
  | Some s => if String.eqb s "" then fallback else s
  | None => fallback
  end.

Definition newline : string := String (Ascii.ascii_of_nat 10) EmptyString.

(** ** The host environment

    Everything outside the store: the aria2 daemon (utils/aria2), the
    clock, the Tauri path and file-system helpers, the naming-template
    resolver, the Twitter client and [nanoid].  The daemon, the Twitter
    client and the file system are arbitrary deterministic transition
    systems over the host state [E]; a rejected promise is the left
    injection, carrying the reason.  The path helpers and the template
    resolver are taken to resolve, as pure functions. *)

Record Page : Type := mkPage {
  twitterPosts : list TwitterPost;
  (* [None] is the cursor [null]: the end of the stream *)
  cursor : option string
}.

Class Host (E : Type) : Type := {
  dateNow : E -> Z;
  nanoid : E -> E * string;
  getDownloadUrl : TwitterMedia -> string;
  resolveVariables : string -> TwitterPost -> TwitterMedia -> string;
  pathJoin : string -> string -> string;
  pathBasename : string -> string;
  fsExists : string -> E -> E * (string + bool);
  (* [getUserMedias] when the first argument is "medias", else [getUserTweets];
     the cursor [None] is [undefined]: from the start *)
  getList : string -> string -> option string -> E -> E * (string + Page);
  addUri : string -> string -> string -> E -> E * (string + string);
  tellStatus : string -> E -> E * (string + AriaStatusReply);
  tellStatusMany :
    list string -> E -> E * (string + gmap string AriaStatusReply);
  remove : string -> E -> E * (string + unit);
  batchAddUri :
    list (string * string * string) -> E -> E * (string + list string);
  batchRemove : list string -> E -> E * (string + unit);
  (* the [message] the JavaScript engine gives the TypeError of a
     property read on [undefined]; the text is the engine's *)
  typeErrorMessage : string
}.

Record World (E : Type) : Type := mkWorld {
  store : DownloadStore;
  settings : DownloadSettings;
  env : E;
  (* the [AbortController] objects ever allocated, by address: [true]
     once aborted *)
  signals : list bool;
  creationTaskAbortControllerMap : gmap string nat;
  notifications : list Notification;
  rpcs : list RpcCall;
  timeouts : list (Callback * Z);
  idleCallbacks : list Callback
}.

Arguments mkWorld {E}.
Arguments store {E}.
Arguments settings {E}.
Arguments env {E}.
Arguments signals {E}.
Arguments creationTaskAbortControllerMap {E}.
Arguments notifications {E}.
Arguments rpcs {E}.
Arguments timeouts {E}.
Arguments idleCallbacks {E}.

Section Model.

Context {E : Type} {host : Host E}.

Local Abbreviation World := (World E).

Definition withStore (s : DownloadStore) (w : World) : World :=
  mkWorld s (settings w) (env w) (signals w)
    (creationTaskAbortControllerMap w) (notifications w) (rpcs w)
    (timeouts w) (idleCallbacks w).

Definition withEnv (e : E) (w : World) : World :=
  mkWorld (store w) (settings w) e (signals w)
    (creationTaskAbortControllerMap w) (notifications w) (rpcs w)
    (timeouts w) (idleCallbacks w).

Definition withControllers (sg : list bool) (m : gmap string nat)
    (w : World) : World :=
  mkWorld (store w) (settings w) (env w) sg m (notifications w) (rpcs w)
    (timeouts w) (idleCallbacks w).

Definition notify (n : Notification) (w : World) : World :=
  mkWorld (store w) (settings w) (env w) (signals w)
    (creationTaskAbortControllerMap w) (notifications w ++ [n]) (rpcs w)
    (timeouts w) (idleCallbacks w).

Definition logRpc (c : RpcCall) (w : World) : World :=
  mkWorld (store w) (settings w) (env w) (signals w)
    (creationTaskAbortControllerMap w) (notifications w) (rpcs w ++ [c])
    (timeouts w) (idleCallbacks w).

Definition setTimeout (cb : Callback) (ms : Z) (w : World) : World :=
  mkWorld (store w) (settings w) (env w) (signals w)
    (creationTaskAbortControllerMap w) (notifications w) (rpcs w)
    (timeouts w ++ [(cb, ms)]) (idleCallbacks w).

Definition requestIdleCallback (cb : Callback) (w : World) : World :=
  mkWorld (store w) (settings w) (env w) (signals w)
    (creationTaskAbortControllerMap w) (notifications w) (rpcs w)
    (timeouts w) (idleCallbacks w ++ [cb]).

(** Partial updates of the store, as zustand's [set] merges them. *)
Definition setDownloadTasks (l : list DownloadTask) (s : DownloadStore)
    : DownloadStore :=
  mkStore (currentTab s) l (autoSyncTaskIds s) (creationTasks s).

Definition setDownloadTasksAndIds (l : list DownloadTask) (ids : list string)
    (s : DownloadStore) : DownloadStore :=
  mkStore (currentTab s) l ids (creationTasks s).

Definition setCreationTasks (l : list CreationTask) (s : DownloadStore)
    : DownloadStore :=
  mkStore (currentTab s) (downloadTasks s) (autoSyncTaskIds s) l.

(** ** The monad of [async] functions *)

Definition Async (A : Type) : Type := World -> World * (JsError + A).

Definition ret {A} (a : A) : Async A := fun w => (w, inr a).

Definition throw {A} (e : JsError) : Async A := fun w => (w, inl e).

Definition bind {A B} (m : Async A) (k : A -> Async B) : Async B :=
  fun w =>
    match m w with
    | (w', inl e) => (w', inl e)
    | (w', inr a) => k a w'
    end.

Notation "x <~ m ;; k" := (bind m (fun x => k))
  (at level 100, m at next level, right associativity).

(** A synchronous effect on the world. *)
Definition effect (f : World -> World) : Async unit :=
  fun w => (f w, inr tt).

Definition get : Async DownloadStore := fun w => (w, inr (store w)).

Definition set (f : DownloadStore -> DownloadStore) : Async unit :=
  effect (fun w => withStore (f (store w)) w).

Definition now : Async Z := fun w => (w, inr (dateNow (env w))).

(** An awaited call to the host: the call is recorded, the host moves,
    a rejection is thrown. *)
Definition await {A} (call : option RpcCall) (mkErr : string -> JsError)
    (op : E -> E * (string + A)) : Async A :=
  fun w =>
    let w1 := match call with Some c => logRpc c w | None => w end in
    let '(e', r) := op (env w1) in
    (withEnv e' w1,
     match r with inl reason => inl (mkErr reason) | inr a => inr a end).

(** A call whose promise is not awaited and whose rejection is only
    logged ([.catch]): the request is sent, the answer is dropped. *)
Definition detached {A} (call : RpcCall) (op : E -> E * (string + A))
    : Async unit :=
  fun w =>
    let w1 := logRpc call w in
    (withEnv (op (env w1)).1 w1, inr tt).

Fixpoint mapM {A B} (f : A -> Async B) (l : list A) : Async (list B) :=
  match l with
  | [] => ret []
  | x :: l' => y <~ f x ;; ys <~ mapM f l' ;; ret (y :: ys)
  end.

(** ** [mergeAriaStatusToDownloadTask] and [prepareDownloadTask] *)

(** The third argument is the optional [now]; left out, it defaults to
    [Date.now()] at the moment of the call. *)
Definition mergeAriaStatusToDownloadTask (ariaStatus : AriaStatusReply)
    (oldTask : DownloadTask) (now_ : option Z) : Async DownloadTask :=
  stamp <~ match now_ with Some t => ret t | None => now end ;;
  match files ariaStatus with
  | [] => throw TypeError
  | f0 :: _ =>
      ret {| gid := r_gid ariaStatus;
             status := r_status ariaStatus;
             completeSize := Num (completedLength ariaStatus);
             totalSize := Num (totalLength ariaStatus);
             fileName := pathBasename (path f0);
             media := media oldTask;
             post := post oldTask;
             error := errorMessage ariaStatus;
             dir := r_dir ariaStatus;
             updatedAt := stamp;
             downloadUrl := downloadUrl oldTask;
             ariaRetryCountRemains := ariaRetryCountRemains oldTask |}
  end.

(** The record [prepareDownloadTask] builds, given the settings and
    the reading of the clock. *)
Definition preparedTask (st : DownloadSettings) (stamp : Z)
    (params : CreateDownloadTaskParams) : DownloadTask :=
  let resolvedDirName :=
    if String.eqb (dirTemplate st) "" then ""
    else resolveVariables (dirTemplate st) (p_post params) (p_media params) in
  {| gid := "";
     status := Waiting;
     completeSize := Num 0;
     totalSize := Infinity;
     fileName :=
       resolveVariables (fileNameTemplate st) (p_post params)
         (p_media params);
     media := p_media params;
     post := p_post params;
     error := Some "";
     dir := pathJoin (saveDirBase st) resolvedDirName;
     updatedAt := stamp;
     downloadUrl := getDownloadUrl (p_media params);
     ariaRetryCountRemains := 5 |}.

Definition prepareDownloadTask (params : CreateDownloadTaskParams)
    : Async DownloadTask :=
  fun w => ret (preparedTask (settings w) (dateNow (env w)) params) w.

Definition withGid (g : string) (t : DownloadTask) : DownloadTask :=
  mkDownloadTask g (status t) (completeSize t) (totalSize t) (fileName t)
    (media t) (post t) (error t) (dir t) (updatedAt t) (downloadUrl t)
    (ariaRetryCountRemains t).

Definition withStatus (s : AriaStatus) (t : DownloadTask) : DownloadTask :=
  mkDownloadTask (gid t) s (completeSize t) (totalSize t) (fileName t)
    (media t) (post t) (error t) (dir t) (updatedAt t) (downloadUrl t)
    (ariaRetryCountRemains t).

Definition withRetryCount (n : Z) (t : DownloadTask) : DownloadTask :=
  mkDownloadTask (gid t) (status t) (completeSize t) (totalSize t)
    (fileName t) (media t) (post t) (error t) (dir t) (updatedAt t)
    (downloadUrl t) n.

(** ** The store's download-task operations *)

Definition setCurrentTab (tab : string) : Async unit :=
  set (fun s =>
         mkStore tab (downloadTasks s) (autoSyncTaskIds s) (creationTasks s)).

Definition setAutoSyncTaskIds (tracked : list string) : Async unit :=
  set (fun s =>
         mkStore (currentTab s) (downloadTasks s) tracked (creationTasks s)).

Definition createDownloadTask (params : CreateDownloadTaskParams)
    : Async unit :=
  task <~ prepareDownloadTask params ;;
  g <~ await (Some (AddUri (downloadUrl task) (dir task) (fileName task)))
         Aria2Rejected
         (addUri (downloadUrl task) (dir task) (fileName task)) ;;
  let task := withGid g task in
  st <~ await (Some (TellStatus (gid task))) Aria2Rejected
          (tellStatus (gid task)) ;;
  let task := withStatus (r_status st) task in
  set (fun s => setDownloadTasks (downloadTasks s ++ [task]) s).

Definition updateDownloadTask (task : DownloadTask) (now_ : option Z)
    : Async unit :=
  stamp <~ match now_ with Some t => ret t | None => now end ;;
  s <~ get ;;
  let oldTasks := downloadTasks s in
  match findIndex (fun t => String.eqb (gid t) (gid task)) oldTasks with
  | None => ret tt
  | Some oldTaskIndex =>
      match oldTasks !! oldTaskIndex with
      | None => throw TypeError
      | Some oldTask =>
          if updatedAt oldTask >? stamp then ret tt
          else set (setDownloadTasks (<[oldTaskIndex := task]> oldTasks))
      end
  end.

Definition batchUpdateDownloadTasks (tasks : list DownloadTask)
    : Async unit :=
  s <~ get ;;
  let oldTasks := downloadTasks s in
  let newTaskMap := fromPairs (List.map (fun t => (gid t, t)) tasks) in
  let newTasks :=
    List.map
      (fun oldTask =>
         match newTaskMap !! gid oldTask with
         | None => oldTask
         | Some newTask =>
             if updatedAt newTask <? updatedAt oldTask then oldTask
             else newTask
         end)
      oldTasks in
  set (setDownloadTasks newTasks).

(** [tasks.forEach((task, index) => ...)] of [batchCreateDownloadTask]:
    the handle at [index], then the status the map holds for it. *)
Fixpoint assignHandles (tasks : list DownloadTask) (gids : list string)
    (statusMap : gmap string AriaStatusReply)
    : JsError + list DownloadTask :=
  match tasks with
  | [] => inr []
  | task :: tasks' =>
      match gids with
      | [] => inl TypeError
      | g :: gids' =>
          match statusMap !! g with
          | None => inl TypeError
          | Some st =>
              match assignHandles tasks' gids' statusMap with
              | inl e => inl e
              | inr rest => inr (withStatus (r_status st) (withGid g task) :: rest)
              end
          end
      end
  end.

Definition batchCreateDownloadTask
    (paramsList : list CreateDownloadTaskParams) : Async unit :=
  tasks <~ mapM prepareDownloadTask paramsList ;;
  match tasks with
  | [] => ret tt
  | _ =>
      let jobs :=
        List.map (fun t => (downloadUrl t, dir t, fileName t)) tasks in
      gids <~ await (Some (BatchAddUri jobs)) Aria2Rejected
                (batchAddUri jobs) ;;
      statusMap <~ await (Some (TellStatusMany gids)) Aria2Rejected
                     (tellStatusMany gids) ;;
      match assignHandles tasks gids statusMap with
      | inl e => throw e
      | inr tasks' =>
          set (fun s => setDownloadTasks (downloadTasks s ++ tasks') s)
      end
  end.

Definition removeDownloadTask (g : string) : Async unit :=
  _ <~ detached (Remove g) (remove g) ;;
  state <~ get ;;
  set (setDownloadTasksAndIds
         (List.filter (fun v => negb (String.eqb (gid v) g))
            (downloadTasks state))
         (List.filter (fun v => negb (String.eqb v g))
            (autoSyncTaskIds state))).

Definition batchRemoveDownloadTasks (gids : list string) : Async unit :=
  _ <~ detached (BatchRemove gids) (batchRemove gids) ;;
  set (fun s =>
         setDownloadTasks
           (List.filter (fun v => negb (includes gids (gid v)))
              (downloadTasks s)) s).

Definition notFound : JsError := ErrorMsg "找不到旧的下载任务".

Definition redownloadTask (g : string) : Async unit :=
  s <~ get ;;
  match List.find (fun t => String.eqb (gid t) g) (downloadTasks s) with
  | None => throw notFound
  | Some oldTask =>
      _ <~ removeDownloadTask (gid oldTask) ;;
      createDownloadTask
        {| p_post := post oldTask; p_media := media oldTask |}
  end.

Definition batchRedownloadTask (gids : list string) : Async unit :=
  s <~ get ;;
  let oldTasks :=
    List.filter (fun t => includes gids (gid t)) (downloadTasks s) in
  match oldTasks with
  | [] => throw notFound
  | _ =>
      _ <~ batchRemoveDownloadTasks gids ;;
      batchCreateDownloadTask
        (List.map (fun t => {| p_post := post t; p_media := media t |})
           oldTasks)
  end.

Definition failedTitle : string := "任务下载失败".
Definition unknownReason : string := "未知原因".

Definition syncDownloadTaskStatus (g : string) : Async unit :=
  s <~ get ;;
  let downloadTasks_ := downloadTasks s in
  match findIndex (fun v => String.eqb (gid v) g) downloadTasks_ with
  | None => ret tt
  | Some index =>
      match downloadTasks_ !! index with
      | None => throw TypeError
      | Some task =>
          now_ <~ now ;;
          st <~ await (Some (TellStatus g)) Aria2Rejected (tellStatus g) ;;
          if AriaStatus_eqb (r_status st) Error then
            if ariaRetryCountRemains task >? 0 then
              _ <~ removeDownloadTask (gid task) ;;
              newTask <~ prepareDownloadTask
                           {| p_post := post task; p_media := media task |} ;;
              let newTask :=
                withRetryCount (ariaRetryCountRemains task - 1) newTask in
              g' <~ await
                      (Some (AddUri (downloadUrl task) (dir newTask)
                               (fileName newTask)))
                      Aria2Rejected
                      (addUri (downloadUrl task) (dir newTask)
                         (fileName newTask)) ;;
              let newTask := withGid g' newTask in
              st' <~ await (Some (TellStatus (gid task))) Aria2Rejected
                       (tellStatus (gid task)) ;;
              let newTask := withStatus (r_status st') newTask in
              set (fun s' => setDownloadTasks (downloadTasks s' ++ [newTask]) s')
            else
              newTask <~ mergeAriaStatusToDownloadTask st task None ;;
              let msg := failedTitle in
              let desc :=
                (fileName newTask ++ newline
                   ++ orElse (error newTask) unknownReason)%string in
              _ <~ effect (notify (AntError msg (Some desc))) ;;
              effect (notify (OsNotification msg desc))
          else
            newTask <~ mergeAriaStatusToDownloadTask st task None ;;
            updateDownloadTask newTask (Some now_)
      end
  end.

(** ** The background poller: one run of [scheduleAutoSyncTasks] *)

Definition scheduleAutoSyncTasks : Async unit :=
  s <~ get ;;
  let ids := autoSyncTaskIds s in
  match ids with
  | [] => effect (setTimeout CbScheduleAutoSyncTasks INTERVAL)
  | _ =>
      now_ <~ now ;;
      resultMap <~ await (Some (TellStatusMany ids)) Aria2Rejected
                     (tellStatusMany ids) ;;
      s' <~ get ;;
      newTasks <~ mapM
        (fun oldTask =>
           if updatedAt oldTask >? now_ then ret oldTask
           else
             match resultMap !! gid oldTask with
             | None => ret oldTask
             | Some st =>
                 mergeAriaStatusToDownloadTask st oldTask (Some now_)
             end)
        (downloadTasks s') ;;
      _ <~ batchUpdateDownloadTasks newTasks ;;
      effect (setTimeout CbScheduleAutoSyncTasks INTERVAL)
  end.

(** ** The creation-task queue *)

Definition signalAborted (addr : nat) (w : World) : bool :=
  default false (signals w !! addr).

(** The identifier comes from [nanoid]; the new [AbortController] is
    allocated at the next free address. *)
Definition createCreationTask (u : TwitterUser) (f : DownloadFilter)
    (w : World) : World :=
  let '(e', newId) := nanoid (env w) in
  let addr := length (signals w) in
  let w1 :=
    withControllers (signals w ++ [false])
      (<[newId := addr]> (creationTaskAbortControllerMap w)) (withEnv e' w) in
  withStore
    (setCreationTasks
       (creationTasks (store w1)
          ++ [ {| id := newId; user := u; filter := f; c_status := CWaiting;
                  completeCount := 0; skipCount := 0 |} ])
       (store w1)) w1.

Definition removeCreationTask (i : string) (w : World) : World :=
  match creationTaskAbortControllerMap w !! i with
  | None => w
  | Some addr =>
      let w1 :=
        withControllers (<[addr := true]> (signals w))
          (delete i (creationTaskAbortControllerMap w)) w in
      withStore
        (setCreationTasks
           (List.filter (fun v => negb (String.eqb (id v) i))
              (creationTasks (store w1)))
           (store w1)) w1
  end.

Definition updateCreationTask (task : CreationTask) (w : World) : World :=
  withStore
    (setCreationTasks
       (List.map
          (fun oldTask =>
             if String.eqb (id oldTask) (id task) then task else oldTask)
          (creationTasks (store w)))
       (store w)) w.

Definition withCounts (c s : Z) (t : CreationTask) : CreationTask :=
  mkCreationTask (id t) (user t) (filter t) (c_status t) c s.

Definition withCreationStatus (st : CreationStatus) (t : CreationTask)
    : CreationTask :=
  mkCreationTask (id t) (user t) (filter t) st (completeCount t)
    (skipCount t).

(** ** [runCreationTask] *)

(** [post.medias?.length || 0], summed over the posts. *)
Definition getMediaCounts (posts : list TwitterPost) : Z :=
  foldl
    (fun acc elem =>
       acc + match medias elem with
             | Some ms => Z.of_nat (length ms)
             | None => 0
             end)
    0 posts.

(** The three predicates of the post filter: media present (an array's
    length is never negative), created before [until_], created after
    [since]. *)
Definition keepPost (since until_ : Z) (p : TwitterPost) : bool :=
  match medias p with
  | Some ms => 0 <=? Z.of_nat (length ms)
  | None => false
  end
  && match createdAt p with None => true | Some d => d <? until_ end
  && match createdAt p with None => true | Some d => since <? d end.

Definition keepMedia (f : DownloadFilter) (m : TwitterMedia) : bool :=
  match mediaTypes f with
  | None => false
  | Some tys => includes tys (type m)
  end.

(** The inner loop over the media of one post that passed the type
    filter: an entry whose file exists is counted as skipped when
    [sameFileSkip] is on, the others are collected. *)
Fixpoint collectMedias (p : TwitterPost) (ms : list TwitterMedia)
    (skip : Z) (acc : list CreateDownloadTaskParams)
    : Async (Z * list CreateDownloadTaskParams) :=
  match ms with
  | [] => ret (skip, acc)
  | m :: ms' =>
      task <~ prepareDownloadTask {| p_post := p; p_media := m |} ;;
      let filePath := pathJoin (dir task) (fileName task) in
      st <~ (fun w => ret (settings w) w) ;;
      present <~ (if sameFileSkip st
                  then await None HostRejected (fsExists filePath)
                  else ret false) ;;
      if present then collectMedias p ms' (skip + 1) acc
      else collectMedias p ms' skip (acc ++ [ {| p_post := p; p_media := m |} ])
  end.

Fixpoint collectPosts (f : DownloadFilter) (posts : list TwitterPost)
    (skip : Z) (acc : list CreateDownloadTaskParams)
    : Async (Z * list CreateDownloadTaskParams) :=
  match posts with
  | [] => ret (skip, acc)
  | p :: posts' =>
      let filteredMedias :=
        List.filter (keepMedia f) (default [] (medias p)) in
      r <~ collectMedias p filteredMedias skip acc ;;
      collectPosts f posts' r.1 r.2
  end.

(** The local variables of the loop. [nextCursor] is [None] while
    [undefined], [Some None] once [null]. *)
Record LoopState : Type := mkLoop {
  l_completeCount : Z;
  l_skipCount : Z;
  l_now : Z;
  l_nextCursor : option (option string)
}.

(** What one page does once it is fetched and the task is not aborted;
    the boolean tells whether the loop is left ([break]). *)
Definition runCreationTaskPage (task : CreationTask) (signal : nat)
    (since until_ : Z) (l : LoopState) (pg : Page)
    : Async (LoopState * bool) :=
  let nextCursor := Some (cursor pg) in
  let now_ :=
    match last (twitterPosts pg) with
    | Some p => default (l_now l) (createdAt p)
    | None => l_now l
    end in
  let filteredPosts := List.filter (keepPost since until_) (twitterPosts pg) in
  let filteredCount :=
    getMediaCounts (twitterPosts pg) - getMediaCounts filteredPosts in
  let skipCount_ := l_skipCount l + filteredCount in
  let completeCount_ := l_completeCount l in
  match filteredPosts with
  | [] =>
      _ <~ effect (updateCreationTask (withCounts completeCount_ skipCount_ task)) ;;
      ret (mkLoop completeCount_ skipCount_ now_ nextCursor, false)
  | _ =>
      r <~ collectPosts (filter task) filteredPosts skipCount_ [] ;;
      let skipCount_ := r.1 in
      let paramsList := r.2 in
      match paramsList with
      | [] =>
          _ <~ effect (updateCreationTask (withCounts completeCount_ skipCount_ task)) ;;
          ret (mkLoop completeCount_ skipCount_ now_ nextCursor, false)
      | _ =>
          _ <~ batchCreateDownloadTask paramsList ;;
          let completeCount_ := completeCount_ + Z.of_nat (length paramsList) in
          _ <~ effect (updateCreationTask (withCounts completeCount_ skipCount_ task)) ;;
          aborted <~ (fun w => ret (signalAborted signal w) w) ;;
          ret (mkLoop completeCount_ skipCount_ now_ nextCursor, aborted)
      end
  end.

(** The [while] loop, unrolled at most [fuel] times; [None] when the
    fuel runs out before the loop is left. *)
Fixpoint runCreationTaskLoop (fuel : nat) (task : CreationTask)
    (signal : nat) (since until_ : Z) (l : LoopState)
    : Async (option LoopState) :=
  match fuel with
  | O => ret None
  | S fuel' =>
      if negb (bool_decide (l_nextCursor l = Some None)) && (since <? l_now l)
      then
        aborted <~ (fun w => ret (signalAborted signal w) w) ;;
        if aborted then ret (Some l)
        else
          pg <~ await None HostRejected
                  (getList (source (filter task)) (user_id (user task))
                     (mjoin (l_nextCursor l))) ;;
          aborted' <~ (fun w => ret (signalAborted signal w) w) ;;
          if aborted' then ret (Some l)
          else
            r <~ runCreationTaskPage task signal since until_ l pg ;;
            if r.2 then ret (Some r.1)
            else runCreationTaskLoop fuel' task signal since until_ r.1
      else ret (Some l)
  end.

Definition runCreationTask (fuel : nat) (task : CreationTask) (signal : nat)
    : Async (option LoopState) :=
  now_ <~ now ;;
  let since := default 0 (dateRange (filter task) ≫= fst) in
  let until_ := default now_ (dateRange (filter task) ≫= snd) in
  runCreationTaskLoop fuel task signal since until_
    (mkLoop 0 0 now_ None).

(** ** [scheduleCreationTasks]

    One run of the scheduler is split at its only [await]: the part up to
    the call of the runner, and the part after the runner has returned
    or thrown. *)

Definition isActive (t : CreationTask) : bool :=
  CreationStatus_eqb (c_status t) CActive.

Inductive SchedulerOutcome : Type :=
  | Rescheduled                                   (* the run is over *)
  | Running (task : CreationTask) (signal : nat)  (* awaiting the runner *)
  | Crashed (e : JsError).                        (* the run threw *)

Definition scheduleCreationTasksBegin (w : World) : World * SchedulerOutcome :=
  let creationTasks_ := creationTasks (store w) in
  match creationTasks_ with
  | [] => (requestIdleCallback CbScheduleCreationTasks w, Rescheduled)
  | task :: _ =>
      if existsb isActive creationTasks_
      then (requestIdleCallback CbScheduleCreationTasks w, Rescheduled)
      else
        match creationTaskAbortControllerMap w !! id task with
        | None => (w, Crashed TypeError)
        | Some addr =>
            if signalAborted addr w
            then
              (requestIdleCallback CbScheduleCreationTasks
                 (removeCreationTask (id task) w), Rescheduled)
            else
              let task := withCreationStatus CActive task in
              (updateCreationTask task w, Running task addr)
        end
  end.

Definition crawlFailedTitle : string := "爬虫任务运行失败".

(** [typeof err === 'string' ? err : err?.message || '未知原因'].  An
    [Error] thrown by the store and the engine's TypeError are objects:
    their message is read, and an empty one gives the fallback.  A
    promise of the daemon or of the host is taken to reject with an
    [Error] whose message is the reason, and is treated alike; for a
    reason that is not empty the text is the same when the promise
    rejects with the reason itself, a string. *)
Definition reasonOf (err : JsError) : string :=
  match err with
  | ErrorMsg m => orElse (Some m) unknownReason
  | Aria2Rejected r | HostRejected r => orElse (Some r) unknownReason
  | TypeError => orElse (Some typeErrorMessage) unknownReason
  end.

(** The rest of the run; [failure] is what the runner threw, if it did. *)
Definition scheduleCreationTasksEnd (task : CreationTask)
    (failure : option JsError) (w : World) : World :=
  let w1 := removeCreationTask (id task) w in
  let w2 :=
    match failure with
    | None => w1
    | Some err =>
        let reason := reasonOf err in
        notify (AntError (crawlFailedTitle ++ "：" ++ reason)%string None)
          (notify (OsNotification crawlFailedTitle reason) w1)
    end in
  requestIdleCallback CbScheduleCreationTasks w2.

End Model.

Arguments Async E A : clear implicits.

(** ** A scripted host, for running the model on concrete inputs

    The daemon answers from tables: [handles] are the handles [addUri]
    will assign, in order; [jobs] is what [tellStatus] knows about each
    handle; the two [down] flags make the submission and the batched
    status query reject.  Every daemon call takes one tick of the clock. *)

Record Script : Type := mkScript {
  clock : Z;
  ids : list string;
  handles : list string;
  jobs : list (string * AriaStatusReply);
  addUriDown : bool;
  tellStatusDown : bool;
  existing : list string;
  pages : list Page
}.

Definition tick (e : Script) : Script :=
  mkScript (clock e + 1) (ids e) (handles e) (jobs e) (addUriDown e)
    (tellStatusDown e) (existing e) (pages e).

Definition lookupJob (g : string) (e : Script) : option AriaStatusReply :=
  snd <$> List.find (fun p => String.eqb (fst p) g) (jobs e).

Definition takeHandles (n : nat) (e : Script) : Script * list string :=
  (mkScript (clock e + 1) (ids e) (drop n (handles e)) (jobs e)
     (addUriDown e) (tellStatusDown e) (existing e) (pages e),
   take n (handles e)).

#[export] Instance scriptHost : Host Script := {|
  dateNow e := clock e;
  nanoid e :=
    (mkScript (clock e) (tail (ids e)) (handles e) (jobs e) (addUriDown e)
       (tellStatusDown e) (existing e) (pages e),
     hd "" (ids e));
  getDownloadUrl m := ("https://media/" ++ mediaRef m)%string;
  resolveVariables template p m := (template ++ mediaRef m)%string;
  pathJoin a b := (a ++ "/" ++ b)%string;
  pathBasename p := p;
  fsExists p e := (e, inr (includes (existing e) p));
  getList _ _ _ e :=
    match pages e with
    | [] => (e, inl "network")
    | pg :: rest =>
        (mkScript (clock e + 1) (ids e) (handles e) (jobs e) (addUriDown e)
           (tellStatusDown e) (existing e) rest, inr pg)
    end;
  addUri _ _ _ e :=
    if addUriDown e then (tick e, inl "connection refused")
    else
      match handles e with
      | [] => (tick e, inl "no handle left")
      | g :: _ => ((takeHandles 1 e).1, inr g)
      end;
  tellStatus g e :=
    match lookupJob g e with
    | Some st => (tick e, inr st)
    | None => (tick e, inl "GID not found")
    end;
  tellStatusMany gs e :=
    if tellStatusDown e then (tick e, inl "connection refused")
    else
      (tick e,
       inr (fromPairs
              (omap (fun g => (fun st => (g, st)) <$> lookupJob g e) gs)));
  remove _ e := (tick e, inr tt);
  batchAddUri js e :=
    if addUriDown e then (tick e, inl "connection refused")
    else let '(e', gs) := takeHandles (length js) e in (e', inr gs);
  batchRemove _ e := (tick e, inr tt);
  typeErrorMessage := "undefined is not an object"
|}.

Definition quietScript : Script :=
  {| clock := 100; ids := []; handles := []; jobs := [];
     addUriDown := false; tellStatusDown := false; existing := [];
     pages := [] |}.

Definition someSettings : DownloadSettings :=
  {| saveDirBase := "/dl"; dirTemplate := ""; fileNameTemplate := "f-";
     sameFileSkip := true |}.

Definition worldOf (s : DownloadStore) (e : Script) : World Script :=
  {| store := s; settings := someSettings; env := e; signals := [];
     creationTaskAbortControllerMap := ∅; notifications := [];
     rpcs := []; timeouts := []; idleCallbacks := [] |}.

Definition photo (ref : string) : TwitterMedia :=
  {| type := "photo"; mediaRef := ref |}.

Definition video (ref : string) : TwitterMedia :=
  {| type := "video"; mediaRef := ref |}.

Definition postOf (ref : string) (at_ : option Z) (ms : list TwitterMedia)
    : TwitterPost :=
  {| postRef := ref; createdAt := at_; medias := Some ms |}.

(** A stored record for the handle [g], last touched at [stamp]. *)
Definition taskOf (g : string) (st : AriaStatus) (stamp retries : Z)
    : DownloadTask :=
  {| gid := g; status := st; completeSize := Num 0; totalSize := Infinity;
     fileName := "f-a"; media := photo "a";
     post := postOf "p" None [photo "a"]; error := Some ""; dir := "/dl/";
     updatedAt := stamp; downloadUrl := "https://media/a";
     ariaRetryCountRemains := retries |}.

Definition replyOf (g : string) (st : AriaStatus) (err : option string)
    : AriaStatusReply :=
  {| r_gid := g; r_status := st; completedLength := 10; totalLength := 40;
     files := [ {| path := "f-a" |} ]; errorMessage := err;
     r_dir := "/dl/" |}.

Definition storeOf (l : list DownloadTask) (tracked : list string)
    : DownloadStore :=
  {| currentTab := ""; downloadTasks := l; autoSyncTaskIds := tracked;
     creationTasks := [] |}.

(** ** Concrete inputs *)

(** A stored record with no retry left, whose job the daemon reports
    failed. *)
Definition exhaustedWorld : World Script :=
  worldOf (storeOf [taskOf "g1" Active 0 0] [])
    {| clock := 100; ids := []; handles := ["g2"];
       jobs := [("g1", replyOf "g1" Error (Some "boom"))];
       addUriDown := false; tellStatusDown := false; existing := [];
       pages := [] |}.

(** A stored record with two retries left, whose job the daemon reports
    failed; the daemon will accept a resubmission as ["g2"] and start it. *)
Definition retryWorld : World Script :=
  worldOf (storeOf [taskOf "g1" Active 0 2] ["g1"])
    {| clock := 100; ids := []; handles := ["g2"];
       jobs := [("g1", replyOf "g1" Error (Some "boom"));
                ("g2", replyOf "g2" Active None)];
       addUriDown := false; tellStatusDown := false; existing := [];
       pages := [] |}.

(** One tracked record, and a daemon that rejects the batched status
    query. *)
Definition pollerDownWorld : World Script :=
  worldOf (storeOf [taskOf "g1" Active 0 5] ["g1"])
    {| clock := 100; ids := []; handles := [];
       jobs := [("g1", replyOf "g1" Active None)];
       addUriDown := false; tellStatusDown := true; existing := [];
       pages := [] |}.

(** One record last touched at 0 (and a daemon that refuses
    submissions). *)
Definition staleWorld : World Script :=
  worldOf (storeOf [taskOf "g1" Active 0 5] ["g1"])
    {| clock := 100; ids := []; handles := []; jobs := [];
       addUriDown := true; tellStatusDown := false; existing := [];
       pages := [] |}.

(** A crawl for photos without a date range, and a page with one post
    that carries a photo and a video. *)
Definition crawlTask : CreationTask :=
  {| id := "t1"; user := {| user_id := "u" |};
     filter := {| mediaTypes := Some ["photo"]; dateRange := None;
                  source := "medias" |};
     c_status := CActive; completeCount := 0; skipCount := 0 |}.

Definition crawlPage : Page :=
  {| twitterPosts := [postOf "p1" (Some 50) [photo "a"; video "b"]];
     cursor := None |}.

Definition crawlWorld : World Script :=
  worldOf
    {| currentTab := ""; downloadTasks := []; autoSyncTaskIds := [];
       creationTasks := [crawlTask] |}
    {| clock := 100; ids := []; handles := ["h1"];
       jobs := [("h1", replyOf "h1" Waiting None)];
       addUriDown := false; tellStatusDown := false; existing := [];
       pages := [] |}.

(** The world the module is loaded in; [nanoid] will give ["t1"] then
    ["t2"]. *)
Definition bootWorld : World Script :=
  worldOf initialStore
    {| clock := 100; ids := ["t1"; "t2"]; handles := []; jobs := [];
       addUriDown := false; tellStatusDown := false; existing := [];
       pages := [] |}.

Definition somebody : TwitterUser := {| user_id := "u" |}.


(** Two stored records, the first tracked; the daemon knows the first
    as complete. *)
Definition completeReply : AriaStatusReply :=
  {| r_gid := "g1"; r_status := Complete; completedLength := 40;
     totalLength := 40; files := [ {| path := "f-a" |} ];
     errorMessage := None; r_dir := "/dl/" |}.

Definition mergeWorld : World Script :=
  worldOf (storeOf [taskOf "g1" Active 0 5; taskOf "g2" Active 0 5] ["g1"])
    {| clock := 100; ids := []; handles := ["g3"; "g4"];
       jobs := [("g1", completeReply); ("g3", replyOf "g3" Waiting None);
                ("g4", replyOf "g4" Active None)];
       addUriDown := false; tellStatusDown := false; existing := [];
       pages := [] |}.

Definition twoJobs : list CreateDownloadTaskParams :=
  [ {| p_post := postOf "p1" (Some 50) [photo "a"; video "b"];
       p_media := photo "a" |};
    {| p_post := postOf "p1" (Some 50) [photo "a"; video "b"];
       p_media := video "b" |} ].

(** An empty store, and a daemon that will accept one job as ["g3"]
    and knows it as complete. *)
Definition g3Complete : AriaStatusReply :=
  {| r_gid := "g3"; r_status := Complete; completedLength := 40;
     totalLength := 40; files := [ {| path := "f-a" |} ];
     errorMessage := None; r_dir := "/dl/" |}.

Definition freshWorld : World Script :=
  worldOf (storeOf [] [])
    {| clock := 100; ids := []; handles := ["g3"];
       jobs := [("g3", g3Complete)];
       addUriDown := false; tellStatusDown := false; existing := [];
       pages := [] |}.

(** A crawl whose only page has already been fetched: the cursor is
    [null]. *)
Definition crawlScriptWorld : World Script :=
  worldOf
    {| currentTab := ""; downloadTasks := []; autoSyncTaskIds := [];
       creationTasks := [crawlTask] |}
    {| clock := 100; ids := []; handles := ["h1"];
       jobs := [("h1", replyOf "h1" Waiting None)];
       addUriDown := false; tellStatusDown := false; existing := [];
       pages := [crawlPage] |}.

(** A page with a post out of the date range, which carries two
    entries, and a post in range with three photos and a video; the
    files of the first two photos are on disk already. *)
Definition skipPost : TwitterPost :=
  postOf "p1" (Some 50) [photo "a"; photo "c"; video "b"; photo "d"].

Definition skipPage : Page :=
  {| twitterPosts := [postOf "p0" (Some 500) [photo "x"; video "y"]; skipPost];
     cursor := None |}.

Definition skipWorld : World Script :=
  worldOf
    {| currentTab := ""; downloadTasks := []; autoSyncTaskIds := [];
       creationTasks := [crawlTask] |}
    {| clock := 100; ids := []; handles := ["h1"];
       jobs := [("h1", replyOf "h1" Waiting None)];
       addUriDown := false; tellStatusDown := false;
       existing := ["/dl//f-a"; "/dl//f-c"]; pages := [] |}.


(** * The name patterns of the settings page

    The validators of [dirTemplate] and [fileNameTemplate] test the
    value against a regular expression ([Joi.string().pattern(...)]).  A
    JavaScript string is a sequence of UTF-16 code units, here numbers;
    a regular expression anchored by [^] and [$] accepts a string when
    the whole string is in its language.  [test] decides that, by
    derivatives. *)

Inductive Regex : Type :=
  | ReNone                        (* matches nothing *)
  | ReEps                         (* the empty string *)
  | ReLit (c : N)                 (* one given code unit *)
  | ReNotIn (cs : list N)         (* [^...] *)
  | ReSeq (r1 r2 : Regex)
  | ReAlt (r1 r2 : Regex)
  | ReStar (r : Regex).

(** [r?] and [r+]. *)
Definition ReOpt (r : Regex) : Regex := ReAlt r ReEps.
Definition RePlus (r : Regex) : Regex := ReSeq r (ReStar r).

Definition inClass (cs : list N) (c : N) : bool := existsb (N.eqb c) cs.

Inductive lang : Regex -> list N -> Prop :=
  | lang_eps : lang ReEps []
  | lang_lit c : lang (ReLit c) [c]
  | lang_notin cs c : inClass cs c = false -> lang (ReNotIn cs) [c]
  | lang_seq r1 r2 s1 s2 :
      lang r1 s1 -> lang r2 s2 -> lang (ReSeq r1 r2) (s1 ++ s2)
  | lang_alt_l r1 r2 s : lang r1 s -> lang (ReAlt r1 r2) s
  | lang_alt_r r1 r2 s : lang r2 s -> lang (ReAlt r1 r2) s
  | lang_star_nil r : lang (ReStar r) []
  | lang_star_app r s1 s2 :
      lang r s1 -> lang (ReStar r) s2 -> lang (ReStar r) (s1 ++ s2).

Fixpoint nullable (r : Regex) : bool :=
  match r with
  | ReNone | ReLit _ | ReNotIn _ => false
  | ReEps | ReStar _ => true
  | ReSeq r1 r2 => nullable r1 && nullable r2
  | ReAlt r1 r2 => nullable r1 || nullable r2
  end.

Fixpoint deriv (c : N) (r : Regex) : Regex :=
  match r with
  | ReNone | ReEps => ReNone
  | ReLit c' => if N.eqb c c' then ReEps else ReNone
  | ReNotIn cs => if inClass cs c then ReNone else ReEps
  | ReSeq r1 r2 =>
      if nullable r1
      then ReAlt (ReSeq (deriv c r1) r2) (deriv c r2)
      else ReSeq (deriv c r1) r2
  | ReAlt r1 r2 => ReAlt (deriv c r1) (deriv c r2)
  | ReStar r1 => ReSeq (deriv c r1) (ReStar r1)
  end.

(** [/^r$/.test(s)] *)
Definition test (r : Regex) (s : list N) : bool :=
  nullable (foldl (fun r c => deriv c r) r s).

(** The code units of backslash, slash, colon, star, double quote,
    less-than, greater-than and bar, in the order in which the negated
    class of the two patterns lists them. *)
Definition backslash : N := 92.

Definition forbidden : list N := [92; 47; 58; 42; 34; 60; 62; 124]%N.

(** The pattern of [dirTemplate], anchored at both ends: one or more
    times, a code unit outside the class followed by an optional
    backslash. *)
Definition dirTemplatePattern : Regex :=
  RePlus (ReSeq (ReNotIn forbidden) (ReOpt (ReLit backslash))).

(** The pattern of [fileNameTemplate], anchored at both ends: one or
    more code units outside the class. *)
Definition fileNameTemplatePattern : Regex :=
  RePlus (ReNotIn forbidden).

(** The code unit of [?], which the messages of the two validators list
    among the characters a name cannot contain. *)
Definition questionMark : N := 63.


(** * Vocabulary of the properties *)

(** The last record of [tasks] carrying the handle [g]. *)
Definition lastWithGid (g : string) (tasks : list DownloadTask)
    : option DownloadTask :=
  List.find (fun t => String.eqb (gid t) g) (rev tasks).

(** The number of media entries attached to a post. *)
Definition mediaCount (p : TwitterPost) : Z :=
  match medias p with
  | Some ms => Z.of_nat (length ms)
  | None => 0
  end.

(** Over a list of posts: the entries that pass the media-type filter,
    and those it drops. *)
Definition passingCount (f : DownloadFilter) (posts : list TwitterPost) : Z :=
  foldr
    (fun p n =>
       Z.of_nat (length (List.filter (keepMedia f) (default [] (medias p))))
       + n)
    0 posts.

(** The entries that pass the media-type filter, post by post, in the
    order the runner goes through them. *)
Definition passingEntries (f : DownloadFilter) (posts : list TwitterPost)
    : list CreateDownloadTaskParams :=
  flat_map
    (fun p =>
       List.map (fun m => {| p_post := p; p_media := m |})
         (List.filter (keepMedia f) (default [] (medias p))))
    posts.

Definition typeDroppedCount (f : DownloadFilter) (posts : list TwitterPost)
    : Z :=
  foldr
    (fun p n =>
       Z.of_nat
         (length
            (List.filter (fun m => negb (keepMedia f m))
               (default [] (medias p))))
       + n)
    0 posts.

(** * Interleavings of the creation-task queue

    The store is shared by the user interface, the scheduler and the
    runner the scheduler awaits.  JavaScript runs each of them to its
    next [await] without interruption, so an interleaving is a sequence
    of such uninterrupted stretches.  [pending] lists the runs of
    [scheduleCreationTasks] that are suspended at the [await] of the
    runner, each with the task and the abort signal it passed on. *)

Section Interleavings.

Context {E : Type} {host : Host E}.

Record System : Type := mkSystem {
  world : World E;
  pending : list (CreationTask * nat)
}.

Definition withIdleCallbacks (cbs : list Callback) (w : World E) : World E :=
  mkWorld (store w) (settings w) (env w) (signals w)
    (creationTaskAbortControllerMap w) (notifications w) (rpcs w)
    (timeouts w) cbs.

Definition isSchedulerCallback (cb : Callback) : bool :=
  match cb with
  | CbScheduleCreationTasks => true
  | CbScheduleAutoSyncTasks => false
  end.

(** Two worlds that differ in nothing the queue operations read or
    write. *)
Definition sameQueue (w w' : World E) : Prop :=
  creationTasks (store w') = creationTasks (store w) /\
  signals w' = signals w /\
  creationTaskAbortControllerMap w' = creationTaskAbortControllerMap w /\
  idleCallbacks w' = idleCallbacks w.

(** A computation that leaves the queue alone, however it ends. *)
Definition quiet {A} (m : Async E A) : Prop :=
  forall w, sameQueue w (m w).1.


(** [nanoid] is taken to hand out an identifier no queued task has. *)
Definition nanoidFresh (w : World E) : Prop :=
  ~ In (nanoid (env w)).2 (List.map id (creationTasks (store w))).

Definition afterBegin (rs : list (CreationTask * nat))
    (o : SchedulerOutcome) : list (CreationTask * nat) :=
  match o with
  | Running t a => rs ++ [(t, a)]
  | Rescheduled | Crashed _ => rs
  end.

Inductive step : System -> System -> Prop :=
  (* the user queues a task *)
  | step_create (u : TwitterUser) (f : DownloadFilter) w rs :
      nanoidFresh w ->
      step (mkSystem w rs) (mkSystem (createCreationTask u f w) rs)
  (* the user removes a task, queued or running *)
  | step_remove (i : string) w rs :
      step (mkSystem w rs) (mkSystem (removeCreationTask i w) rs)
  (* the host calls a requested idle callback: a run of the scheduler
     up to the call of the runner *)
  | step_scheduler_begin w rs pre post :
      idleCallbacks w = pre ++ CbScheduleCreationTasks :: post ->
      let r := scheduleCreationTasksBegin (withIdleCallbacks (pre ++ post) w) in
      step (mkSystem w rs) (mkSystem r.1 (afterBegin rs r.2))
  (* the awaited runner publishes its counters *)
  | step_runner_publish w rs t a (c s : Z) :
      In (t, a) rs ->
      step (mkSystem w rs)
        (mkSystem (updateCreationTask (withCounts c s t) w) rs)
  (* the runner returns or throws: the rest of that run of the scheduler *)
  | step_scheduler_end w pre post t a (failure : option JsError) :
      step (mkSystem w (pre ++ (t, a) :: post))
        (mkSystem (scheduleCreationTasksEnd t failure w) (pre ++ post))
  (* anything else: downloads, the poller, the daemon, the clock *)
  | step_elsewhere w w' rs :
      sameQueue w w' ->
      step (mkSystem w rs) (mkSystem w' rs).

(** The module is loaded with an empty queue and calls
    [scheduleCreationTasks] once. *)
Inductive reachable : System -> Prop :=
  | reachable_boot w :
      creationTasks (store w) = [] ->
      idleCallbacks w = [] ->
      reachable (mkSystem (scheduleCreationTasksBegin w).1 [])
  | reachable_step s s' :
      reachable s -> step s s' -> reachable s'.

(** Sequences of steps, and computations all of whose runs are
    sequences of steps while the runs [rs] of the scheduler are
    suspended. *)
Definition steps : relation System := rtc step.

Definition stepwise {A} (rs : list (CreationTask * nat)) (m : Async E A)
    : Prop :=
  forall w, steps (mkSystem w rs) (mkSystem (m w).1 rs).

Definition activeCount (s : System) : nat :=
  length (List.filter isActive (creationTasks (store (world s)))).

Definition schedulerCallbacks (w : World E) : nat :=
  length (List.filter isSchedulerCallback (idleCallbacks w)).

(** What holds of every reachable state. *)
Record Invariant (s : System) : Prop := mkInvariant {
  inv_ids : NoDup (List.map id (creationTasks (store (world s))));
  inv_controllers :
    forall t, In t (creationTasks (store (world s))) ->
      is_Some (creationTaskAbortControllerMap (world s) !! id t);
  inv_one_run :
    (schedulerCallbacks (world s) + length (pending s) <= 1)%nat;
  inv_idle :
    pending s = [] ->
    forall t, In t (creationTasks (store (world s))) -> isActive t = false;
  inv_running :
    forall t a, In (t, a) (pending s) ->
    forall x, In x (creationTasks (store (world s))) ->
      isActive x = true -> id x = id t
}.

End Interleavings.

Arguments System E : clear implicits.


(** ** A concrete interleaving: load, queue one task, let the scheduler
    start it *)

Definition queuedWorld : World Script :=
  createCreationTask somebody (filter crawlTask)
    (scheduleCreationTasksBegin bootWorld).1.

Definition runningSystem : System Script :=
  mkSystem
    (scheduleCreationTasksBegin (withIdleCallbacks ([] ++ []) queuedWorld)).1
    (afterBegin []
       (scheduleCreationTasksBegin
          (withIdleCallbacks ([] ++ []) queuedWorld)).2).


(** ** Further vocabulary: merged records, retry budget, tokens *)

Section MoreVocabulary.

Context {E : Type} {host : Host E}.

(** The record [mergeAriaStatusToDownloadTask] returns for a reply whose
    first file is [f0], stamped [stamp]. *)
Definition mergedRecord (st : AriaStatusReply) (f0 : AriaFile)
    (old : DownloadTask) (stamp : Z) : DownloadTask :=
  {| gid := r_gid st;
     status := r_status st;
     completeSize := Num (completedLength st);
     totalSize := Num (totalLength st);
     fileName := pathBasename (path f0);
     media := media old;
     post := post old;
     error := errorMessage st;
     dir := r_dir st;
     updatedAt := stamp;
     downloadUrl := downloadUrl old;
     ariaRetryCountRemains := ariaRetryCountRemains old |}.

(** What a tick of the poller makes of one stored record, given the
    daemon's answers and the snapshot time. *)
Definition polled (resultMap : gmap string AriaStatusReply) (now_ : Z)
    (old : DownloadTask) : DownloadTask :=
  if updatedAt old >? now_ then old
  else
    match resultMap !! gid old with
    | None => old
    | Some st =>
        match files st with
        | [] => old
        | f0 :: _ => mergedRecord st f0 old now_
        end
    end.

(** The tokens of the queue: every entry of the side table belongs to a
    queued task, points to a controller that was allocated and is not
    aborted, and no two entries share a controller; and exactly one run
    of the scheduler is either requested or suspended at its runner. *)
Record TokenInvariant (s : System E) : Prop := mkTokenInvariant {
  tok_owned :
    forall i, is_Some (creationTaskAbortControllerMap (world s) !! i) ->
      In i (List.map id (creationTasks (store (world s))));
  tok_live :
    forall i a, creationTaskAbortControllerMap (world s) !! i = Some a ->
      signals (world s) !! a = Some false;
  tok_apart :
    forall i j a,
      creationTaskAbortControllerMap (world s) !! i = Some a ->
      creationTaskAbortControllerMap (world s) !! j = Some a -> i = j;
  tok_one_run :
    (schedulerCallbacks (world s) + length (pending s) = 1)%nat
}.

(** Whether the target file of an entry is on disk: the answer of the
    file system for the path of the job prepared from the entry, asked
    in the host state [e], and the host state after the question.  With
    [sameFileSkip] off the file system is not asked and no file counts
    as there. *)
Definition fileThere (st : DownloadSettings) (x : CreateDownloadTaskParams)
    (e : E) : E * bool :=
  if sameFileSkip st
  then
    let t := preparedTask st (dateNow e) x in
    let a := fsExists (pathJoin (dir t) (fileName t)) e in
    (a.1, match a.2 with inr b => b | inl _ => false end)
  else (e, false).

(** Of a list of entries gone through one after the other from the
    host state [e]: those whose file is there, those whose file is
    missing, and the host state at the end. *)
Fixpoint existingEntries (st : DownloadSettings)
    (entries : list CreateDownloadTaskParams) (e : E)
    : list CreateDownloadTaskParams :=
  match entries with
  | [] => []
  | x :: rest =>
      let a := fileThere st x e in
      if a.2 then x :: existingEntries st rest a.1
      else existingEntries st rest a.1
  end.

Fixpoint missingEntries (st : DownloadSettings)
    (entries : list CreateDownloadTaskParams) (e : E)
    : list CreateDownloadTaskParams :=
  match entries with
  | [] => []
  | x :: rest =>
      let a := fileThere st x e in
      if a.2 then missingEntries st rest a.1
      else x :: missingEntries st rest a.1
  end.

Fixpoint afterFileChecks (st : DownloadSettings)
    (entries : list CreateDownloadTaskParams) (e : E) : E :=
  match entries with
  | [] => e
  | x :: rest => afterFileChecks st rest (fileThere st x e).1
  end.

(** The module as it is loaded: an empty queue, an empty side table,
    no idle callback requested yet.  [sinceLoad s]: the state [s] is
    reached from the call of [scheduleCreationTasks] that ends the
    loading of the module, by a sequence of steps. *)
Definition loaded (w : World E) : Prop :=
  creationTasks (store w) = [] /\
  idleCallbacks w = [] /\
  creationTaskAbortControllerMap w = ∅.

Definition sinceLoad (s : System E) : Prop :=
  exists w, loaded w /\ steps (mkSystem (scheduleCreationTasksBegin w).1 []) s.

End MoreVocabulary.

(** The submissions among the calls made to the daemon. *)
Definition isAddUri (c : RpcCall) : bool :=
  match c with
  | AddUri _ _ _ => true
  | _ => false
  end.

Definition countAddUri (calls : list RpcCall) : Z :=
  Z.of_nat (length (List.filter isAddUri calls)).

(** The retries left over all the stored records. *)
Definition retryBudget (tasks : list DownloadTask) : Z :=
  foldr (fun t n => ariaRetryCountRemains t + n) 0 tasks.


(** * Properties *)

(** ** Helpers: [findIndex], [fromPairs] *)

Lemma findIndex_Some {A} (p : A -> bool) (l : list A) (i : nat) :
  findIndex p l = Some i ->
  exists x, l !! i = Some x /\ p x = true.
Proof.
  revert i. induction l as [|a l IH]; intros i; simpl; [discriminate|].
  destruct (p a) eqn:Hp.
  - intros [= <-]. exists a. split; [reflexivity | exact Hp].
  - destruct (findIndex p l) as [j|]; simpl; [|discriminate].
    intros [= <-]. exact (IH j eq_refl).
Qed.

Lemma findIndex_None {A} (p : A -> bool) (l : list A) :
  findIndex p l = None <-> List.find p l = None.
Proof.
  induction l as [|a l IH]; simpl; [tauto|].
  destruct (p a); [split; discriminate|].
  destruct (findIndex p l); simpl; split; try discriminate; try tauto.
  intros H. apply IH in H. discriminate.
Qed.

Lemma findIndex_find {A} (p : A -> bool) (l : list A) (i : nat) :
  findIndex p l = Some i -> List.find p l = l !! i.
Proof.
  revert i. induction l as [|a l IH]; intros i; simpl; [discriminate|].
  destruct (p a).
  - intros [= <-]. reflexivity.
  - destruct (findIndex p l) as [j|]; simpl; [|discriminate].
    intros [= <-]. simpl. exact (IH j eq_refl).
Qed.

Lemma fromPairs_snoc {A} (l : list (string * A)) (p : string * A) :
  fromPairs (l ++ [p]) = <[p.1 := p.2]> (fromPairs l).
Proof. unfold fromPairs. rewrite foldl_app. reflexivity. Qed.

Lemma fromPairs_gid (tasks : list DownloadTask) (g : string) :
  fromPairs (List.map (fun t => (gid t, t)) tasks) !! g = lastWithGid g tasks.
Proof.
  unfold lastWithGid.
  induction tasks as [|t tasks IH] using rev_ind; [reflexivity|].
  rewrite map_app, rev_app_distr. simpl List.map. rewrite fromPairs_snoc.
  simpl. destruct (String.eqb_spec (gid t) g) as [->|Hne].
  - apply lookup_insert_eq.
  - rewrite lookup_insert_ne by exact Hne. exact IH.
Qed.

Lemma lastWithGid_Some (g : string) (tasks : list DownloadTask)
    (t : DownloadTask) :
  lastWithGid g tasks = Some t -> In t tasks /\ gid t = g.
Proof.
  unfold lastWithGid. intros H. apply find_some in H as [Hin Heq].
  split; [apply in_rev; exact Hin | apply String.eqb_eq; exact Heq].
Qed.

Lemma lastWithGid_None (g : string) (tasks : list DownloadTask) :
  lastWithGid g tasks = None <-> (forall t, In t tasks -> gid t <> g).
Proof.
  unfold lastWithGid. split.
  - intros H t Hin. apply in_rev in Hin.
    apply (find_none _ _ H) in Hin. apply String.eqb_neq. exact Hin.
  - intros H. destruct (List.find _ _) as [t|] eqn:Hf; [|reflexivity].
    apply find_some in Hf as [Hin Heq]. apply in_rev in Hin.
    apply String.eqb_eq in Heq. destruct (H t Hin Heq).
Qed.

Lemma NoDup_gid_inj (tasks : list DownloadTask) (t t' : DownloadTask) :
  NoDup (List.map gid tasks) ->
  In t tasks -> In t' tasks -> gid t = gid t' -> t = t'.
Proof.
  induction tasks as [|x tasks IH]; simpl; [tauto|].
  intros [Hx Hnd]%NoDup_cons [<-|Hin] [<-|Hin'] Hg; auto.
  - exfalso. apply Hx. rewrite Hg. apply list_elem_of_In, in_map, Hin'.
  - exfalso. apply Hx. rewrite <- Hg. apply list_elem_of_In, in_map, Hin.
Qed.

Lemma lastWithGid_NoDup (tasks : list DownloadTask) (t : DownloadTask) :
  NoDup (List.map gid tasks) -> In t tasks ->
  lastWithGid (gid t) tasks = Some t.
Proof.
  intros Hnd Hin. destruct (lastWithGid (gid t) tasks) as [t'|] eqn:Hl.
  - apply lastWithGid_Some in Hl as [Hin' Hg].
    rewrite (NoDup_gid_inj tasks t' t Hnd Hin' Hin Hg). reflexivity.
  - exfalso. exact (proj1 (lastWithGid_None _ _) Hl t Hin eq_refl).
Qed.

Section Properties.

Context {E : Type} {host : Host E}.

Local Abbreviation World := (World E).

Lemma withStore_same (w : World) : withStore (store w) w = w.
Proof. destruct w; reflexivity. Qed.

Lemma setDownloadTasks_same (s : DownloadStore) :
  setDownloadTasks (downloadTasks s) s = s.
Proof. destruct s; reflexivity. Qed.

(** ** The single-task merge guard *)

(** C4, as amended.  With [old] the stored record that carries the
    handle of the incoming [task] (the first one, where
    [updateDownloadTask] looks): when [old] was updated after the
    comparison stamp [t] the call changes nothing at all; otherwise the
    stored record is replaced as a whole by [task] and every other record
    stays.  The stamp the store then holds is the one [task] came with:
    [t] is only compared, never written. *)
Theorem updateDownloadTask_guard (w : World) (task old : DownloadTask)
    (t : Z) (i : nat) :
  findIndex (fun x => String.eqb (gid x) (gid task))
    (downloadTasks (store w)) = Some i ->
  downloadTasks (store w) !! i = Some old ->
  (updatedAt old > t ->
     updateDownloadTask task (Some t) w = (w, inr tt)) /\
  (updatedAt old <= t ->
     let w' := (updateDownloadTask task (Some t) w).1 in
     downloadTasks (store w') = <[i := task]> (downloadTasks (store w)) /\
     downloadTasks (store w') !! i = Some task /\
     updatedAt <$> (downloadTasks (store w') !! i) = Some (updatedAt task)).
Proof.
  intros Hi Hold.
  unfold updateDownloadTask, bind, get, set, effect, ret. simpl.
  rewrite Hi, Hold. split; intros Hcmp.
  - assert ((updatedAt old >? t) = true) as -> by lia. reflexivity.
  - assert ((updatedAt old >? t) = false) as -> by lia. simpl.
    assert (downloadTasks (store w) !! i = Some old) as Hlt by exact Hold.
    apply lookup_lt_Some in Hlt.
    rewrite list_lookup_insert_eq by exact Hlt. auto.
Qed.

(** ** The batch merge guard *)

(** C6, as amended.  A batch merge keeps the number and the order of
    the stored records.  A stored record whose handle no incoming record
    carries stays.  Otherwise one incoming record is compared with it,
    the last one of the batch under that handle; an earlier incoming
    record under the same handle is passed over whatever its stamp.  The
    record compared is rejected and the stored one kept exactly when its
    own [updatedAt] is strictly older than the stored one's; hence
    whatever replaces a stored record is an incoming record with the
    same handle and a stamp that is not older, and an incoming record
    whose handle is not stored adds nothing.  When no handle is repeated
    in the batch, this is the fate of each incoming record whose handle
    is stored. *)
Theorem batchUpdateDownloadTasks_guard (w : World)
    (tasks : list DownloadTask) :
  let w' := (batchUpdateDownloadTasks tasks w).1 in
  length (downloadTasks (store w')) = length (downloadTasks (store w)) /\
  (forall i old, downloadTasks (store w) !! i = Some old ->
     match lastWithGid (gid old) tasks with
     | None => downloadTasks (store w') !! i = Some old
     | Some new =>
         downloadTasks (store w') !! i =
           Some (if updatedAt new <? updatedAt old then old else new)
     end) /\
  (forall i old new,
     downloadTasks (store w) !! i = Some old ->
     downloadTasks (store w') !! i = Some new ->
     new <> old ->
     In new tasks /\ gid new = gid old /\ updatedAt old <= updatedAt new) /\
  (NoDup (List.map gid tasks) ->
   forall i old t,
     downloadTasks (store w) !! i = Some old ->
     In t tasks -> gid t = gid old ->
     downloadTasks (store w') !! i =
       Some (if updatedAt t <? updatedAt old then old else t)).
Proof.
  unfold batchUpdateDownloadTasks, bind, get, set, effect, ret. simpl.
  assert (forall i old, downloadTasks (store w) !! i = Some old ->
    List.map
      (fun oldTask =>
         match fromPairs (List.map (fun t => (gid t, t)) tasks) !! gid oldTask
         with
         | None => oldTask
         | Some newTask =>
             if updatedAt newTask <? updatedAt oldTask then oldTask
             else newTask
         end) (downloadTasks (store w)) !! i =
    Some match lastWithGid (gid old) tasks with
         | None => old
         | Some new => if updatedAt new <? updatedAt old then old else new
         end) as Hpoint.
  { intros i old Hold.
    change (List.map ?f ?l) with (f <$> l).
    rewrite list_lookup_fmap, Hold. simpl.
    rewrite fromPairs_gid. reflexivity. }
  split; [apply length_map|]. split; [|split].
  - intros i old Hold. rewrite (Hpoint i old Hold).
    destruct (lastWithGid (gid old) tasks); reflexivity.
  - intros i old new Hold Hnew Hne. rewrite (Hpoint i old Hold) in Hnew.
    destruct (lastWithGid (gid old) tasks) as [n|] eqn:Hl.
    + apply lastWithGid_Some in Hl as [Hin Hg].
      destruct (updatedAt n <? updatedAt old) eqn:Hcmp.
      * injection Hnew as <-. destruct (Hne eq_refl).
      * injection Hnew as <-. repeat split; [exact Hin | exact Hg | lia].
    + injection Hnew as <-. destruct (Hne eq_refl).
  - intros Hnd i old t Hold Hin Hg. rewrite (Hpoint i old Hold).
    rewrite <- Hg, (lastWithGid_NoDup _ _ Hnd Hin). reflexivity.
Qed.

(** ** The lifecycle manager: creation *)

Ltac async_unfold :=
  unfold bind, get, set, effect, ret, throw, now, await, detached,
    prepareDownloadTask in *; simpl in *.

(** What a run of [createDownloadTask] comes to: the daemon is asked to
    add the job and then for its status; the first rejection is thrown
    with the store as it was, and when both calls are answered the one
    fully populated record is appended. *)
Lemma createDownloadTask_cases (w : World) (params : CreateDownloadTaskParams) :
  let task := preparedTask (settings w) (dateNow (env w)) params in
  let r := createDownloadTask params w in
  let sub := addUri (downloadUrl task) (dir task) (fileName task) (env w) in
  match sub.2 with
  | inl reason => r.2 = inl (Aria2Rejected reason) /\ store r.1 = store w
  | inr g =>
      match (tellStatus g sub.1).2 with
      | inl reason => r.2 = inl (Aria2Rejected reason) /\ store r.1 = store w
      | inr st =>
          r.2 = inr tt /\
          store r.1 =
            setDownloadTasks
              (downloadTasks (store w)
                 ++ [withStatus (r_status st) (withGid g task)])
              (store w)
      end
  end.
Proof.
  unfold createDownloadTask. async_unfold.
  destruct (addUri _ _ _ (env w)) as [e1 [reason|g]]; simpl; [auto|].
  destruct (tellStatus g e1) as [e2 [reason|st]]; simpl; auto.
Qed.

(** C8.  When [createDownloadTask] fails, what it throws is the
    daemon's rejection and the store is the one it started from: no
    record was added.  It does fail whenever the submission is
    rejected, and whenever the status query that follows it is. *)
Theorem createDownloadTask_failure (w : World)
    (params : CreateDownloadTaskParams) :
  let task := preparedTask (settings w) (dateNow (env w)) params in
  let r := createDownloadTask params w in
  let sub := addUri (downloadUrl task) (dir task) (fileName task) (env w) in
  (forall e, r.2 = inl e ->
     store r.1 = store w /\ exists reason, e = Aria2Rejected reason) /\
  (forall reason, sub.2 = inl reason ->
     r.2 = inl (Aria2Rejected reason) /\ store r.1 = store w) /\
  (forall g reason,
     sub.2 = inr g -> (tellStatus g sub.1).2 = inl reason ->
     r.2 = inl (Aria2Rejected reason) /\ store r.1 = store w).
Proof.
  intros task r sub.
  pose proof (createDownloadTask_cases w params) as H.
  cbv zeta in H. fold task in H. fold sub in H. fold r in H.
  split; [|split].
  - intros e He. destruct (sub.2) as [reason|g].
    + destruct H as [Hr Hs]. rewrite Hr in He. injection He as <-. eauto.
    + destruct ((tellStatus g sub.1).2) as [reason|st].
      * destruct H as [Hr Hs]. rewrite Hr in He. injection He as <-. eauto.
      * destruct H as [Hr _]. rewrite Hr in He. discriminate.
  - intros reason Hsub. rewrite Hsub in H. exact H.
  - intros g reason Hsub Hst. rewrite Hsub, Hst in H. exact H.
Qed.


(** ** The lifecycle manager: removal and redownload *)

Lemma removeDownloadTask_run (w : World) (g : string) :
  exists w',
    removeDownloadTask g w = (w', inr tt) /\
    store w' =
      setDownloadTasksAndIds
        (List.filter (fun v => negb (String.eqb (gid v) g))
           (downloadTasks (store w)))
        (List.filter (fun v => negb (String.eqb v g))
           (autoSyncTaskIds (store w)))
        (store w) /\
    settings w' = settings w.
Proof.
  unfold removeDownloadTask. async_unfold. eexists. split; [reflexivity|].
  simpl. auto.
Qed.

Lemma batchRemoveDownloadTasks_run (w : World) (gids : list string) :
  exists w',
    batchRemoveDownloadTasks gids w = (w', inr tt) /\
    store w' =
      setDownloadTasks
        (List.filter (fun v => negb (includes gids (gid v)))
           (downloadTasks (store w)))
        (store w).
Proof.
  unfold batchRemoveDownloadTasks. async_unfold. eexists.
  split; reflexivity.
Qed.

Lemma mapM_prepareDownloadTask (w : World)
    (l : list CreateDownloadTaskParams) :
  mapM prepareDownloadTask l w =
    (w, inr (List.map (preparedTask (settings w) (dateNow (env w))) l)).
Proof.
  induction l as [|x l IH]; [reflexivity|].
  simpl. unfold bind at 1. unfold prepareDownloadTask at 1. unfold ret at 1.
  unfold bind at 1. rewrite IH. reflexivity.
Qed.

Lemma assignHandles_error (tasks : list DownloadTask) (gids : list string)
    (m : gmap string AriaStatusReply) (e : JsError) :
  assignHandles tasks gids m = inl e -> e = TypeError.
Proof.
  revert gids. induction tasks as [|t tasks IH]; intros gids; simpl;
    [discriminate|].
  destruct gids as [|g gids]; [congruence|].
  destruct (m !! g); [|congruence].
  destruct (assignHandles tasks gids m) eqn:Hrec; [|discriminate].
  intros [= <-]. exact (IH _ Hrec).
Qed.

Local Arguments assignHandles : simpl never.

(** [batchCreateDownloadTask] throws nothing but a daemon rejection or
    the [TypeError] of a reply that misses a handle. *)
Lemma batchCreateDownloadTask_error (w : World)
    (l : list CreateDownloadTaskParams) (e : JsError) :
  (batchCreateDownloadTask l w).2 = inl e ->
  (exists reason, e = Aria2Rejected reason) \/ e = TypeError.
Proof.
  unfold batchCreateDownloadTask. unfold bind at 1.
  rewrite mapM_prepareDownloadTask.
  destruct (List.map _ l) as [|t ts]; [discriminate|].
  async_unfold.
  destruct (batchAddUri _ (env w)) as [e1 [reason|gids]]; simpl.
  { intros [= <-]. eauto. }
  destruct (tellStatusMany gids e1) as [e2 [reason|m]]; simpl.
  { intros [= <-]. eauto. }
  destruct (assignHandles (t :: ts) gids m) as [err|ts'] eqn:Ha; simpl.
  - intros [= <-]. right. exact (assignHandles_error _ _ _ _ Ha).
  - discriminate.
Qed.

Lemma find_gid_None (l : list DownloadTask) (g : string) :
  List.find (fun t => String.eqb (gid t) g) l = None <->
  (forall t, In t l -> gid t <> g).
Proof.
  split.
  - intros H t Hin. apply (find_none _ _ H) in Hin.
    apply String.eqb_neq. exact Hin.
  - intros H. destruct (List.find _ l) as [t|] eqn:Hf; [|reflexivity].
    apply find_some in Hf as [Hin Heq]. apply String.eqb_eq in Heq.
    destruct (H t Hin Heq).
Qed.

Lemma filter_nil_iff {A} (p : A -> bool) (l : list A) :
  List.filter p l = [] <-> (forall x, In x l -> p x = false).
Proof.
  induction l as [|a l IH]; simpl; [split; [intros _ x []|reflexivity]|].
  destruct (p a) eqn:Hp; split.
  - discriminate.
  - intros H. rewrite (H a (or_introl eq_refl)) in Hp. discriminate.
  - intros H x [<-|Hin]; [exact Hp|]. apply IH; assumption.
  - intros H. apply IH. intros x Hin. apply H. right. exact Hin.
Qed.

(** What a run of [redownloadTask] comes to when [old] is the stored
    record found: the daemon is told to drop the old job, the answer not
    awaited; the job is prepared anew from the post and the media of
    [old] and submitted; the daemon is asked for the status of the
    handle it gave. *)
Lemma redownloadTask_run (w : World) (g : string) (old : DownloadTask) :
  List.find (fun t => String.eqb (gid t) g) (downloadTasks (store w))
    = Some old ->
  let r := redownloadTask g w in
  let kept :=
    List.filter (fun v => negb (String.eqb (gid v) g))
      (downloadTasks (store w)) in
  let e0 := (remove g (env w)).1 in
  let task :=
    preparedTask (settings w) (dateNow e0)
      {| p_post := post old; p_media := media old |} in
  let submit := AddUri (downloadUrl task) (dir task) (fileName task) in
  let sub := addUri (downloadUrl task) (dir task) (fileName task) e0 in
  match sub.2 with
  | inl reason =>
      r.2 = inl (Aria2Rejected reason) /\
      downloadTasks (store r.1) = kept /\
      rpcs r.1 = rpcs w ++ [Remove g; submit]
  | inr g' =>
      match (tellStatus g' sub.1).2 with
      | inl reason =>
          r.2 = inl (Aria2Rejected reason) /\
          downloadTasks (store r.1) = kept /\
          rpcs r.1 = rpcs w ++ [Remove g; submit; TellStatus g']
      | inr st =>
          r.2 = inr tt /\
          downloadTasks (store r.1)
            = kept ++ [withStatus (r_status st) (withGid g' task)] /\
          rpcs r.1 = rpcs w ++ [Remove g; submit; TellStatus g']
      end
  end.
Proof.
  intros Hfind.
  assert (gid old = g) as Hg.
  { apply find_some in Hfind as [_ Heq]. apply String.eqb_eq. exact Heq. }
  assert (redownloadTask g w
          = createDownloadTask {| p_post := post old; p_media := media old |}
              (removeDownloadTask g w).1) as Hrun.
  { unfold redownloadTask, bind, get. rewrite Hfind, Hg. reflexivity. }
  cbv zeta. rewrite Hrun. clear Hrun Hfind Hg.
  unfold removeDownloadTask, createDownloadTask. async_unfold.
  destruct (addUri _ _ _ (remove g (env w)).1) as [e1 [reason|g']];
    simpl.
  { rewrite <- app_assoc. auto. }
  destruct (tellStatus g' e1) as [e2 [reason|st]]; simpl;
    rewrite <- !app_assoc; auto.
Qed.

(** C9.  [redownloadTask] throws its not-found error exactly when no
    stored record carries the handle, and then leaves everything as it
    was.  When [old] is the stored record found, every record with that
    handle is removed; if the daemon then accepts the new job its record
    is appended, built from the post and the media of [old] with the
    retry counter back at 5, and if the daemon refuses the call fails
    with the daemon's rejection, the removal done.  The new job is a
    job of the daemon: after the request to drop the old one, the job
    prepared from the post and the media of [old] is submitted with
    [addUri], the status of the handle the daemon gave is asked for, and
    the appended record is the prepared one under that handle and with
    that status; these are the only calls made.  The batch variant
    throws the not-found error exactly when none of the stored records
    carries one of the requested handles. *)
Theorem redownloadTask_notFound (w : World) (g : string) :
  let r := redownloadTask g w in
  (r.2 = inl notFound <->
     (forall t, In t (downloadTasks (store w)) -> gid t <> g)) /\
  (r.2 = inl notFound -> r.1 = w) /\
  (forall old,
     List.find (fun t => String.eqb (gid t) g) (downloadTasks (store w))
       = Some old ->
     let kept :=
       List.filter (fun v => negb (String.eqb (gid v) g))
         (downloadTasks (store w)) in
     match r.2 with
     | inr _ =>
         exists new,
           downloadTasks (store r.1) = kept ++ [new] /\
           post new = post old /\ media new = media old /\
           ariaRetryCountRemains new = 5
     | inl e =>
         downloadTasks (store r.1) = kept /\
         exists reason, e = Aria2Rejected reason
     end) /\
  (forall gids,
     (batchRedownloadTask gids w).2 = inl notFound <->
     (forall t, In t (downloadTasks (store w)) ->
        includes gids (gid t) = false)) /\
  (forall old,
     List.find (fun t => String.eqb (gid t) g) (downloadTasks (store w))
       = Some old ->
     let kept :=
       List.filter (fun v => negb (String.eqb (gid v) g))
         (downloadTasks (store w)) in
     let e0 := (remove g (env w)).1 in
     let task :=
       preparedTask (settings w) (dateNow e0)
         {| p_post := post old; p_media := media old |} in
     let submit := AddUri (downloadUrl task) (dir task) (fileName task) in
     let sub := addUri (downloadUrl task) (dir task) (fileName task) e0 in
     match sub.2 with
     | inl reason =>
         r.2 = inl (Aria2Rejected reason) /\
         downloadTasks (store r.1) = kept /\
         rpcs r.1 = rpcs w ++ [Remove g; submit]
     | inr g' =>
         match (tellStatus g' sub.1).2 with
         | inl reason =>
             r.2 = inl (Aria2Rejected reason) /\
             downloadTasks (store r.1) = kept /\
             rpcs r.1 = rpcs w ++ [Remove g; submit; TellStatus g']
         | inr st =>
             r.2 = inr tt /\
             downloadTasks (store r.1)
               = kept ++ [withStatus (r_status st) (withGid g' task)] /\
             rpcs r.1 = rpcs w ++ [Remove g; submit; TellStatus g']
         end
     end).
Proof.
  intros r.
  assert (forall old,
     List.find (fun t => String.eqb (gid t) g) (downloadTasks (store w))
       = Some old ->
     match r.2 with
     | inr _ =>
         exists new,
           downloadTasks (store r.1) =
             List.filter (fun v => negb (String.eqb (gid v) g))
               (downloadTasks (store w)) ++ [new] /\
           post new = post old /\ media new = media old /\
           ariaRetryCountRemains new = 5
     | inl e =>
         downloadTasks (store r.1) =
           List.filter (fun v => negb (String.eqb (gid v) g))
             (downloadTasks (store w)) /\
         exists reason, e = Aria2Rejected reason
     end) as Hfound.
  { intros old Hfind.
    assert (gid old = g) as Hg.
    { apply find_some in Hfind as [_ Heq]. apply String.eqb_eq. exact Heq. }
    destruct (removeDownloadTask_run w g) as (w1 & Hrm & Hs1 & Hset1).
    assert (r = createDownloadTask
                  {| p_post := post old; p_media := media old |} w1) as ->.
    { subst r. unfold redownloadTask, bind, get. rewrite Hfind, Hg, Hrm.
      reflexivity. }
    pose proof (createDownloadTask_cases w1
                  {| p_post := post old; p_media := media old |}) as Hc.
    cbv zeta in Hc.
    set (c := createDownloadTask _ w1) in *.
    destruct (addUri _ _ _ (env w1)) as [e1 [reason|g']]; simpl in Hc.
    { destruct Hc as [Hr Hs]. rewrite Hr, Hs, Hs1. simpl. eauto. }
    destruct (tellStatus g' e1) as [e2 [reason|st]]; simpl in Hc.
    { destruct Hc as [Hr Hs]. rewrite Hr, Hs, Hs1. simpl. eauto. }
    destruct Hc as [Hr Hs]. rewrite Hr, Hs, Hs1. simpl.
    eexists. split; [reflexivity|]. simpl. auto. }
  split; [|split; [|split; [|split]]].
  - split.
    + intros Hr. apply find_gid_None.
      destruct (List.find _ (downloadTasks (store w))) as [old|] eqn:Hfind;
        [|reflexivity].
      specialize (Hfound old eq_refl). rewrite Hr in Hfound.
      destruct Hfound as [_ [reason Hreason]]. discriminate.
    + intros Hnone. apply find_gid_None in Hnone. subst r.
      unfold redownloadTask. unfold bind at 1. unfold get at 1.
      rewrite Hnone. reflexivity.
  - intros Hr.
    destruct (List.find (fun t => String.eqb (gid t) g)
                (downloadTasks (store w))) as [old|] eqn:Hfind.
    + specialize (Hfound old eq_refl). rewrite Hr in Hfound.
      destruct Hfound as [_ [reason Hreason]]. discriminate.
    + subst r. unfold redownloadTask. unfold bind at 1. unfold get at 1.
      rewrite Hfind. reflexivity.
  - exact Hfound.
  - intros gids. unfold batchRedownloadTask. unfold bind at 1.
    unfold get at 1. rewrite <- filter_nil_iff.
    destruct (List.filter (fun t => includes gids (gid t))
                (downloadTasks (store w))) as [|t ts] eqn:Hf.
    + split; reflexivity.
    + split; [|discriminate]. unfold bind at 1.
      destruct (batchRemoveDownloadTasks_run w gids) as (w1 & -> & _).
      intros Hr. apply batchCreateDownloadTask_error in Hr.
      destruct Hr as [[reason Hr]|Hr]; discriminate.
  - intros old Hfind. exact (redownloadTask_run w g old Hfind).
Qed.


(** ** On-demand sync: the retry controller *)

(** C1 (what the code does where the claim fails).  The stored record
    has no retries left and the daemon reports [Error] for it.  The call
    returns normally; the daemon was asked for the status and nothing
    else, so nothing was resubmitted; the in-app and the OS notification
    were raised once each, with the file name and the daemon's error
    text (or the fallback); but the merged record is only used for the
    notification text: the store is exactly what it was, so the stored
    record does not become an [Error] record. *)
Theorem syncDownloadTaskStatus_exhausted (w : World) (g : string) (i : nat)
    (task : DownloadTask) (e1 : E) (st : AriaStatusReply) (f0 : AriaFile)
    (fs : list AriaFile) :
  findIndex (fun v => String.eqb (gid v) g) (downloadTasks (store w))
    = Some i ->
  downloadTasks (store w) !! i = Some task ->
  tellStatus g (env w) = (e1, inr st) ->
  r_status st = Error ->
  files st = f0 :: fs ->
  ariaRetryCountRemains task <= 0 ->
  let r := syncDownloadTaskStatus g w in
  let desc :=
    (pathBasename (path f0) ++ newline
       ++ orElse (errorMessage st) unknownReason)%string in
  r.2 = inr tt /\
  store r.1 = store w /\
  rpcs r.1 = rpcs w ++ [TellStatus g] /\
  notifications r.1 =
    notifications w
      ++ [AntError failedTitle (Some desc); OsNotification failedTitle desc].
Proof.
  intros Hi Htask Htell Hst Hfiles Hretry.
  unfold syncDownloadTaskStatus, mergeAriaStatusToDownloadTask.
  async_unfold. rewrite Hi, Htask. simpl. rewrite Htell. simpl.
  rewrite Hst. simpl.
  assert ((ariaRetryCountRemains task >? 0) = false) as -> by lia.
  rewrite Hfiles. simpl. rewrite <- app_assoc. auto.
Qed.

(** C5 (what the code does where the claim fails).  The stored record
    has retries left and the daemon reports [Error] for it.  When the
    daemon accepts the resubmission under the new handle [g'], the old
    record is removed (and its handle dropped from the auto-sync set),
    and the record appended in its place is built from the same post and
    media, carries [g'] and one retry less.  The status written into it
    is the answer to a second query for the old handle [gid task]: the
    new handle is never asked about. *)
Theorem syncDownloadTaskStatus_retry (w : World) (g g' : string) (i : nat)
    (task : DownloadTask) (e1 e2 e3 e4 : E) (st st' : AriaStatusReply) :
  let fresh :=
    preparedTask (settings w) (dateNow e2)
      {| p_post := post task; p_media := media task |} in
  findIndex (fun v => String.eqb (gid v) g) (downloadTasks (store w))
    = Some i ->
  downloadTasks (store w) !! i = Some task ->
  tellStatus g (env w) = (e1, inr st) ->
  r_status st = Error ->
  0 < ariaRetryCountRemains task ->
  (remove (gid task) e1).1 = e2 ->
  addUri (downloadUrl task) (dir fresh) (fileName fresh) e2 = (e3, inr g') ->
  tellStatus (gid task) e3 = (e4, inr st') ->
  let r := syncDownloadTaskStatus g w in
  r.2 = inr tt /\
  downloadTasks (store r.1) =
    List.filter (fun v => negb (String.eqb (gid v) (gid task)))
      (downloadTasks (store w))
    ++ [withStatus (r_status st')
          (withGid g'
             (withRetryCount (ariaRetryCountRemains task - 1) fresh))] /\
  autoSyncTaskIds (store r.1) =
    List.filter (fun v => negb (String.eqb v (gid task)))
      (autoSyncTaskIds (store w)) /\
  rpcs r.1 =
    rpcs w
      ++ [TellStatus g; Remove (gid task);
          AddUri (downloadUrl task) (dir fresh) (fileName fresh);
          TellStatus (gid task)].
Proof.
  intros fresh Hi Htask Htell Hst Hretry Hrm Hadd Htell'.
  unfold syncDownloadTaskStatus, removeDownloadTask.
  async_unfold. rewrite Hi, Htask. simpl. rewrite Htell. simpl.
  rewrite Hst. simpl.
  assert ((ariaRetryCountRemains task >? 0) = true) as -> by lia.
  simpl. rewrite Hrm. fold fresh. rewrite Hadd. simpl.
  rewrite Htell'. simpl.
  repeat rewrite <- app_assoc. auto.
Qed.

(** ** The background poller *)

(** C2 (what the code does where the claim fails).  With a non-empty
    auto-sync set, a run of the poller whose batched status query is
    rejected throws that rejection and ends there: no timer is set, and
    the store is untouched.  The poller is not run again. *)
Theorem scheduleAutoSyncTasks_query_failure (w : World) (e1 : E)
    (reason : string) :
  autoSyncTaskIds (store w) <> [] ->
  tellStatusMany (autoSyncTaskIds (store w)) (env w) = (e1, inl reason) ->
  let r := scheduleAutoSyncTasks w in
  r.2 = inl (Aria2Rejected reason) /\
  timeouts r.1 = timeouts w /\
  idleCallbacks r.1 = idleCallbacks w /\
  store r.1 = store w.
Proof.
  intros Hids Hq. unfold scheduleAutoSyncTasks. async_unfold.
  destruct (autoSyncTaskIds (store w)) as [|x ids_] eqn:Hl; [congruence|].
  rewrite Hq. simpl. auto.
Qed.

(** The runs that do reschedule: an empty auto-sync set. *)
Lemma scheduleAutoSyncTasks_idle (w : World) :
  autoSyncTaskIds (store w) = [] ->
  scheduleAutoSyncTasks w =
    (setTimeout CbScheduleAutoSyncTasks INTERVAL w, inr tt).
Proof.
  intros Hids. unfold scheduleAutoSyncTasks. async_unfold.
  rewrite Hids. reflexivity.
Qed.


(** ** The runner: what a page adds to the counters *)

Lemma getMediaCounts_from (posts : list TwitterPost) (a : Z) :
  foldl (fun acc elem => acc + mediaCount elem) a posts
  = a + getMediaCounts posts.
Proof.
  unfold getMediaCounts. fold mediaCount.
  change (fun acc elem => acc + match medias elem with
                                | Some ms => Z.of_nat (length ms)
                                | None => 0
                                end)
    with (fun acc elem => acc + mediaCount elem).
  revert a. induction posts as [|p posts IH]; intros a; simpl; [lia|].
  rewrite (IH (a + mediaCount p)), (IH (0 + mediaCount p)). lia.
Qed.

Lemma getMediaCounts_cons (p : TwitterPost) (posts : list TwitterPost) :
  getMediaCounts (p :: posts) = mediaCount p + getMediaCounts posts.
Proof.
  unfold getMediaCounts at 1. simpl. fold (mediaCount p).
  change (fun acc elem => acc + match medias elem with
                                | Some ms => Z.of_nat (length ms)
                                | None => 0
                                end)
    with (fun acc elem => acc + mediaCount elem).
  rewrite getMediaCounts_from. lia.
Qed.

(** The media of a page are those of the posts kept and those of the
    posts dropped. *)
Lemma getMediaCounts_split (k : TwitterPost -> bool)
    (posts : list TwitterPost) :
  getMediaCounts posts =
    getMediaCounts (List.filter k posts)
    + getMediaCounts (List.filter (fun p => negb (k p)) posts).
Proof.
  induction posts as [|p posts IH]; [reflexivity|].
  simpl. destruct (k p); simpl; rewrite !getMediaCounts_cons; lia.
Qed.

Lemma mediaCount_split (f : DownloadFilter) (p : TwitterPost) :
  mediaCount p =
    Z.of_nat (length (List.filter (keepMedia f) (default [] (medias p))))
    + Z.of_nat
        (length
           (List.filter (fun m => negb (keepMedia f m))
              (default [] (medias p)))).
Proof.
  unfold mediaCount. destruct (medias p) as [ms|]; simpl; [|reflexivity].
  induction ms as [|m ms IH]; [reflexivity|].
  simpl. destruct (keepMedia f m); simpl length; lia.
Qed.

Lemma getMediaCounts_by_type (f : DownloadFilter) (posts : list TwitterPost) :
  getMediaCounts posts = passingCount f posts + typeDroppedCount f posts.
Proof.
  induction posts as [|p posts IH]; [reflexivity|].
  rewrite getMediaCounts_cons. simpl.
  rewrite (mediaCount_split f p). lia.
Qed.

Lemma collectMedias_counts (p : TwitterPost) (ms : list TwitterMedia) :
  forall (skip : Z) (acc : list CreateDownloadTaskParams) (w w' : World)
         (skip' : Z) (acc' : list CreateDownloadTaskParams),
  collectMedias p ms skip acc w = (w', inr (skip', acc')) ->
  settings w' = settings w /\
  skip <= skip' /\
  (skip' - skip) + (Z.of_nat (length acc') - Z.of_nat (length acc))
    = Z.of_nat (length ms) /\
  (sameFileSkip (settings w) = false -> skip' = skip).
Proof.
  induction ms as [|m ms IH]; intros skip acc w w' skip' acc'.
  - simpl. unfold ret. intros [= <- <- <-]. simpl. repeat split; lia.
  - simpl. async_unfold.
    destruct (sameFileSkip (settings w)) eqn:Hskip.
    + unfold await. simpl.
      destruct (fsExists _ (env w)) as [e1 [reason|present]]; simpl;
        [discriminate|].
      destruct present; intros Hrun; apply IH in Hrun; simpl in Hrun;
        destruct Hrun as (Hs & Hle & Hsum & _);
        (split; [exact Hs|]); (split; [lia|]);
        (split; [|discriminate]);
        try rewrite length_app in Hsum; simpl in Hsum; lia.
    + unfold ret. intros Hrun. apply IH in Hrun.
      destruct Hrun as (Hs & Hle & Hsum & Hoff).
      rewrite length_app in Hsum. simpl in Hsum.
      split; [exact Hs|]. split; [lia|]. split; [lia|].
      intros _. apply Hoff. exact Hskip.
Qed.

Lemma collectPosts_counts (f : DownloadFilter) (posts : list TwitterPost) :
  forall (skip : Z) (acc : list CreateDownloadTaskParams) (w w' : World)
         (skip' : Z) (acc' : list CreateDownloadTaskParams),
  collectPosts f posts skip acc w = (w', inr (skip', acc')) ->
  settings w' = settings w /\
  skip <= skip' /\
  (skip' - skip) + (Z.of_nat (length acc') - Z.of_nat (length acc))
    = passingCount f posts /\
  (sameFileSkip (settings w) = false -> skip' = skip).
Proof.
  induction posts as [|p posts IH]; intros skip acc w w' skip' acc'.
  - simpl. unfold ret. intros [= <- <- <-]. simpl. repeat split; lia.
  - simpl. unfold bind at 1.
    destruct (collectMedias p _ skip acc w) as [w1 [e|[skip1 acc1]]] eqn:Hm;
      [discriminate|].
    apply collectMedias_counts in Hm as (Hs1 & Hle1 & Hsum1 & Hoff1).
    simpl. intros Hrun. apply IH in Hrun as (Hs & Hle & Hsum & Hoff).
    split; [congruence|]. split; [lia|]. split; [lia|].
    intros Hskip. rewrite Hoff by (rewrite Hs1; exact Hskip).
    apply Hoff1. exact Hskip.
Qed.


Lemma existingEntries_app (st : DownloadSettings)
    (l1 l2 : list CreateDownloadTaskParams) :
  forall e : E,
    existingEntries st (l1 ++ l2) e
      = existingEntries st l1 e
        ++ existingEntries st l2 (afterFileChecks st l1 e) /\
    missingEntries st (l1 ++ l2) e
      = missingEntries st l1 e
        ++ missingEntries st l2 (afterFileChecks st l1 e) /\
    afterFileChecks st (l1 ++ l2) e
      = afterFileChecks st l2 (afterFileChecks st l1 e).
Proof.
  induction l1 as [|x l1 IH]; intros e; [auto|].
  simpl. destruct (IH (fileThere st x e).1) as (-> & -> & ->).
  destruct (fileThere st x e).2; auto.
Qed.

(** The inner loop, entry by entry: an entry is counted as skipped
    exactly when the file system says its file is there. *)
Lemma collectMedias_files (p : TwitterPost) (ms : list TwitterMedia) :
  forall (skip : Z) (acc : list CreateDownloadTaskParams) (w w' : World)
         (skip' : Z) (acc' : list CreateDownloadTaskParams),
  collectMedias p ms skip acc w = (w', inr (skip', acc')) ->
  let entries := List.map (fun m => {| p_post := p; p_media := m |}) ms in
  skip' = skip + Z.of_nat
                   (length (existingEntries (settings w) entries (env w))) /\
  acc' = acc ++ missingEntries (settings w) entries (env w) /\
  settings w' = settings w /\
  env w' = afterFileChecks (settings w) entries (env w).
Proof.
  induction ms as [|m ms IH]; intros skip acc w w' skip' acc'.
  - simpl. unfold ret. intros [= <- <- <-]. simpl.
    rewrite app_nil_r. repeat split; lia.
  - cbn [collectMedias List.map existingEntries missingEntries
         afterFileChecks].
    unfold fileThere. async_unfold.
    destruct (sameFileSkip (settings w)) eqn:Hskip.
    + unfold await. simpl.
      destruct (fsExists _ (env w)) as [e1 [reason|present]]; simpl;
        [discriminate|].
      destruct present; intros Hrun; apply IH in Hrun; simpl in Hrun;
        destruct Hrun as (-> & -> & -> & ->); simpl;
        rewrite <- ?app_assoc; simpl; repeat split;
        rewrite ?Nat2Z.inj_succ; lia.
    + unfold ret. intros Hrun. apply IH in Hrun. simpl in Hrun.
      destruct Hrun as (-> & -> & -> & ->). simpl.
      rewrite <- ?app_assoc. simpl. repeat split.
Qed.

Lemma collectPosts_files (f : DownloadFilter) (posts : list TwitterPost) :
  forall (skip : Z) (acc : list CreateDownloadTaskParams) (w w' : World)
         (skip' : Z) (acc' : list CreateDownloadTaskParams),
  collectPosts f posts skip acc w = (w', inr (skip', acc')) ->
  let entries := passingEntries f posts in
  skip' = skip + Z.of_nat
                   (length (existingEntries (settings w) entries (env w))) /\
  acc' = acc ++ missingEntries (settings w) entries (env w) /\
  settings w' = settings w /\
  env w' = afterFileChecks (settings w) entries (env w).
Proof.
  induction posts as [|p posts IH]; intros skip acc w w' skip' acc'.
  - simpl. unfold ret. intros [= <- <- <-]. simpl.
    rewrite app_nil_r. repeat split; lia.
  - cbn [collectPosts passingEntries flat_map]. unfold bind at 1.
    destruct (collectMedias p _ skip acc w) as [w1 [e|[skip1 acc1]]] eqn:Hm;
      [discriminate|].
    apply collectMedias_files in Hm. cbv zeta in Hm.
    destruct Hm as (Hs1 & Ha1 & Hset1 & Henv1).
    simpl. intros Hrun. apply IH in Hrun. cbv zeta in Hrun.
    destruct Hrun as (Hs & Ha & Hset & Henv).
    rewrite Hset1, Henv1 in Hs, Ha, Henv. rewrite Hset1 in Hset.
    fold (passingEntries f posts).
    destruct (existingEntries_app (settings w)
                (List.map (fun m => {| p_post := p; p_media := m |})
                   (List.filter (keepMedia f) (default [] (medias p))))
                (passingEntries f posts) (env w)) as (-> & -> & ->).
    rewrite length_app, Nat2Z.inj_add.
    subst skip1 acc1. rewrite <- app_assoc in Ha.
    repeat split; [lia|exact Ha|exact Hset|exact Henv].
Qed.

(** What a page does to the two counters, in terms of the answers of
    the file system. *)
Lemma runCreationTaskPage_files (w w' : World) (task : CreationTask)
    (signal : nat) (since until_ : Z) (l l' : LoopState) (pg : Page)
    (b : bool) :
  runCreationTaskPage task signal since until_ l pg w = (w', inr (l', b)) ->
  let posts := twitterPosts pg in
  let kept := List.filter (keepPost since until_) posts in
  let entries := passingEntries (filter task) kept in
  l_skipCount l' =
    l_skipCount l + (getMediaCounts posts - getMediaCounts kept)
    + Z.of_nat (length (existingEntries (settings w) entries (env w))) /\
  l_completeCount l' =
    l_completeCount l
    + Z.of_nat (length (missingEntries (settings w) entries (env w))).
Proof.
  intros Hrun posts kept. cbv zeta.
  unfold runCreationTaskPage in Hrun. cbv zeta in Hrun.
  fold posts in Hrun. fold kept in Hrun.
  destruct kept as [|k0 ks] eqn:Hkept.
  - async_unfold. injection Hrun as _ <- _. simpl. split; lia.
  - rewrite <- Hkept in *. clear Hkept.
    unfold bind at 1 in Hrun.
    destruct (collectPosts (filter task) kept _ [] w)
      as [w1 [e|[skip1 params]]] eqn:Hcollect; [discriminate|].
    apply collectPosts_files in Hcollect. cbv zeta in Hcollect.
    destruct Hcollect as (Hs & Ha & _ & _).
    cbv beta iota zeta in Hrun. cbn [app] in Ha.
    rewrite <- Ha, <- Hs.
    destruct params as [|p0 ps].
    + async_unfold. injection Hrun as _ <- _. simpl. split; lia.
    + simpl in Hrun. unfold bind at 1 in Hrun.
      destruct (batchCreateDownloadTask (p0 :: ps) w1) as [w2 [e|[]]];
        [discriminate|].
      async_unfold. injection Hrun as _ <- _. simpl. split; lia.
Qed.

(** The two counters of a page and the entries of its posts: what is
    not submitted of the type-passing entries of the kept posts is added
    to the skip counter together with the entries of the dropped posts,
    and the entries dropped by type are in neither counter. *)
Lemma runCreationTaskPage_counts (w w' : World) (task : CreationTask)
    (signal : nat) (since until_ : Z) (l l' : LoopState) (pg : Page)
    (b : bool) :
  runCreationTaskPage task signal since until_ l pg w = (w', inr (l', b)) ->
  let posts := twitterPosts pg in
  let kept := List.filter (keepPost since until_) posts in
  let dropped := List.filter (fun p => negb (keepPost since until_ p)) posts in
  let submitted := l_completeCount l' - l_completeCount l in
  0 <= submitted <= passingCount (filter task) kept /\
  l_skipCount l' =
    l_skipCount l + getMediaCounts dropped
    + (passingCount (filter task) kept - submitted) /\
  (sameFileSkip (settings w) = false ->
     l_skipCount l' = l_skipCount l + getMediaCounts dropped) /\
  l_skipCount l' + submitted + typeDroppedCount (filter task) kept
    = l_skipCount l + getMediaCounts posts.
Proof.
  intros Hrun posts kept dropped submitted.
  pose proof (getMediaCounts_split (keepPost since until_) posts) as Hsplit.
  pose proof (getMediaCounts_by_type (filter task) kept) as Htype.
  fold kept dropped in Hsplit.
  assert (0 <= typeDroppedCount (filter task) kept) as Hdrop0.
  { clear. induction kept as [|p ps IH]; simpl; lia. }
  unfold runCreationTaskPage in Hrun. cbv zeta in Hrun.
  fold posts in Hrun. fold kept in Hrun.
  destruct kept as [|k0 ks] eqn:Hkept.
  - async_unfold. injection Hrun as _ <- _. subst submitted. simpl in *.
    unfold getMediaCounts at 2 in Hsplit. simpl in Hsplit.
    repeat split; try lia.
  - rewrite <- Hkept in *. clear Hkept.
    unfold bind at 1 in Hrun.
    destruct (collectPosts (filter task) kept _ [] w)
      as [w1 [e|[skip1 params]]] eqn:Hcollect; [discriminate|].
    apply collectPosts_counts in Hcollect as (Hs & Hle & Hsum & Hoff).
    cbv beta iota zeta in Hrun. simpl length in Hsum.
    destruct params as [|p0 ps].
    + async_unfold. injection Hrun as _ <- _. subst submitted.
      simpl in *. repeat split; try lia.
      intros Hskip. specialize (Hoff Hskip). lia.
    + simpl in Hrun. unfold bind at 1 in Hrun.
      destruct (batchCreateDownloadTask (p0 :: ps) w1) as [w2 [e|[]]];
        [discriminate|].
      async_unfold. injection Hrun as _ <- _. subst submitted.
      simpl in *. repeat split; try lia.
      intros Hskip. specialize (Hoff Hskip). lia.
Qed.

(** C3, as amended.  For a page the runner gets through: with [kept]
    the posts that pass the date and malformed-item filter, [dropped]
    the others, and [submitted] what the page adds to the completion
    counter.  Every entry of a dropped post is added to the skip
    counter.  An entry of a kept post that the media-type filter drops
    (all of them when no type filter is configured) is added to neither
    counter.  Besides the entries of the dropped posts, the skip
    counter grows by one for each type-passing entry of a kept post
    whose file the file system reports to be there, asked entry by
    entry with [sameFileSkip] on, and by nothing else; the type-passing
    entries whose file is not there are the ones counted in the
    completion counter.  So with [sameFileSkip] off the skip counter
    grows by the entries of the dropped posts alone, and the entries of
    the page are those skipped, those submitted and those dropped by
    type. *)
Theorem runCreationTaskPage_skipCount (w w' : World) (task : CreationTask)
    (signal : nat) (since until_ : Z) (l l' : LoopState) (pg : Page)
    (b : bool) :
  runCreationTaskPage task signal since until_ l pg w = (w', inr (l', b)) ->
  let posts := twitterPosts pg in
  let kept := List.filter (keepPost since until_) posts in
  let dropped := List.filter (fun p => negb (keepPost since until_ p)) posts in
  let submitted := l_completeCount l' - l_completeCount l in
  let entries := passingEntries (filter task) kept in
  0 <= submitted <= passingCount (filter task) kept /\
  l_skipCount l' =
    l_skipCount l + getMediaCounts dropped
    + (passingCount (filter task) kept - submitted) /\
  (sameFileSkip (settings w) = false ->
     l_skipCount l' = l_skipCount l + getMediaCounts dropped) /\
  l_skipCount l' + submitted + typeDroppedCount (filter task) kept
    = l_skipCount l + getMediaCounts posts /\
  l_skipCount l' =
    l_skipCount l + getMediaCounts dropped
    + Z.of_nat (length (existingEntries (settings w) entries (env w))) /\
  submitted
    = Z.of_nat (length (missingEntries (settings w) entries (env w))).
Proof.
  intros Hrun posts kept dropped submitted entries.
  pose proof (runCreationTaskPage_counts w w' task signal since until_ l l'
                pg b Hrun) as (Hsub & Hskip & Hoff & Hsum).
  pose proof (runCreationTaskPage_files w w' task signal since until_ l l'
                pg b Hrun) as (Hthere & Hmissing).
  pose proof (getMediaCounts_split (keepPost since until_) posts) as Hsplit.
  fold kept dropped in Hsplit. fold posts kept in Hthere, Hmissing.
  fold entries in Hthere, Hmissing.
  split; [exact Hsub|]. split; [exact Hskip|]. split; [exact Hoff|].
  split; [exact Hsum|]. split.
  - rewrite Hthere. lia.
  - unfold submitted. rewrite Hmissing. lia.
Qed.


(** ** The scheduler: at most one active creation task *)

Lemma updateCreationTask_ids (t : CreationTask) (w : World) :
  List.map id (creationTasks (store (updateCreationTask t w)))
  = List.map id (creationTasks (store w)).
Proof.
  unfold updateCreationTask. simpl.
  induction (creationTasks (store w)) as [|x l IH]; [reflexivity|].
  simpl. rewrite IH. destruct (String.eqb_spec (id x) (id t)) as [Heq|_];
    [rewrite Heq|]; reflexivity.
Qed.

Lemma updateCreationTask_In (t x : CreationTask) (w : World) :
  In x (creationTasks (store (updateCreationTask t w))) ->
  x = t \/ In x (creationTasks (store w)).
Proof.
  unfold updateCreationTask. simpl. rewrite in_map_iff.
  intros (y & Hy & Hin). destruct (String.eqb (id y) (id t)); subst; auto.
Qed.

Lemma In_ids (x : CreationTask) (l : list CreationTask) :
  In x l -> In (id x) (List.map id l).
Proof. apply in_map. Qed.

(** With pairwise distinct identifiers, tasks that can only be active
    under one identifier leave room for one active task. *)
Lemma one_active (l : list CreationTask) (k : string) :
  NoDup (List.map id l) ->
  (forall x, In x l -> isActive x = true -> id x = k) ->
  (length (List.filter isActive l) <= 1)%nat.
Proof.
  induction l as [|x l IH]; simpl; [lia|].
  intros Hnd Hk. apply NoDup_cons in Hnd as [Hx Hnd].
  destruct (isActive x) eqn:Hact.
  - assert (List.filter isActive l = []) as ->; [|simpl; lia].
    apply filter_nil_iff. intros y Hy.
    destruct (isActive y) eqn:Hy'; [|reflexivity].
    exfalso. apply Hx.
    rewrite (Hk x (or_introl eq_refl) Hact), <- (Hk y (or_intror Hy) Hy').
    apply list_elem_of_In, In_ids, Hy.
  - apply IH; [exact Hnd|]. intros y Hy. apply Hk. right. exact Hy.
Qed.

Lemma no_active (l : list CreationTask) :
  (forall x, In x l -> isActive x = false) ->
  List.filter isActive l = [].
Proof. apply filter_nil_iff. Qed.

Lemma NoDup_ids_filter (p : CreationTask -> bool) (l : list CreationTask) :
  NoDup (List.map id l) -> NoDup (List.map id (List.filter p l)).
Proof.
  induction l as [|x l IH]; simpl; [auto|].
  intros Hnd. apply NoDup_cons in Hnd as [Hx Hnd].
  destruct (p x); simpl; [|auto].
  apply NoDup_cons_2; [|auto].
  intros Hin. apply Hx. apply list_elem_of_In in Hin. apply list_elem_of_In.
  apply in_map_iff in Hin as (y & Hy & Hin). apply filter_In in Hin as [Hin _].
  rewrite <- Hy. apply In_ids, Hin.
Qed.

Lemma schedulerCallbacks_request (w : World) :
  schedulerCallbacks (requestIdleCallback CbScheduleCreationTasks w)
  = S (schedulerCallbacks w).
Proof.
  unfold schedulerCallbacks, requestIdleCallback. simpl.
  rewrite List.filter_app, length_app. simpl. lia.
Qed.

Lemma schedulerCallbacks_taken (w : World) (pre post : list Callback) :
  idleCallbacks w = pre ++ CbScheduleCreationTasks :: post ->
  schedulerCallbacks w
  = S (schedulerCallbacks (withIdleCallbacks (pre ++ post) w)).
Proof.
  unfold schedulerCallbacks. intros ->. simpl.
  rewrite !List.filter_app, !length_app. simpl. lia.
Qed.


Lemma removeCreationTask_cases (i : string) (w : World) :
  (creationTaskAbortControllerMap w !! i = None
   /\ removeCreationTask i w = w)
  \/ (exists addr,
        creationTaskAbortControllerMap w !! i = Some addr /\
        creationTasks (store (removeCreationTask i w))
          = List.filter (fun v => negb (String.eqb (id v) i))
              (creationTasks (store w)) /\
        creationTaskAbortControllerMap (removeCreationTask i w)
          = delete i (creationTaskAbortControllerMap w) /\
        idleCallbacks (removeCreationTask i w) = idleCallbacks w).
Proof.
  unfold removeCreationTask.
  destruct (creationTaskAbortControllerMap w !! i) as [addr|]; [right|left].
  - exists addr. simpl. auto.
  - auto.
Qed.

Lemma invariant_create (u : TwitterUser) (f : DownloadFilter) (w : World)
    (rs : list (CreationTask * nat)) :
  nanoidFresh w ->
  Invariant (mkSystem w rs) ->
  Invariant (mkSystem (createCreationTask u f w) rs).
Proof.
  unfold nanoidFresh, createCreationTask. intros Hfresh [Hids Hctl Hone Hidle Hrun].
  simpl in *. destruct (nanoid (env w)) as [e' newId]. simpl in *.
  constructor; simpl.
  - rewrite map_app. apply NoDup_app. split; [exact Hids|]. split.
    + simpl. intros x Hx [<-|[]]%list_elem_of_In.
      apply Hfresh, list_elem_of_In, Hx.
    + apply NoDup_singleton.
  - intros t [Hin|[<-|[]]]%in_app_or; simpl.
    + destruct (String.eqb_spec newId (id t)) as [->|Hne].
      * rewrite lookup_insert_eq. eauto.
      * rewrite lookup_insert_ne by exact Hne. apply Hctl, Hin.
    + rewrite lookup_insert_eq. eauto.
  - exact Hone.
  - intros Hrs t [Hin|[<-|[]]]%in_app_or; [apply Hidle; assumption|reflexivity].
  - intros t a Hta x [Hin|[<-|[]]]%in_app_or; [apply (Hrun t a); assumption|].
    discriminate.
Qed.

Lemma invariant_remove (i : string) (w : World)
    (rs : list (CreationTask * nat)) :
  Invariant (mkSystem w rs) ->
  Invariant (mkSystem (removeCreationTask i w) rs).
Proof.
  intros Hinv.
  destruct (removeCreationTask_cases i w) as [[_ ->]|(addr & _ & Hl & Hm & Hcb)];
    [exact Hinv|].
  destruct Hinv as [Hids Hctl Hone Hidle Hrun]. simpl in *.
  constructor; simpl.
  - rewrite Hl. apply NoDup_ids_filter, Hids.
  - intros t. rewrite Hl, Hm. intros [Hin Hne]%filter_In.
    apply negb_true_iff, String.eqb_neq in Hne.
    rewrite lookup_delete_ne by congruence. apply Hctl, Hin.
  - unfold schedulerCallbacks in *. rewrite Hcb. exact Hone.
  - intros Hrs t. rewrite Hl. intros [Hin _]%filter_In. apply Hidle; assumption.
  - intros t a Hta x. rewrite Hl. intros [Hin _]%filter_In.
    apply (Hrun t a); assumption.
Qed.

Lemma invariant_publish (w : World) (rs : list (CreationTask * nat))
    (t : CreationTask) (a : nat) (c s : Z) :
  In (t, a) rs ->
  Invariant (mkSystem w rs) ->
  Invariant (mkSystem (updateCreationTask (withCounts c s t) w) rs).
Proof.
  intros Hta [Hids Hctl Hone Hidle Hrun]. simpl in *.
  assert (forall t' a', In (t', a') rs -> t' = t) as Hsame.
  { destruct rs as [|r0 [|r1 rs]]; simpl in *; [tauto| |lia].
    destruct Hta as [->|[]]. intros t' a' [[= <- <-]|[]]. reflexivity. }
  constructor; cbn [world pending].
  - rewrite updateCreationTask_ids. exact Hids.
  - intros x Hx. apply In_ids in Hx. rewrite updateCreationTask_ids in Hx.
    apply in_map_iff in Hx as (y & <- & Hy). apply Hctl, Hy.
  - exact Hone.
  - intros ->. destruct Hta.
  - intros t' a' Hta' x Hx Hact. rewrite (Hsame t' a' Hta').
    apply updateCreationTask_In in Hx as [->|Hx]; [reflexivity|].
    apply (Hrun t a); assumption.
Qed.

Lemma invariant_elsewhere (w w' : World) (rs : list (CreationTask * nat)) :
  sameQueue w w' ->
  Invariant (mkSystem w rs) ->
  Invariant (mkSystem w' rs).
Proof.
  intros (Hl & _ & Hm & Hcb) [Hids Hctl Hone Hidle Hrun]. simpl in *.
  constructor; simpl; unfold schedulerCallbacks in *;
    rewrite ?Hl, ?Hm, ?Hcb; assumption.
Qed.


Lemma removeCreationTask_idleCallbacks (i : string) (w : World) :
  idleCallbacks (removeCreationTask i w) = idleCallbacks w.
Proof.
  destruct (removeCreationTask_cases i w) as [[_ ->]|(_ & _ & _ & _ & H)];
    [reflexivity | exact H].
Qed.

Lemma invariant_reschedule (w : World) :
  Invariant (mkSystem w []) ->
  schedulerCallbacks w = O ->
  Invariant (mkSystem (requestIdleCallback CbScheduleCreationTasks w) []).
Proof.
  intros [Hids Hctl Hone Hidle Hrun] Hzero. simpl in *.
  constructor; cbn [world pending]; try assumption.
  rewrite schedulerCallbacks_request, Hzero. simpl. lia.
Qed.

Lemma invariant_begin (w : World) (rs : list (CreationTask * nat))
    (pre post : list Callback) :
  idleCallbacks w = pre ++ CbScheduleCreationTasks :: post ->
  Invariant (mkSystem w rs) ->
  Invariant
    (mkSystem
       (scheduleCreationTasksBegin (withIdleCallbacks (pre ++ post) w)).1
       (afterBegin rs
          (scheduleCreationTasksBegin (withIdleCallbacks (pre ++ post) w)).2)).
Proof.
  intros Hcb Hinv.
  pose proof (schedulerCallbacks_taken w pre post Hcb) as Htaken.
  set (w0 := withIdleCallbacks (pre ++ post) w) in *.
  assert (rs = [] /\ schedulerCallbacks w0 = O) as [-> Hzero].
  { destruct Hinv as [_ _ Hone _ _]. simpl in Hone.
    destruct rs; simpl in Hone; [split; [reflexivity|lia] | lia]. }
  assert (Invariant (mkSystem w0 [])) as Hinv0.
  { destruct Hinv as [Hids Hctl _ Hidle Hrun]. simpl in *.
    constructor; cbn [world pending]; try assumption.
    rewrite Hzero. simpl. lia. }
  clearbody w0. clear Hinv Htaken Hcb w pre post.
  unfold scheduleCreationTasksBegin.
  destruct (creationTasks (store w0)) as [|task l] eqn:Hl.
  { simpl. apply invariant_reschedule; assumption. }
  destruct (existsb isActive (task :: l)).
  { simpl. apply invariant_reschedule; assumption. }
  destruct (creationTaskAbortControllerMap w0 !! id task) as [addr|].
  2: { simpl. exact Hinv0. }
  destruct (signalAborted addr w0).
  { simpl. apply invariant_reschedule.
    - apply invariant_remove, Hinv0.
    - unfold schedulerCallbacks in *.
      rewrite removeCreationTask_idleCallbacks. exact Hzero. }
  destruct Hinv0 as [Hids Hctl _ Hidle _]. cbn [world pending] in *.
  cbn [fst snd afterBegin app]. constructor; cbn [world pending].
  - rewrite updateCreationTask_ids. exact Hids.
  - intros x Hx. apply In_ids in Hx. rewrite updateCreationTask_ids in Hx.
    apply in_map_iff in Hx as (y & <- & Hy). apply Hctl, Hy.
  - unfold schedulerCallbacks in *. simpl in *. rewrite Hzero. simpl. lia.
  - discriminate.
  - intros t a [[= <- <-]|[]] x Hx Hact.
    apply updateCreationTask_In in Hx as [->|Hx]; [reflexivity|].
    rewrite (Hidle eq_refl x Hx) in Hact.
    discriminate.
Qed.

Lemma invariant_end (w : World) (pre post : list (CreationTask * nat))
    (t : CreationTask) (a : nat) (failure : option JsError) :
  Invariant (mkSystem w (pre ++ (t, a) :: post)) ->
  Invariant (mkSystem (scheduleCreationTasksEnd t failure w) (pre ++ post)).
Proof.
  intros Hinv.
  assert (pre = [] /\ post = [] /\ schedulerCallbacks w = O)
    as (-> & -> & Hzero).
  { destruct Hinv as [_ _ Hone _ _]. simpl in Hone.
    rewrite length_app in Hone. simpl in Hone.
    destruct pre, post; simpl in Hone; try lia. repeat split; lia. }
  simpl app in *.
  pose proof (invariant_remove (id t) w _ Hinv) as Hrm.
  destruct Hinv as [_ Hctl _ _ Hrun'].
  pose proof (Hrun' t a (or_introl eq_refl)) as Hrun. clear Hrun'.
  destruct Hrm as [Hids' Hctl' _ _ _]. cbn [world pending] in *.
  assert (forall x,
            In x (creationTasks (store (removeCreationTask (id t) w))) ->
            isActive x = false) as Hnone.
  { intros x Hx. destruct (isActive x) eqn:Hact; [exfalso|reflexivity].
    destruct (removeCreationTask_cases (id t) w)
      as [[Hm Heq]|(addr & _ & Hl & _)].
    - rewrite Heq in Hx. destruct (Hctl x Hx) as [addr Haddr].
      rewrite (Hrun x Hx Hact), Hm in Haddr. discriminate.
    - rewrite Hl in Hx. apply filter_In in Hx as [Hx Hne].
      apply negb_true_iff, String.eqb_neq in Hne.
      apply Hne, Hrun; assumption. }
  assert (schedulerCallbacks (removeCreationTask (id t) w) = O) as Hzero'.
  { unfold schedulerCallbacks in *.
    rewrite removeCreationTask_idleCallbacks. exact Hzero. }
  unfold scheduleCreationTasksEnd.
  set (w1 := removeCreationTask (id t) w) in *. clearbody w1.
  constructor; cbn [world pending].
  - destruct failure; exact Hids'.
  - destruct failure; exact Hctl'.
  - rewrite schedulerCallbacks_request.
    destruct failure; unfold schedulerCallbacks in *; simpl in *;
      rewrite Hzero'; simpl; lia.
  - intros _. destruct failure; exact Hnone.
  - intros t' a' [].
Qed.

Lemma invariant_step (s s' : System E) :
  step s s' -> Invariant s -> Invariant s'.
Proof.
  intros Hstep Hinv. destruct Hstep.
  - apply invariant_create; assumption.
  - apply invariant_remove; assumption.
  - apply invariant_begin; assumption.
  - eapply invariant_publish; eassumption.
  - eapply invariant_end; eassumption.
  - eapply invariant_elsewhere; eassumption.
Qed.

Lemma invariant_reachable (s : System E) :
  reachable s -> Invariant s.
Proof.
  induction 1 as [w Hl Hcb|s s' _ IH Hstep].
  - unfold scheduleCreationTasksBegin. rewrite Hl. simpl.
    constructor; cbn [world pending]; simpl; rewrite ?Hl.
    + constructor.
    + intros t [].
    + unfold schedulerCallbacks. simpl. rewrite Hcb. simpl. lia.
    + intros _ t [].
    + intros t a [].
  - exact (invariant_step s s' Hstep IH).
Qed.

(** C7.  In every state reached from the loading of the module by
    user creations (with identifiers [nanoid] hands out fresh), user
    removals, runs of the scheduler, publications of the runner and
    whatever happens elsewhere, at most one creation task in the store is
    active.  And a run of the scheduler that marks a task active and
    hands it to the runner found no active task in the store. *)
Theorem scheduler_mutual_exclusion (s : System E) :
  reachable s ->
  (activeCount s <= 1)%nat /\
  (forall (w w' : World) t a,
     scheduleCreationTasksBegin w = (w', Running t a) ->
     existsb isActive (creationTasks (store w)) = false /\
     isActive t = true).
Proof.
  intros Hreach. split.
  - apply invariant_reachable in Hreach.
    destruct Hreach as [Hids _ Hone Hidle Hrun]. unfold activeCount.
    destruct (pending s) as [|[t a] rs] eqn:Hp.
    + rewrite no_active; [simpl; lia|]. apply Hidle. reflexivity.
    + apply (one_active _ (id t)); [exact Hids|].
      apply (Hrun t a). left. reflexivity.
  - clear. intros w w' t a. unfold scheduleCreationTasksBegin.
    destruct (creationTasks (store w)) as [|task l]; [discriminate|].
    destruct (existsb isActive (task :: l)); [discriminate|].
    destruct (creationTaskAbortControllerMap w !! id task); [|discriminate].
    destruct (signalAborted _ w); [discriminate|].
    intros [= _ <- _]. split; reflexivity.
Qed.


(** ** The runner as a sequence of steps

    The step relation lets the awaited runner publish counters and lets
    anything happen elsewhere.  What follows checks that this covers the
    runner as modelled: a run of [runCreationTask], whatever its fuel and
    however it ends, is a sequence of steps of the relation. *)

Lemma sameQueue_refl (w : World) : sameQueue w w.
Proof. repeat split. Qed.

Lemma sameQueue_trans (w1 w2 w3 : World) :
  sameQueue w1 w2 -> sameQueue w2 w3 -> sameQueue w1 w3.
Proof.
  intros (H1 & H2 & H3 & H4) (H1' & H2' & H3' & H4').
  repeat split; congruence.
Qed.

Lemma quiet_ret {A} (a : A) : quiet (E := E) (ret a).
Proof. intros w. apply sameQueue_refl. Qed.

Lemma quiet_throw {A} (e : JsError) : quiet (E := E) (A := A) (throw e).
Proof. intros w. apply sameQueue_refl. Qed.

Lemma quiet_bind {A B} (m : Async E A) (k : A -> Async E B) :
  quiet m -> (forall a, quiet (k a)) -> quiet (bind m k).
Proof.
  intros Hm Hk w. unfold bind. specialize (Hm w).
  destruct (m w) as [w1 [e|a]]; simpl in *; [exact Hm|].
  eapply sameQueue_trans; [exact Hm | apply Hk].
Qed.

Lemma quiet_await {A} (call : option RpcCall) (mkErr : string -> JsError)
    (op : E -> E * (string + A)) :
  quiet (await call mkErr op).
Proof.
  intros w. unfold await.
  destruct call; simpl; destruct (op (env w)); repeat split.
Qed.

Lemma quiet_detached {A} (call : RpcCall) (op : E -> E * (string + A)) :
  quiet (detached call op).
Proof. intros w. repeat split. Qed.

Lemma quiet_read {A} (f : World -> A) : quiet (fun w => ret (f w) w).
Proof. intros w. apply sameQueue_refl. Qed.

Lemma quiet_set_downloads (f : DownloadStore -> list DownloadTask) :
  quiet (E := E) (set (fun s => setDownloadTasks (f s) s)).
Proof. intros w. repeat split. Qed.

Lemma quiet_prepareDownloadTask (params : CreateDownloadTaskParams) :
  quiet (prepareDownloadTask params).
Proof. intros w. apply sameQueue_refl. Qed.

Lemma quiet_mapM {A B} (f : A -> Async E B) (l : list A) :
  (forall a, quiet (f a)) -> quiet (mapM f l).
Proof.
  intros Hf. induction l as [|x l IH]; simpl; [apply quiet_ret|].
  apply quiet_bind; [apply Hf|]. intros y.
  apply quiet_bind; [exact IH|]. intros ys. apply quiet_ret.
Qed.

Lemma quiet_batchCreateDownloadTask (l : list CreateDownloadTaskParams) :
  quiet (batchCreateDownloadTask l).
Proof.
  unfold batchCreateDownloadTask.
  apply quiet_bind; [apply quiet_mapM, quiet_prepareDownloadTask|].
  intros [|t ts]; [apply quiet_ret|].
  apply quiet_bind; [apply quiet_await|]. intros gids.
  apply quiet_bind; [apply quiet_await|]. intros m.
  destruct (assignHandles (t :: ts) gids m);
    [apply quiet_throw | apply quiet_set_downloads].
Qed.

Lemma quiet_collectMedias (p : TwitterPost) (ms : list TwitterMedia) :
  forall skip acc, quiet (collectMedias p ms skip acc).
Proof.
  induction ms as [|m ms IH]; intros skip acc; simpl; [apply quiet_ret|].
  apply quiet_bind; [apply quiet_prepareDownloadTask|]. intros task.
  apply quiet_bind; [apply (quiet_read settings)|]. intros st.
  apply quiet_bind.
  - destruct (sameFileSkip st); [apply quiet_await | apply quiet_ret].
  - intros []; apply IH.
Qed.

Lemma quiet_collectPosts (f : DownloadFilter) (posts : list TwitterPost) :
  forall skip acc, quiet (collectPosts f posts skip acc).
Proof.
  induction posts as [|p posts IH]; intros skip acc; simpl;
    [apply quiet_ret|].
  apply quiet_bind; [apply quiet_collectMedias|]. intros r. apply IH.
Qed.

(** The download side of the store never touches the queue: each of its
    operations is one of the steps taken elsewhere. *)

Lemma quiet_get : quiet (E := E) get.
Proof. intros w. apply sameQueue_refl. Qed.

Lemma quiet_now : quiet (E := E) now.
Proof. intros w. apply sameQueue_refl. Qed.

Lemma quiet_set_tasks (l : list DownloadTask) :
  quiet (E := E) (set (setDownloadTasks l)).
Proof. intros w. repeat split. Qed.

Lemma quiet_set_tasks_ids (l : list DownloadTask) (tracked : list string) :
  quiet (E := E) (set (setDownloadTasksAndIds l tracked)).
Proof. intros w. repeat split. Qed.

Lemma quiet_notify (n : Notification) : quiet (E := E) (effect (notify n)).
Proof. intros w. repeat split. Qed.

Lemma quiet_setTimeout (cb : Callback) (ms : Z) :
  quiet (E := E) (effect (setTimeout cb ms)).
Proof. intros w. repeat split. Qed.

Lemma quiet_mergeAriaStatusToDownloadTask (st : AriaStatusReply)
    (t : DownloadTask) (now_ : option Z) :
  quiet (mergeAriaStatusToDownloadTask st t now_).
Proof.
  unfold mergeAriaStatusToDownloadTask. apply quiet_bind.
  - destruct now_; [apply quiet_ret | apply quiet_now].
  - intros stamp. destruct (files st); [apply quiet_throw | apply quiet_ret].
Qed.

Lemma quiet_createDownloadTask (params : CreateDownloadTaskParams) :
  quiet (createDownloadTask params).
Proof.
  unfold createDownloadTask.
  apply quiet_bind; [apply quiet_prepareDownloadTask|]. intros task.
  apply quiet_bind; [apply quiet_await|]. intros g.
  apply quiet_bind; [apply quiet_await|]. intros st.
  apply (quiet_set_downloads
           (fun s => downloadTasks s
                       ++ [withStatus (r_status st) (withGid g task)])).
Qed.

Lemma quiet_updateDownloadTask (task : DownloadTask) (now_ : option Z) :
  quiet (updateDownloadTask task now_).
Proof.
  unfold updateDownloadTask. apply quiet_bind.
  - destruct now_; [apply quiet_ret | apply quiet_now].
  - intros stamp. apply quiet_bind; [apply quiet_get|]. intros s.
    destruct (findIndex _ (downloadTasks s)) as [i|]; [|apply quiet_ret].
    destruct (downloadTasks s !! i) as [old|]; [|apply quiet_throw].
    destruct (updatedAt old >? stamp);
      [apply quiet_ret | apply quiet_set_tasks].
Qed.

Lemma quiet_batchUpdateDownloadTasks (tasks : list DownloadTask) :
  quiet (E := E) (batchUpdateDownloadTasks tasks).
Proof.
  unfold batchUpdateDownloadTasks.
  apply quiet_bind; [apply quiet_get|]. intros s. apply quiet_set_tasks.
Qed.

Lemma quiet_removeDownloadTask (g : string) : quiet (removeDownloadTask g).
Proof.
  unfold removeDownloadTask.
  apply quiet_bind; [apply quiet_detached|]. intros _.
  apply quiet_bind; [apply quiet_get|]. intros s. apply quiet_set_tasks_ids.
Qed.

Lemma quiet_batchRemoveDownloadTasks (gids : list string) :
  quiet (batchRemoveDownloadTasks gids).
Proof.
  unfold batchRemoveDownloadTasks.
  apply quiet_bind; [apply quiet_detached|]. intros _.
  apply (quiet_set_downloads
           (fun s => List.filter (fun v => negb (includes gids (gid v)))
                       (downloadTasks s))).
Qed.

Lemma quiet_redownloadTask (g : string) : quiet (redownloadTask g).
Proof.
  unfold redownloadTask. apply quiet_bind; [apply quiet_get|]. intros s.
  destruct (List.find _ (downloadTasks s)) as [old|]; [|apply quiet_throw].
  apply quiet_bind; [apply quiet_removeDownloadTask|]. intros _.
  apply quiet_createDownloadTask.
Qed.

Lemma quiet_batchRedownloadTask (gids : list string) :
  quiet (batchRedownloadTask gids).
Proof.
  unfold batchRedownloadTask. apply quiet_bind; [apply quiet_get|]. intros s.
  destruct (List.filter _ (downloadTasks s)) as [|t ts];
    [apply quiet_throw|].
  apply quiet_bind; [apply quiet_batchRemoveDownloadTasks|]. intros _.
  apply quiet_batchCreateDownloadTask.
Qed.

Lemma quiet_syncDownloadTaskStatus (g : string) :
  quiet (syncDownloadTaskStatus g).
Proof.
  unfold syncDownloadTaskStatus. apply quiet_bind; [apply quiet_get|].
  intros s.
  destruct (findIndex _ (downloadTasks s)) as [i|]; [|apply quiet_ret].
  destruct (downloadTasks s !! i) as [task|]; [|apply quiet_throw].
  apply quiet_bind; [apply quiet_now|]. intros now_.
  apply quiet_bind; [apply quiet_await|]. intros st.
  destruct (AriaStatus_eqb (r_status st) Error).
  - destruct (ariaRetryCountRemains task >? 0).
    + apply quiet_bind; [apply quiet_removeDownloadTask|]. intros _.
      apply quiet_bind; [apply quiet_prepareDownloadTask|]. intros newTask.
      apply quiet_bind; [apply quiet_await|]. intros g'.
      apply quiet_bind; [apply quiet_await|]. intros st'.
      apply (quiet_set_downloads
               (fun s' => downloadTasks s'
                  ++ [withStatus (r_status st')
                        (withGid g'
                           (withRetryCount (ariaRetryCountRemains task - 1)
                              newTask))])).
    + apply quiet_bind; [apply quiet_mergeAriaStatusToDownloadTask|].
      intros newTask. apply quiet_bind; [apply quiet_notify|]. intros _.
      apply quiet_notify.
  - apply quiet_bind; [apply quiet_mergeAriaStatusToDownloadTask|].
    intros newTask. apply quiet_updateDownloadTask.
Qed.

Lemma quiet_scheduleAutoSyncTasks : quiet scheduleAutoSyncTasks.
Proof.
  unfold scheduleAutoSyncTasks. apply quiet_bind; [apply quiet_get|].
  intros s. destruct (autoSyncTaskIds s) as [|x ids_];
    [apply quiet_setTimeout|].
  apply quiet_bind; [apply quiet_now|]. intros now_.
  apply quiet_bind; [apply quiet_await|]. intros resultMap.
  apply quiet_bind; [apply quiet_get|]. intros s'.
  apply quiet_bind.
  - apply quiet_mapM. intros oldTask.
    destruct (updatedAt oldTask >? now_); [apply quiet_ret|].
    destruct (resultMap !! gid oldTask);
      [apply quiet_mergeAriaStatusToDownloadTask | apply quiet_ret].
  - intros newTasks.
    apply quiet_bind; [apply quiet_batchUpdateDownloadTasks|]. intros _.
    apply quiet_setTimeout.
Qed.


Lemma steps_quiet {A} (m : Async E A) (w : World)
    (rs : list (CreationTask * nat)) :
  quiet m -> steps (mkSystem w rs) (mkSystem (m w).1 rs).
Proof. intros Hm. apply rtc_once, step_elsewhere, Hm. Qed.

Lemma stepwise_quiet {A} rs (m : Async E A) : quiet m -> stepwise rs m.
Proof. intros Hm w. apply steps_quiet, Hm. Qed.

Lemma stepwise_bind {A B} rs (m : Async E A) (k : A -> Async E B) :
  stepwise rs m -> (forall a, stepwise rs (k a)) -> stepwise rs (bind m k).
Proof.
  intros Hm Hk w. unfold bind. specialize (Hm w).
  destruct (m w) as [w1 [e|a]]; simpl in *; [exact Hm|].
  eapply rtc_trans; [exact Hm | apply Hk].
Qed.

Lemma stepwise_publish rs (t : CreationTask) (a : nat) (c s : Z) :
  In (t, a) rs ->
  stepwise rs (effect (updateCreationTask (withCounts c s t))).
Proof. intros Hin w. apply rtc_once, (step_runner_publish w rs t a c s Hin). Qed.

Lemma runCreationTaskPage_steps rs (task : CreationTask) (signal : nat)
    (since until_ : Z) (l : LoopState) (pg : Page) :
  In (task, signal) rs ->
  stepwise rs (runCreationTaskPage task signal since until_ l pg).
Proof.
  intros Hin. unfold runCreationTaskPage. cbv zeta.
  destruct (List.filter (keepPost since until_) (twitterPosts pg))
    as [|k0 ks].
  - apply stepwise_bind; [eapply stepwise_publish, Hin|].
    intros _. apply stepwise_quiet, quiet_ret.
  - apply stepwise_bind; [apply stepwise_quiet, quiet_collectPosts|].
    intros [skip [|p0 ps]]; cbn [fst snd].
    + apply stepwise_bind; [eapply stepwise_publish, Hin|].
      intros _. apply stepwise_quiet, quiet_ret.
    + apply stepwise_bind;
        [apply stepwise_quiet, quiet_batchCreateDownloadTask|].
      intros _. apply stepwise_bind; [eapply stepwise_publish, Hin|].
      intros _. apply stepwise_bind;
        [apply stepwise_quiet, (quiet_read (signalAborted signal))|].
      intros aborted. apply stepwise_quiet, quiet_ret.
Qed.

Lemma runCreationTaskLoop_steps rs (task : CreationTask) (signal : nat)
    (since until_ : Z) (fuel : nat) :
  In (task, signal) rs ->
  forall l, stepwise rs (runCreationTaskLoop fuel task signal since until_ l).
Proof.
  intros Hin. induction fuel as [|fuel IH]; intros l; simpl;
    [apply stepwise_quiet, quiet_ret|].
  destruct (negb _ && _); [|apply stepwise_quiet, quiet_ret].
  apply stepwise_bind;
    [apply stepwise_quiet, (quiet_read (signalAborted signal))|].
  intros [|]; [apply stepwise_quiet, quiet_ret|].
  apply stepwise_bind; [apply stepwise_quiet, quiet_await|]. intros pg.
  apply stepwise_bind;
    [apply stepwise_quiet, (quiet_read (signalAborted signal))|].
  intros [|]; [apply stepwise_quiet, quiet_ret|].
  apply stepwise_bind; [apply runCreationTaskPage_steps, Hin|].
  intros [l' [|]]; cbn [fst snd]; [apply stepwise_quiet, quiet_ret | apply IH].
Qed.

(** A whole run of the scheduler on a started task: the runner, with
    whatever fuel, then the rest of the scheduler's run. *)
Lemma scheduler_run_steps (w : World) (task : CreationTask) (signal : nat)
    (fuel : nat) :
  let r := runCreationTask fuel task signal w in
  steps (mkSystem w [(task, signal)])
    (mkSystem
       (scheduleCreationTasksEnd task
          match r.2 with inl e => Some e | inr _ => None end r.1)
       []).
Proof.
  intros r. apply rtc_r with (mkSystem r.1 [(task, signal)]).
  - assert (stepwise [(task, signal)] (runCreationTask fuel task signal))
      as Hrun; [|apply Hrun].
    unfold runCreationTask.
    apply stepwise_bind;
      [apply stepwise_quiet, (quiet_read (fun w => dateNow (env w)))|].
    intros now_. cbv zeta. apply runCreationTaskLoop_steps. left. reflexivity.
  - apply (step_scheduler_end r.1 [] [] task signal).
Qed.

(** * Further properties of the download side *)

(** ** Removal *)

(** X1.  [removeDownloadTask] returns normally whatever the daemon
    answers to the cancellation; afterwards no stored record and no
    auto-sync entry carries the handle; removing the handle again leaves
    the store as the first removal left it; and removing a handle the
    store does not know leaves the store as it was. *)
Theorem removeDownloadTask_idempotent (w : World) (g : string) :
  let r := removeDownloadTask g w in
  r.2 = inr tt /\
  (forall t, In t (downloadTasks (store r.1)) -> gid t <> g) /\
  ~ In g (autoSyncTaskIds (store r.1)) /\
  store (removeDownloadTask g r.1).1 = store r.1 /\
  ((forall t, In t (downloadTasks (store w)) -> gid t <> g) ->
   ~ In g (autoSyncTaskIds (store w)) ->
   store r.1 = store w).
Proof.
  intros r.
  assert (forall (l : list DownloadTask),
            (forall t, In t l -> gid t <> g) ->
            List.filter (fun v => negb (String.eqb (gid v) g)) l = l)
    as Hkeep.
  { induction l as [|x l IH]; intros Hl; [reflexivity|]. simpl.
    destruct (String.eqb_spec (gid x) g) as [Heq|_].
    - destruct (Hl x (or_introl eq_refl) Heq).
    - simpl. f_equal. apply IH. intros t Ht. apply Hl. right. exact Ht. }
  assert (forall (l : list string),
            ~ In g l ->
            List.filter (fun v => negb (String.eqb v g)) l = l)
    as Hkeep'.
  { induction l as [|x l IH]; intros Hl; [reflexivity|]. simpl.
    destruct (String.eqb_spec x g) as [Heq|_].
    - destruct (Hl (or_introl Heq)).
    - simpl. f_equal. apply IH. intros Hin. apply Hl. right. exact Hin. }
  destruct (removeDownloadTask_run w g) as (w1 & Hrun & Hs & _).
  destruct (removeDownloadTask_run w1 g) as (w2 & Hrun2 & Hs2 & _).
  subst r. rewrite Hrun. cbn [fst snd]. rewrite Hrun2. cbn [fst snd].
  assert (forall t, In t (downloadTasks (store w1)) -> gid t <> g) as Hgone.
  { rewrite Hs. simpl. intros t [_ Hne]%filter_In.
    apply negb_true_iff, String.eqb_neq in Hne. exact Hne. }
  assert (~ In g (autoSyncTaskIds (store w1))) as Hgone'.
  { rewrite Hs. simpl. intros [_ Hne]%filter_In.
    apply negb_true_iff, String.eqb_neq in Hne. exact (Hne eq_refl). }
  split; [reflexivity|]. split; [exact Hgone|]. split; [exact Hgone'|].
  split.
  - rewrite Hs2, (Hkeep _ Hgone), (Hkeep' _ Hgone').
    destruct (store w1); reflexivity.
  - intros Hno Hno'. rewrite Hs, (Hkeep _ Hno), (Hkeep' _ Hno').
    destruct (store w); reflexivity.
Qed.

(** ** On-demand sync: the paths that do not retry *)

(** X2.  Asked to sync a handle no stored record carries,
    [syncDownloadTaskStatus] returns at once: the daemon is not called
    and nothing changes.  When the record is there and the daemon
    rejects the status query, the rejection is thrown to the caller, the
    store is untouched and no notification is raised. *)
Theorem syncDownloadTaskStatus_edges (w : World) (g : string) :
  ((forall t, In t (downloadTasks (store w)) -> gid t <> g) ->
   syncDownloadTaskStatus g w = (w, inr tt)) /\
  (forall t e1 reason,
     In t (downloadTasks (store w)) -> gid t = g ->
     tellStatus g (env w) = (e1, inl reason) ->
     let r := syncDownloadTaskStatus g w in
     r.2 = inl (Aria2Rejected reason) /\
     store r.1 = store w /\
     notifications r.1 = notifications w /\
     rpcs r.1 = rpcs w ++ [TellStatus g]).
Proof.
  split.
  - intros Hno. apply find_gid_None in Hno. apply findIndex_None in Hno.
    unfold syncDownloadTaskStatus. async_unfold. rewrite Hno. reflexivity.
  - intros t e1 reason Hin Hg Htell.
    unfold syncDownloadTaskStatus. async_unfold.
    destruct (findIndex _ (downloadTasks (store w))) as [i|] eqn:Hi.
    + destruct (findIndex_Some _ _ _ Hi) as (x & Hx & _). rewrite Hx.
      simpl. rewrite Htell. simpl. auto.
    + exfalso. apply findIndex_None in Hi.
      exact (proj1 (find_gid_None _ _) Hi t Hin Hg).
Qed.

(** X3.  The merge of an on-demand sync.  The stored record under the
    handle is [task], the daemon answers the query with a status other
    than [Error], for that handle, and lists a file.  When [task] was
    updated after the time read before the query, nothing is stored;
    otherwise [task] is replaced by the merged record: handle, status,
    byte counts, file name, error text and directory are the daemon's;
    post, media, URL and retry counter are kept; and the stamp is the
    time read after the query, not the one the guard compared.  One
    status query is made and no notification is raised. *)
Theorem syncDownloadTaskStatus_merge (w : World) (g : string) (i : nat)
    (task : DownloadTask) (e1 : E) (st : AriaStatusReply) (f0 : AriaFile)
    (fs : list AriaFile) :
  findIndex (fun v => String.eqb (gid v) g) (downloadTasks (store w))
    = Some i ->
  downloadTasks (store w) !! i = Some task ->
  tellStatus g (env w) = (e1, inr st) ->
  r_status st <> Error ->
  r_gid st = g ->
  files st = f0 :: fs ->
  let r := syncDownloadTaskStatus g w in
  r.2 = inr tt /\
  downloadTasks (store r.1) =
    (if updatedAt task >? dateNow (env w) then downloadTasks (store w)
     else <[i := mergedRecord st f0 task (dateNow e1)]>
            (downloadTasks (store w))) /\
  autoSyncTaskIds (store r.1) = autoSyncTaskIds (store w) /\
  rpcs r.1 = rpcs w ++ [TellStatus g] /\
  notifications r.1 = notifications w.
Proof.
  intros Hi Htask Htell Hst Hg Hfiles.
  unfold syncDownloadTaskStatus, mergeAriaStatusToDownloadTask,
    updateDownloadTask.
  async_unfold. rewrite Hi, Htask. simpl. rewrite Htell. simpl.
  assert (AriaStatus_eqb (r_status st) Error = false) as ->.
  { destruct (r_status st); try reflexivity. destruct (Hst eq_refl). }
  rewrite Hfiles. simpl. rewrite Hg, Hi, Htask.
  destruct (updatedAt task >? dateNow (env w)); simpl;
    unfold mergedRecord; rewrite ?Hg; auto.
Qed.


(** ** Batched creation *)

Lemma assignHandles_inr (tasks : list DownloadTask) :
  forall (gids : list string) (m : gmap string AriaStatusReply)
         (tasks' : list DownloadTask),
  assignHandles tasks gids m = inr tasks' ->
  length tasks' = length tasks /\
  forall i task, tasks !! i = Some task ->
    exists g st,
      gids !! i = Some g /\ m !! g = Some st /\
      tasks' !! i = Some (withStatus (r_status st) (withGid g task)).
Proof.
  induction tasks as [|t tasks IH]; intros gids m tasks'.
  - unfold assignHandles. intros [= <-]. split; [reflexivity|].
    intros i task Hi. discriminate.
  - unfold assignHandles; fold assignHandles.
    destruct gids as [|g gids]; [discriminate|].
    destruct (m !! g) as [st|] eqn:Hg; [|discriminate].
    destruct (assignHandles tasks gids m) as [e|rest] eqn:Hrec;
      [discriminate|].
    intros [= <-]. destruct (IH _ _ _ Hrec) as [Hlen Hnth].
    split; [simpl; congruence|].
    intros [|i] task Hi; simpl in Hi.
    + injection Hi as <-. exists g, st. auto.
    + apply Hnth. exact Hi.
Qed.

Lemma batchCreateDownloadTask_shape (w : World)
    (l : list CreateDownloadTaskParams) :
  let r := batchCreateDownloadTask l w in
  (exists e, r.2 = inl e /\ store r.1 = store w) \/
  (r.2 = inr tt /\
   exists added,
     downloadTasks (store r.1) = downloadTasks (store w) ++ added /\
     length added = length l /\
     autoSyncTaskIds (store r.1) = autoSyncTaskIds (store w)).
Proof.
  intros r. subst r. unfold batchCreateDownloadTask. unfold bind.
  rewrite mapM_prepareDownloadTask.
  destruct (List.map _ l) as [|t ts] eqn:Hmap.
  { right. split; [reflexivity|]. exists []. rewrite app_nil_r.
    destruct l; [auto | discriminate]. }
  async_unfold.
  destruct (batchAddUri _ (env w)) as [e1 [reason|gids]]; simpl;
    [left; eauto|].
  destruct (tellStatusMany gids e1) as [e2 [reason|m]]; simpl;
    [left; eauto|].
  destruct (assignHandles (t :: ts) gids m) as [err|ts'] eqn:Ha; simpl;
    [left; eauto|].
  right. split; [reflexivity|]. exists ts'.
  apply assignHandles_inr in Ha as [Hlen _].
  rewrite Hlen, <- Hmap, length_map. auto.
Qed.

(** X4.  [batchCreateDownloadTask] stores all of its records or none.
    With nothing to create it returns at once, the daemon not called.
    When it throws, for whatever reason (the batched submission or the
    batched status query rejected, a handle or a status missing from the
    answers), the store is the one it started with.  When it returns,
    the stored records are the former ones followed by one record per
    input, and the auto-sync set is as it was. *)
Theorem batchCreateDownloadTask_all_or_nothing (w : World)
    (l : list CreateDownloadTaskParams) :
  let r := batchCreateDownloadTask l w in
  (l = [] -> r = (w, inr tt)) /\
  (forall e, r.2 = inl e -> store r.1 = store w) /\
  (r.2 = inr tt ->
   exists added,
     downloadTasks (store r.1) = downloadTasks (store w) ++ added /\
     length added = length l /\
     autoSyncTaskIds (store r.1) = autoSyncTaskIds (store w)).
Proof.
  intros r. split; [intros ->; reflexivity|].
  destruct (batchCreateDownloadTask_shape w l)
    as [(e & He & Hs)|(Hr & Hadded)]; fold r in He, Hs || fold r in Hr, Hadded.
  - split; [intros _ _; exact Hs|]. rewrite He. discriminate.
  - split; [rewrite Hr; discriminate|]. intros _. exact Hadded.
Qed.

Lemma batchCreateDownloadTask_nonempty (w : World)
    (l : list CreateDownloadTaskParams) :
  l <> [] ->
  batchCreateDownloadTask l w =
    (let prepared :=
       List.map (preparedTask (settings w) (dateNow (env w))) l in
     let jobs :=
       List.map (fun t => (downloadUrl t, dir t, fileName t)) prepared in
     bind (await (Some (BatchAddUri jobs)) Aria2Rejected (batchAddUri jobs))
       (fun gids =>
          bind (await (Some (TellStatusMany gids)) Aria2Rejected
                  (tellStatusMany gids))
            (fun statusMap =>
               match assignHandles prepared gids statusMap with
               | inl e => throw e
               | inr tasks' =>
                   set (fun s =>
                          setDownloadTasks (downloadTasks s ++ tasks') s)
               end)) w).
Proof.
  intros Hl. unfold batchCreateDownloadTask. unfold bind at 1.
  rewrite mapM_prepareDownloadTask.
  destruct l as [|p0 l0]; [destruct (Hl eq_refl)|]. reflexivity.
Qed.

(** X5.  A batched creation that returns made two calls to the daemon,
    one batched submission of all the jobs in input order and one
    batched status query for the handles it got; and the record stored
    for the input at position [i] carries the handle at position [i] of
    the daemon's answer and the status the daemon gave for that handle. *)
Theorem batchCreateDownloadTask_order (w : World)
    (l : list CreateDownloadTaskParams) (e1 e2 : E) (gids : list string)
    (m : gmap string AriaStatusReply) :
  let prepared := List.map (preparedTask (settings w) (dateNow (env w))) l in
  let jobs :=
    List.map (fun t => (downloadUrl t, dir t, fileName t)) prepared in
  l <> [] ->
  batchAddUri jobs (env w) = (e1, inr gids) ->
  tellStatusMany gids e1 = (e2, inr m) ->
  let r := batchCreateDownloadTask l w in
  r.2 = inr tt ->
  rpcs r.1 = rpcs w ++ [BatchAddUri jobs; TellStatusMany gids] /\
  forall i params, l !! i = Some params ->
    exists g st,
      gids !! i = Some g /\ m !! g = Some st /\
      downloadTasks (store r.1) !! (length (downloadTasks (store w)) + i)%nat
        = Some (withStatus (r_status st)
                  (withGid g
                     (preparedTask (settings w) (dateNow (env w)) params))).
Proof.
  intros prepared jobs Hl Hadd Htell r. subst r.
  rewrite (batchCreateDownloadTask_nonempty w l Hl). fold prepared.
  subst jobs.
  unfold bind, await, set, effect. cbn [logRpc withEnv env rpcs].
  rewrite Hadd. cbn [logRpc withEnv env rpcs]. rewrite Htell.
  destruct (assignHandles prepared gids m) as [err|ts'] eqn:Ha;
    [discriminate|].
  simpl. intros _. split; [rewrite <- app_assoc; reflexivity|].
  intros i params Hi. apply assignHandles_inr in Ha as [Hlen Hnth].
  destruct (Hnth i (preparedTask (settings w) (dateNow (env w)) params))
    as (g & st & Hg & Hst & Hts).
  { subst prepared. change (List.map ?f ?x) with (f <$> x).
    rewrite list_lookup_fmap, Hi. reflexivity. }
  exists g, st. split; [exact Hg|]. split; [exact Hst|].
  rewrite lookup_app_r by lia.
  replace (length (downloadTasks (store w)) + i
             - length (downloadTasks (store w)))%nat with i by lia.
  exact Hts.
Qed.


(** ** The retry budget *)

Lemma countAddUri_app (l l' : list RpcCall) :
  countAddUri (l ++ l') = countAddUri l + countAddUri l'.
Proof.
  unfold countAddUri. rewrite List.filter_app, length_app. lia.
Qed.

Lemma countAddUri_one (c : RpcCall) :
  countAddUri [c] = if isAddUri c then 1 else 0.
Proof. destruct c; reflexivity. Qed.

Ltac count_calls :=
  rewrite ?countAddUri_app, ?countAddUri_one; cbn [isAddUri].

Lemma retryBudget_app (l l' : list DownloadTask) :
  retryBudget (l ++ l') = retryBudget l + retryBudget l'.
Proof. induction l as [|x l IH]; simpl; [|rewrite IH]; lia. Qed.

Lemma retryBudget_nonneg (l : list DownloadTask) :
  (forall t, In t l -> 0 <= ariaRetryCountRemains t) -> 0 <= retryBudget l.
Proof.
  induction l as [|x l IH]; simpl; intros Hl; [lia|].
  pose proof (Hl x (or_introl eq_refl)).
  assert (0 <= retryBudget l) by (apply IH; intros t Ht; apply Hl; auto).
  lia.
Qed.

(** Dropping the records of a handle gives back at least the retries of
    any one of them. *)
Lemma retryBudget_filter (l : list DownloadTask) (g : string)
    (task : DownloadTask) :
  (forall t, In t l -> 0 <= ariaRetryCountRemains t) ->
  In task l -> gid task = g ->
  retryBudget (List.filter (fun v => negb (String.eqb (gid v) g)) l)
    + ariaRetryCountRemains task <= retryBudget l.
Proof.
  induction l as [|x l IH]; simpl; intros Hl Hin Hg; [destruct Hin|].
  assert (forall t, In t l -> 0 <= ariaRetryCountRemains t) as Hl'
    by (intros t Ht; apply Hl; auto).
  assert (0 <= retryBudget
                 (List.filter (fun v => negb (String.eqb (gid v) g)) l)
          <= retryBudget l) as Hmono.
  { clear IH Hin. split.
    - apply retryBudget_nonneg. intros t [Ht _]%filter_In. auto.
    - induction l as [|y l IHl]; simpl; [lia|].
      pose proof (Hl' y (or_introl eq_refl)).
      assert (forall t, In t l -> 0 <= ariaRetryCountRemains t)
        by (intros t Ht; apply Hl'; right; exact Ht).
      assert (forall t, In t (x :: l) -> 0 <= ariaRetryCountRemains t)
        by (intros t [<-|Ht]; [apply Hl; left; reflexivity | auto]).
      destruct (negb (String.eqb (gid y) g)); simpl;
        specialize (IHl ltac:(assumption) ltac:(assumption)); lia. }
  pose proof (Hl x (or_introl eq_refl)) as Hx.
  destruct Hin as [->|Hin].
  - rewrite Hg, String.eqb_refl. simpl. lia.
  - specialize (IH Hl' Hin Hg).
    destruct (negb (String.eqb (gid x) g)); simpl; lia.
Qed.

Lemma In_insert {A} (l : list A) (i : nat) (x y : A) :
  In y (<[i := x]> l) -> y = x \/ In y l.
Proof.
  revert i. induction l as [|a l IH]; intros [|i]; simpl; try tauto.
  - intros [<-|Hin]; auto.
  - intros [<-|Hin]; [auto|]. destruct (IH i Hin); auto.
Qed.

(** X6.  One on-demand sync submits at most one job to the daemon, and
    every such resubmission is paid for with a retry: provided no
    stored counter is negative, a sync that called [addUri] leaves the
    store with at least one retry less in total, whether the
    resubmission then succeeded or not; and no counter becomes
    negative. *)
Theorem syncDownloadTaskStatus_retry_budget (w : World) (g : string) :
  (forall t, In t (downloadTasks (store w)) ->
     0 <= ariaRetryCountRemains t) ->
  let r := syncDownloadTaskStatus g w in
  let submitted := countAddUri (rpcs r.1) - countAddUri (rpcs w) in
  (submitted = 0 \/ submitted = 1) /\
  (submitted = 1 ->
     retryBudget (downloadTasks (store r.1)) + 1
       <= retryBudget (downloadTasks (store w))) /\
  (forall t, In t (downloadTasks (store r.1)) ->
     0 <= ariaRetryCountRemains t).
Proof.
  intros Hpos r submitted. subst submitted r.
  unfold syncDownloadTaskStatus, mergeAriaStatusToDownloadTask,
    updateDownloadTask, removeDownloadTask.
  async_unfold.
  destruct (findIndex _ (downloadTasks (store w))) as [i|] eqn:Hi; simpl.
  2: { split; [left; lia|]. split; [lia | exact Hpos]. }
  destruct (findIndex_Some _ _ _ Hi) as (task & Htask & Hg).
  apply String.eqb_eq in Hg. rewrite Htask. simpl.
  assert (In task (downloadTasks (store w))) as Hin.
  { apply list_elem_of_In, list_elem_of_lookup. eauto. }
  destruct (tellStatus g (env w)) as [e1 [reason|st]]; simpl.
  { count_calls. split; [left; lia|]. split; [lia|auto]. }
  destruct (AriaStatus_eqb (r_status st) Error); simpl.
  - destruct (ariaRetryCountRemains task >? 0) eqn:Hretry; simpl.
    + assert (retryBudget
                (List.filter
                   (fun v => negb (String.eqb (gid v) (gid task)))
                   (downloadTasks (store w)))
              + ariaRetryCountRemains task
              <= retryBudget (downloadTasks (store w))) as Hpaid
        by (apply retryBudget_filter; auto).
      assert (forall t,
                In t (List.filter
                        (fun v => negb (String.eqb (gid v) (gid task)))
                        (downloadTasks (store w))) ->
                0 <= ariaRetryCountRemains t) as Hpos'
        by (intros t [Ht _]%filter_In; auto).
      destruct (addUri _ _ _ _) as [e3 [reason|g']]; simpl.
      { count_calls. split; [right; lia|].
        split; [intros _; lia | exact Hpos']. }
      destruct (tellStatus (gid task) e3) as [e4 [reason|st']]; simpl.
      { count_calls. split; [right; lia|].
        split; [intros _; lia | exact Hpos']. }
      count_calls. split; [right; lia|]. split.
      * intros _. rewrite retryBudget_app. simpl. lia.
      * intros t [Ht|[<-|[]]]%in_app_or; [auto|]. simpl. lia.
    + destruct (files st) as [|f0 fs]; simpl;
        count_calls;
        (split; [left; lia|]); (split; [lia | exact Hpos]).
  - destruct (files st) as [|f0 fs]; simpl.
    { count_calls. split; [left; lia|].
      split; [lia | exact Hpos]. }
    destruct (findIndex (fun t => String.eqb (gid t) (r_gid st))
                (downloadTasks (store w))) as [j|]; simpl.
    2: { count_calls. split; [left; lia|].
         split; [lia | exact Hpos]. }
    destruct (downloadTasks (store w) !! j) as [old|]; simpl.
    2: { count_calls. split; [left; lia|].
         split; [lia | exact Hpos]. }
    destruct (updatedAt old >? dateNow (env w)); simpl;
      count_calls; (split; [left; lia|]);
      (split; [lia|]); [exact Hpos|].
    intros t [->|Ht]%In_insert; [simpl; auto | auto].
Qed.


(** ** The background poller: a tick that is answered *)

Lemma mapM_pure {A B} (f : A -> Async E B) (h : A -> B) (l : list A)
    (w : World) :
  (forall x, In x l -> f x w = (w, inr (h x))) ->
  mapM f l w = (w, inr (List.map h l)).
Proof.
  induction l as [|x l IH]; intros Hf; [reflexivity|].
  simpl. unfold bind at 1. rewrite (Hf x (or_introl eq_refl)).
  unfold bind at 1. rewrite IH by (intros y Hy; apply Hf; right; exact Hy).
  reflexivity.
Qed.

Lemma polled_gid (resultMap : gmap string AriaStatusReply) (now_ : Z)
    (old : DownloadTask) :
  (forall g st, resultMap !! g = Some st -> r_gid st = g) ->
  gid (polled resultMap now_ old) = gid old.
Proof.
  intros Hhonest. unfold polled.
  destruct (updatedAt old >? now_); [reflexivity|].
  destruct (resultMap !! gid old) as [st|] eqn:Hst; [|reflexivity].
  destruct (files st); [reflexivity|]. simpl. apply Hhonest, Hst.
Qed.

Lemma polled_stamp (resultMap : gmap string AriaStatusReply) (now_ : Z)
    (old : DownloadTask) :
  (updatedAt (polled resultMap now_ old) <? updatedAt old) = false
  \/ polled resultMap now_ old = old.
Proof.
  unfold polled. destruct (updatedAt old >? now_) eqn:Hcmp; [auto|].
  destruct (resultMap !! gid old) as [st|]; [|auto].
  destruct (files st); [auto|]. left. simpl. lia.
Qed.

(** X7.  A tick of the poller whose batched query is answered.  The
    stored handles are pairwise distinct, and the daemon answers under
    each handle with a reply for that handle that lists a file.  Then
    the tick returns and sets its timer once; it made the one batched
    query for the auto-sync set; and every stored record is, in place,
    what [polled] makes of it: left alone when it was updated after the
    snapshot time or when the daemon's answer does not mention its
    handle, and otherwise merged with the daemon's reply and stamped
    with the snapshot time.  The auto-sync set is not changed. *)
Theorem scheduleAutoSyncTasks_merge (w : World) (e1 : E)
    (resultMap : gmap string AriaStatusReply) :
  autoSyncTaskIds (store w) <> [] ->
  tellStatusMany (autoSyncTaskIds (store w)) (env w) = (e1, inr resultMap) ->
  NoDup (List.map gid (downloadTasks (store w))) ->
  (forall g st, resultMap !! g = Some st -> r_gid st = g /\ files st <> []) ->
  let r := scheduleAutoSyncTasks w in
  r.2 = inr tt /\
  timeouts r.1 = timeouts w ++ [(CbScheduleAutoSyncTasks, INTERVAL)] /\
  rpcs r.1 = rpcs w ++ [TellStatusMany (autoSyncTaskIds (store w))] /\
  autoSyncTaskIds (store r.1) = autoSyncTaskIds (store w) /\
  downloadTasks (store r.1)
    = List.map (polled resultMap (dateNow (env w))) (downloadTasks (store w)).
Proof.
  intros Hids Hq Hnd Hhonest r. subst r.
  set (now_ := dateNow (env w)).
  set (olds := downloadTasks (store w)) in *.
  assert (forall g st, resultMap !! g = Some st -> r_gid st = g) as Hgid
    by (intros g st Hst; apply (Hhonest g st Hst)).
  assert (forall w' : World, mapM
            (fun oldTask =>
               if updatedAt oldTask >? now_ then ret oldTask
               else
                 match resultMap !! gid oldTask with
                 | None => ret oldTask
                 | Some st =>
                     mergeAriaStatusToDownloadTask st oldTask (Some now_)
                 end) olds w'
          = (w', inr (List.map (polled resultMap now_) olds))) as HmapM.
  { intros w'. apply mapM_pure. intros old _. unfold polled.
    destruct (updatedAt old >? now_); [reflexivity|].
    destruct (resultMap !! gid old) as [st|] eqn:Hst; [|reflexivity].
    unfold mergeAriaStatusToDownloadTask, bind, ret.
    destruct (files st) as [|f0 fs] eqn:Hf; [|reflexivity].
    destruct (proj2 (Hhonest _ _ Hst) Hf). }
  assert (List.map
            (fun oldTask =>
               match
                 fromPairs
                   (List.map (fun t => (gid t, t))
                      (List.map (polled resultMap now_) olds)) !! gid oldTask
               with
               | None => oldTask
               | Some newTask =>
                   if updatedAt newTask <? updatedAt oldTask then oldTask
                   else newTask
               end) olds
          = List.map (polled resultMap now_) olds) as Hbatch.
  { apply map_ext_in. intros old Hold. rewrite fromPairs_gid.
    rewrite <- (polled_gid resultMap now_ old Hgid).
    rewrite lastWithGid_NoDup.
    - destruct (polled_stamp resultMap now_ old) as [->| ->];
        [reflexivity|]. destruct (_ <? _); reflexivity.
    - rewrite map_map.
      rewrite (map_ext (fun x => gid (polled resultMap now_ x)) gid
                 (fun x => polled_gid resultMap now_ x Hgid)).
      exact Hnd.
    - apply in_map, Hold. }
  set (wq := withEnv e1
               (logRpc (TellStatusMany (autoSyncTaskIds (store w))) w)).
  assert (scheduleAutoSyncTasks w
          = (setTimeout CbScheduleAutoSyncTasks INTERVAL
               (withStore
                  (setDownloadTasks
                     (List.map (polled resultMap now_) olds) (store wq))
                  wq),
             inr tt)) as ->.
  { unfold scheduleAutoSyncTasks, batchUpdateDownloadTasks.
    unfold bind at 1. unfold get at 1.
    destruct (autoSyncTaskIds (store w)) as [|x ids_] eqn:Hl;
      [destruct (Hids eq_refl)|].
    unfold bind at 1. unfold now at 1. fold now_.
    unfold bind at 1. unfold await at 1. cbn [logRpc env]. rewrite Hq.
    unfold bind at 1. unfold get at 1.
    cbn [store withEnv]. fold olds. unfold bind at 1. rewrite HmapM.
    unfold bind, get, set, effect. simpl. fold olds. rewrite Hbatch.
    reflexivity. }
  simpl. auto.
Qed.


(** ** Creation followed by a sync *)

Lemma findIndex_snoc {A} (p : A -> bool) (l : list A) (x : A) :
  (forall y, In y l -> p y = false) -> p x = true ->
  findIndex p (l ++ [x]) = Some (length l).
Proof.
  intros Hl Hx. induction l as [|a l IH]; simpl.
  - rewrite Hx. reflexivity.
  - rewrite (Hl a (or_introl eq_refl)).
    rewrite IH by (intros y Hy; apply Hl; right; exact Hy). reflexivity.
Qed.

Lemma insert_snoc {A} (l : list A) (x y : A) :
  <[length l := y]> (l ++ [x]) = l ++ [y].
Proof. induction l as [|a l IH]; simpl; [|rewrite IH]; reflexivity. Qed.

Lemma lookup_snoc {A} (l : list A) (x : A) :
  (l ++ [x]) !! length l = Some x.
Proof. induction l as [|a l IH]; simpl; [reflexivity | exact IH]. Qed.

(** X8.  A job is created under a handle no stored record carries, and
    then synced; the daemon answers the sync with a reply for that
    handle, not in [Error], that lists a file; the clock has not gone
    back between the creation and the sync.  Then the record the
    creation appended is replaced by the merge of the daemon's reply:
    status and byte counts are the daemon's (so a job the daemon reports
    complete, with the completed length equal to the total, is stored
    [Complete] with equal sizes), post, media, URL and the five retries
    are those of the creation, and the records that were there before
    are untouched. *)
Theorem create_then_sync (w : World) (params : CreateDownloadTaskParams)
    (g : string) (e1 e2 e3 : E) (st st2 : AriaStatusReply) (f0 : AriaFile)
    (fs : list AriaFile) :
  let task := preparedTask (settings w) (dateNow (env w)) params in
  (forall t, In t (downloadTasks (store w)) -> gid t <> g) ->
  addUri (downloadUrl task) (dir task) (fileName task) (env w)
    = (e1, inr g) ->
  tellStatus g e1 = (e2, inr st) ->
  tellStatus g e2 = (e3, inr st2) ->
  r_status st2 <> Error ->
  r_gid st2 = g ->
  files st2 = f0 :: fs ->
  dateNow (env w) <= dateNow e2 ->
  let r := syncDownloadTaskStatus g (createDownloadTask params w).1 in
  r.2 = inr tt /\
  downloadTasks (store r.1)
    = downloadTasks (store w) ++ [mergedRecord st2 f0 task (dateNow e3)] /\
  status (mergedRecord st2 f0 task (dateNow e3)) = r_status st2 /\
  completeSize (mergedRecord st2 f0 task (dateNow e3))
    = Num (completedLength st2) /\
  totalSize (mergedRecord st2 f0 task (dateNow e3))
    = Num (totalLength st2) /\
  ariaRetryCountRemains (mergedRecord st2 f0 task (dateNow e3)) = 5.
Proof.
  intros task Hfresh Hadd Htell Htell2 Hst Hg Hfiles Hclock r.
  set (new := withStatus (r_status st) (withGid g task)).
  set (w1 := withStore
               (setDownloadTasks (downloadTasks (store w) ++ [new]) (store w))
               (withEnv e2
                  (logRpc (TellStatus g)
                     (withEnv e1
                        (logRpc
                           (AddUri (downloadUrl task) (dir task)
                              (fileName task)) w))))).
  assert ((createDownloadTask params w).1 = w1) as Hw1.
  { unfold createDownloadTask. async_unfold. fold task. rewrite Hadd.
    simpl. rewrite Htell. reflexivity. }
  assert (findIndex (fun v => String.eqb (gid v) g)
            (downloadTasks (store w) ++ [new])
          = Some (length (downloadTasks (store w)))) as Hi.
  { apply findIndex_snoc.
    - intros y Hy. apply String.eqb_neq, Hfresh, Hy.
    - apply String.eqb_refl. }
  subst r. rewrite Hw1.
  assert (syncDownloadTaskStatus g w1
          = (withStore
               (setDownloadTasks
                  (downloadTasks (store w)
                     ++ [mergedRecord st2 f0 task (dateNow e3)])
                  (store w1))
               (withEnv e3 (logRpc (TellStatus g) w1)), inr tt)) as ->.
  { unfold syncDownloadTaskStatus, mergeAriaStatusToDownloadTask,
      updateDownloadTask.
    async_unfold. rewrite Hi, lookup_snoc. simpl. rewrite Htell2. simpl.
    assert (AriaStatus_eqb (r_status st2) Error = false) as ->.
    { destruct (r_status st2); try reflexivity. destruct (Hst eq_refl). }
    rewrite Hfiles. simpl. rewrite Hg, Hi, lookup_snoc. simpl.
    assert ((dateNow (env w) >? dateNow e2) = false) as -> by lia.
    rewrite insert_snoc. unfold mergedRecord. rewrite Hg. reflexivity. }
  simpl. repeat split.
Qed.


(** * Further properties of the creation-task queue *)

(** X9.  [updateCreationTask] never adds, removes or reorders queue
    entries: the identifiers in the queue are the same before and after,
    and only entries with the identifier of the published task are
    replaced.  In particular, publishing the counters of a task that is
    no longer queued changes nothing: a removed task is not brought
    back. *)
Theorem updateCreationTask_no_resurrection (task : CreationTask)
    (w : World) :
  let w' := updateCreationTask task w in
  List.map id (creationTasks (store w'))
    = List.map id (creationTasks (store w)) /\
  (forall i x, creationTasks (store w) !! i = Some x ->
     creationTasks (store w') !! i
       = Some (if String.eqb (id x) (id task) then task else x)) /\
  (~ In (id task) (List.map id (creationTasks (store w))) -> w' = w).
Proof.
  intros w'. split; [apply updateCreationTask_ids|]. split.
  - intros i x Hx. subst w'. unfold updateCreationTask. simpl.
    change (List.map ?f ?l) with (f <$> l).
    rewrite list_lookup_fmap, Hx. reflexivity.
  - intros Hno. subst w'. unfold updateCreationTask.
    assert (List.map
              (fun oldTask =>
                 if String.eqb (id oldTask) (id task) then task else oldTask)
              (creationTasks (store w)) = creationTasks (store w)) as ->.
    { induction (creationTasks (store w)) as [|x l IH]; [reflexivity|].
      simpl. simpl in Hno.
      destruct (String.eqb_spec (id x) (id task)) as [Heq|_].
      - destruct (Hno (or_introl Heq)).
      - f_equal. apply IH. intros Hin. apply Hno. right. exact Hin. }
    destruct w as [[] ? ? ? ? ? ? ? ?]; reflexivity.
Qed.

Lemma removeCreationTask_found (i : string) (addr : nat) (w : World) :
  creationTaskAbortControllerMap w !! i = Some addr ->
  removeCreationTask i w =
    withStore
      (setCreationTasks
         (List.filter (fun v => negb (String.eqb (id v) i))
            (creationTasks (store w)))
         (store w))
      (withControllers (<[addr := true]> (signals w))
         (delete i (creationTaskAbortControllerMap w)) w).
Proof. intros H. unfold removeCreationTask. rewrite H. reflexivity. Qed.



(** ** The tokens of the queue, over all interleavings *)

Lemma In_ids_filter (l : list CreationTask) (i j : string) :
  In j (List.map id l) -> j <> i ->
  In j (List.map id
          (List.filter (fun v => negb (String.eqb (id v) i)) l)).
Proof.
  intros (t & <- & Hin)%in_map_iff Hne. apply in_map, filter_In.
  split; [exact Hin|]. apply negb_true_iff, String.eqb_neq. exact Hne.
Qed.

Lemma token_create (u : TwitterUser) (f : DownloadFilter) (w : World)
    (rs : list (CreationTask * nat)) :
  TokenInvariant (mkSystem w rs) ->
  TokenInvariant (mkSystem (createCreationTask u f w) rs).
Proof.
  intros [Hown Hlive Hapart Hone]. unfold createCreationTask.
  simpl in *. destruct (nanoid (env w)) as [e' newId]. simpl.
  constructor; simpl.
  - intros i Hi. rewrite map_app. apply in_or_app. simpl.
    destruct (String.eqb_spec newId i) as [->|Hne]; [auto|].
    rewrite lookup_insert_ne in Hi by exact Hne. auto.
  - intros i a. destruct (String.eqb_spec newId i) as [->|Hne].
    + rewrite lookup_insert_eq. intros [= <-]. apply lookup_snoc.
    + rewrite lookup_insert_ne by exact Hne. intros Hi.
      apply lookup_app_l_Some, (Hlive i a Hi).
  - intros i j a.
    destruct (String.eqb_spec newId i) as [Hi|Hi];
      destruct (String.eqb_spec newId j) as [Hj|Hj].
    + congruence.
    + rewrite <- Hi, lookup_insert_eq, lookup_insert_ne by exact Hj.
      intros [= <-] Hj'. apply Hlive, lookup_lt_Some in Hj'. lia.
    + rewrite <- Hj, lookup_insert_eq, lookup_insert_ne by exact Hi.
      intros Hi' [= <-]. apply Hlive, lookup_lt_Some in Hi'. lia.
    + rewrite !lookup_insert_ne by assumption. apply Hapart.
  - exact Hone.
Qed.

Lemma token_remove (i : string) (w : World)
    (rs : list (CreationTask * nat)) :
  TokenInvariant (mkSystem w rs) ->
  TokenInvariant (mkSystem (removeCreationTask i w) rs).
Proof.
  intros Htok.
  destruct (creationTaskAbortControllerMap w !! i) as [addr|] eqn:Hm.
  2: { unfold removeCreationTask. rewrite Hm. exact Htok. }
  rewrite (removeCreationTask_found i addr w Hm).
  destruct Htok as [Hown Hlive Hapart Hone]. simpl in *.
  constructor; simpl.
  - intros j Hj. destruct (String.eqb_spec i j) as [->|Hne].
    + rewrite lookup_delete_eq in Hj. destruct Hj as [? [=]].
    + rewrite lookup_delete_ne in Hj by exact Hne.
      apply In_ids_filter; [auto | congruence].
  - intros j a. destruct (String.eqb_spec i j) as [->|Hne].
    + rewrite lookup_delete_eq. discriminate.
    + rewrite lookup_delete_ne by exact Hne. intros Hj.
      rewrite list_lookup_insert_ne; [exact (Hlive j a Hj)|].
      intros <-. apply Hne. exact (Hapart i j addr Hm Hj).
  - intros j k a.
    destruct (String.eqb_spec i j) as [->|Hj];
      [rewrite lookup_delete_eq; discriminate|].
    destruct (String.eqb_spec i k) as [->|Hk];
      [rewrite lookup_delete_eq; discriminate|].
    rewrite !lookup_delete_ne by assumption. apply Hapart.
  - exact Hone.
Qed.

Lemma token_frame (w w' : World) (rs rs' : list (CreationTask * nat)) :
  List.map id (creationTasks (store w'))
    = List.map id (creationTasks (store w)) ->
  signals w' = signals w ->
  creationTaskAbortControllerMap w' = creationTaskAbortControllerMap w ->
  (schedulerCallbacks w' + length rs' = 1)%nat ->
  TokenInvariant (mkSystem w rs) ->
  TokenInvariant (mkSystem w' rs').
Proof.
  intros Hids Hsig Hmap Hone' [Hown Hlive Hapart Hone]. simpl in *.
  constructor; simpl; rewrite ?Hids, ?Hsig, ?Hmap; assumption.
Qed.

Lemma token_begin (w : World) (rs : list (CreationTask * nat))
    (pre post : list Callback) :
  idleCallbacks w = pre ++ CbScheduleCreationTasks :: post ->
  Invariant (mkSystem w rs) ->
  TokenInvariant (mkSystem w rs) ->
  TokenInvariant
    (mkSystem
       (scheduleCreationTasksBegin (withIdleCallbacks (pre ++ post) w)).1
       (afterBegin rs
          (scheduleCreationTasksBegin (withIdleCallbacks (pre ++ post) w)).2)).
Proof.
  intros Hcb Hinv Htok.
  pose proof (schedulerCallbacks_taken w pre post Hcb) as Htaken.
  set (w0 := withIdleCallbacks (pre ++ post) w) in *.
  assert (rs = [] /\ schedulerCallbacks w0 = O) as [-> Hzero].
  { destruct Htok as [_ _ _ Hone]. simpl in Hone.
    destruct rs; simpl in Hone; [split; [reflexivity|lia] | lia]. }
  assert (forall (w1 : World) rs1,
            List.map id (creationTasks (store w1))
              = List.map id (creationTasks (store w0)) ->
            signals w1 = signals w0 ->
            creationTaskAbortControllerMap w1
              = creationTaskAbortControllerMap w0 ->
            (schedulerCallbacks w1 + length rs1 = 1)%nat ->
            TokenInvariant (mkSystem w1 rs1)) as Hframe.
  { intros w1 rs1 H1 H2 H3 H4.
    exact (token_frame w w1 [] rs1 H1 H2 H3 H4 Htok). }
  unfold scheduleCreationTasksBegin.
  destruct (creationTasks (store w0)) as [|task l] eqn:Hl.
  { simpl.
    apply Hframe; [exact (f_equal (List.map id) Hl) | reflexivity..|].
    rewrite schedulerCallbacks_request, Hzero. reflexivity. }
  destruct (existsb isActive (task :: l)).
  { simpl.
    apply Hframe; [exact (f_equal (List.map id) Hl) | reflexivity..|].
    rewrite schedulerCallbacks_request, Hzero. reflexivity. }
  destruct (creationTaskAbortControllerMap w0 !! id task) as [addr|] eqn:Hm.
  2: { exfalso. destruct Hinv as [_ Hctl _ _ _]. simpl in Hctl.
       destruct (Hctl task) as [a Ha].
       - change (creationTasks (store w)) with (creationTasks (store w0)).
         rewrite Hl. left. reflexivity.
       - change (creationTaskAbortControllerMap w)
           with (creationTaskAbortControllerMap w0) in Ha.
         rewrite Hm in Ha. discriminate. }
  destruct (signalAborted addr w0).
  - simpl.
    assert (TokenInvariant
              (mkSystem (removeCreationTask (id task) w0) [(task, addr)]))
      as [Hown Hlive Hapart Hone].
    { apply token_remove, Hframe;
        [exact (f_equal (List.map id) Hl) | reflexivity..|].
      simpl. lia. }
    simpl in *. constructor; simpl; try assumption.
    rewrite schedulerCallbacks_request. lia.
  - cbn [fst snd afterBegin app].
    apply Hframe; [rewrite updateCreationTask_ids;
                   exact (f_equal (List.map id) Hl)
                  | reflexivity..|].
    unfold schedulerCallbacks in *. simpl in *. rewrite Hzero. reflexivity.
Qed.

Lemma token_end (w : World) (pre post : list (CreationTask * nat))
    (t : CreationTask) (a : nat) (failure : option JsError) :
  TokenInvariant (mkSystem w (pre ++ (t, a) :: post)) ->
  TokenInvariant
    (mkSystem (scheduleCreationTasksEnd t failure w) (pre ++ post)).
Proof.
  intros Htok.
  assert (pre = [] /\ post = [] /\ schedulerCallbacks w = O)
    as (-> & -> & Hzero).
  { destruct Htok as [_ _ _ Hone]. simpl in Hone.
    rewrite length_app in Hone. simpl in Hone.
    destruct pre, post; simpl in Hone; try lia. repeat split; lia. }
  simpl app in *.
  destruct (token_remove (id t) w _ Htok) as [Hown Hlive Hapart _].
  assert (schedulerCallbacks (removeCreationTask (id t) w) = O) as Hzero'.
  { unfold schedulerCallbacks in *.
    rewrite removeCreationTask_idleCallbacks. exact Hzero. }
  unfold scheduleCreationTasksEnd.
  set (w1 := removeCreationTask (id t) w) in *. clearbody w1.
  simpl in *.
  constructor; cbn [world pending].
  - destruct failure; exact Hown.
  - destruct failure; exact Hlive.
  - destruct failure; exact Hapart.
  - rewrite schedulerCallbacks_request.
    destruct failure; unfold schedulerCallbacks in *; simpl in *;
      rewrite Hzero'; reflexivity.
Qed.

Lemma token_step (s s' : System E) :
  step s s' -> Invariant s -> TokenInvariant s -> TokenInvariant s'.
Proof.
  intros Hstep Hinv Htok. destruct Hstep.
  - apply token_create; assumption.
  - apply token_remove; assumption.
  - apply token_begin; assumption.
  - destruct Htok as [? ? ? Hone].
    eapply token_frame; [apply updateCreationTask_ids | reflexivity
                        | reflexivity | exact Hone | constructor; eassumption].
  - eapply token_end; eassumption.
  - destruct H as (Hl & Hs & Hm & Hcb). destruct Htok as [? ? ? Hone].
    eapply token_frame; [rewrite Hl; reflexivity | exact Hs | exact Hm
                        | | constructor; eassumption].
    unfold schedulerCallbacks in *. simpl in *. rewrite Hcb. exact Hone.
Qed.

Lemma token_loaded (w : World) :
  loaded w ->
  Invariant (mkSystem (scheduleCreationTasksBegin w).1 []) /\
  TokenInvariant (mkSystem (scheduleCreationTasksBegin w).1 []).
Proof.
  intros (Hl & Hcb & Hm).
  split; [apply invariant_reachable, reachable_boot; assumption|].
  unfold scheduleCreationTasksBegin. rewrite Hl. simpl.
  constructor; cbn [world pending]; simpl; rewrite ?Hl, ?Hm.
  - intros i [a Ha]. rewrite lookup_empty in Ha. discriminate.
  - intros i a Ha. rewrite lookup_empty in Ha. discriminate.
  - intros i j a Ha. rewrite lookup_empty in Ha. discriminate.
  - unfold schedulerCallbacks. simpl. rewrite Hcb. reflexivity.
Qed.

Lemma token_steps (s s' : System E) :
  steps s s' -> Invariant s /\ TokenInvariant s ->
  Invariant s' /\ TokenInvariant s'.
Proof.
  induction 1 as [s|s1 s2 s3 Hstep _ IH]; [auto|].
  intros [Hinv Htok]. apply IH. split.
  - exact (invariant_step s1 s2 Hstep Hinv).
  - exact (token_step s1 s2 Hstep Hinv Htok).
Qed.

Lemma token_sinceLoad (s : System E) :
  sinceLoad s -> Invariant s /\ TokenInvariant s.
Proof.
  intros (w & Hw & Hsteps). exact (token_steps _ _ Hsteps (token_loaded w Hw)).
Qed.



(** X11.  Since the module was loaded, the side table of abort
    controllers and the queue go together: an identifier has a
    controller in the table exactly when a task with that identifier is
    queued.  No token is left behind by a removed task, and no queued
    task is without one. *)
Theorem tokens_never_orphaned (s : System E) :
  sinceLoad s ->
  forall i,
    is_Some (creationTaskAbortControllerMap (world s) !! i) <->
    In i (List.map id (creationTasks (store (world s)))).
Proof.
  intros [[_ Hctl _ _ _] [Hown _ _ _]]%token_sinceLoad i. split.
  - apply Hown.
  - intros (t & <- & Hin)%in_map_iff. apply Hctl, Hin.
Qed.

(** X12.  Since the module was loaded, exactly one run of the scheduler
    exists at any time: either its idle callback is requested, or it is
    suspended at its runner.  It is never lost and never doubled; in
    particular, a run of the scheduler that the host starts does not
    throw. *)
Theorem scheduler_never_stops (s : System E) :
  sinceLoad s ->
  (schedulerCallbacks (world s) + length (pending s) = 1)%nat /\
  (forall pre post,
     idleCallbacks (world s) = pre ++ CbScheduleCreationTasks :: post ->
     match (scheduleCreationTasksBegin
              (withIdleCallbacks (pre ++ post) (world s))).2 with
     | Crashed _ => False
     | Rescheduled | Running _ _ => True
     end).
Proof.
  intros [[_ Hctl _ _ _] [_ _ _ Hone]]%token_sinceLoad.
  split; [exact Hone|]. intros pre post _.
  unfold scheduleCreationTasksBegin. simpl.
  destruct (creationTasks (store (world s))) as [|task l] eqn:Hl; [exact I|].
  destruct (existsb isActive (task :: l)); [exact I|].
  destruct (Hctl task (or_introl eq_refl)) as [a Ha]. rewrite Ha.
  destruct (signalAborted a _); exact I.
Qed.

(** X13.  Since the module was loaded, no queued task has a tripped
    token: the controller of every queued task is there and is not
    aborted.  (A token is tripped only by [removeCreationTask], which
    takes the task out of the queue in the same stretch, so the
    scheduler never finds an aborted task at the head of the queue.) *)
Theorem queued_tasks_not_aborted (s : System E) :
  sinceLoad s ->
  forall t, In t (creationTasks (store (world s))) ->
    exists a,
      creationTaskAbortControllerMap (world s) !! id t = Some a /\
      signalAborted a (world s) = false.
Proof.
  intros [[_ Hctl _ _ _] [_ Hlive _ _]]%token_sinceLoad t Hin.
  destruct (Hctl t Hin) as [a Ha]. exists a. split; [exact Ha|].
  unfold signalAborted. rewrite (Hlive _ _ Ha). reflexivity.
Qed.

(** X14.  First in, first out.  Since the module was loaded, when the
    host starts the requested run of the scheduler and the queue is not
    empty, the run hands the head of the queue to the runner, with its
    own abort signal: the head is marked active in place and every other
    entry stays where it was, as it was. *)
Theorem scheduler_starts_head (w : World) (rs : list (CreationTask * nat))
    (pre post : list Callback) (t : CreationTask) (l : list CreationTask) :
  sinceLoad (mkSystem w rs) ->
  idleCallbacks w = pre ++ CbScheduleCreationTasks :: post ->
  creationTasks (store w) = t :: l ->
  let r := scheduleCreationTasksBegin (withIdleCallbacks (pre ++ post) w) in
  exists a,
    creationTaskAbortControllerMap w !! id t = Some a /\
    r.2 = Running (withCreationStatus CActive t) a /\
    creationTasks (store r.1) = withCreationStatus CActive t :: l /\
    rs = [].
Proof.
  intros [[Hids Hctl _ Hidle _] [_ Hlive _ Hone]]%token_sinceLoad Hcb Hl r.
  simpl in *.
  assert (rs = []) as ->.
  { rewrite (schedulerCallbacks_taken w pre post Hcb) in Hone.
    destruct rs; [reflexivity | simpl in Hone; lia]. }
  destruct (Hctl t) as [a Ha]; [rewrite Hl; left; reflexivity|].
  exists a. split; [exact Ha|].
  assert (existsb isActive (t :: l) = false) as Hnone.
  { rewrite <- Hl. apply not_true_is_false.
    intros (x & Hx & Hact)%existsb_exists.
    rewrite (Hidle eq_refl x Hx) in Hact. discriminate. }
  subst r. unfold scheduleCreationTasksBegin. simpl.
  rewrite Hl, Hnone, Ha. unfold signalAborted. simpl.
  rewrite (Hlive _ _ Ha). simpl. rewrite Hl.
  split; [reflexivity|]. split; [|reflexivity].
  simpl. rewrite String.eqb_refl. f_equal.
  rewrite Hl in Hids. simpl in Hids. apply NoDup_cons in Hids as [Hhead _].
  clear - Hhead. induction l as [|x l IH]; [reflexivity|].
  simpl. destruct (String.eqb_spec (id x) (id t)) as [Heq|_].
  - exfalso. apply Hhead. rewrite <- Heq. left.
  - f_equal. apply IH. intros Hin. apply Hhead. right. exact Hin.
Qed.

(** X15.  The end of a run of the scheduler, whichever way the runner
    ended.  Since the module was loaded, once the rest of the run is
    done the task that was run is no longer queued and has no token
    left; one idle callback is requested for the next run; the download
    tasks are untouched; and the notifications raised are none when the
    runner returned, and one OS and one in-app notification, in that
    order, when it threw; their text is the message of what was thrown
    or, that message being empty, the fallback text. *)
Theorem scheduleCreationTasksEnd_cleans_up (w : World)
    (pre post : list (CreationTask * nat)) (t : CreationTask) (a : nat)
    (failure : option JsError) :
  sinceLoad (mkSystem w (pre ++ (t, a) :: post)) ->
  let w' := scheduleCreationTasksEnd t failure w in
  (forall x, In x (creationTasks (store w')) -> id x <> id t) /\
  creationTaskAbortControllerMap w' !! id t = None /\
  schedulerCallbacks w' = 1%nat /\
  downloadTasks (store w') = downloadTasks (store w) /\
  notifications w' =
    notifications w ++
    match failure with
    | None => []
    | Some err =>
        [OsNotification crawlFailedTitle (reasonOf err);
         AntError (crawlFailedTitle ++ "：" ++ reasonOf err)%string None]
    end.
Proof.
  intros Hsince w'.
  pose proof (token_end w pre post t a failure
                (proj2 (token_sinceLoad _ Hsince))) as [_ _ _ Hone'].
  destruct (token_sinceLoad _ Hsince) as [[_ Hctl _ _ _] [_ _ _ Hone]].
  simpl in *.
  assert (pre ++ post = []) as Hrs.
  { rewrite length_app in Hone. simpl in Hone.
    destruct pre, post; simpl in Hone; try lia. reflexivity. }
  rewrite Hrs in Hone'. simpl in Hone'. fold w' in Hone'.
  assert ((forall x, In x (creationTasks (store (removeCreationTask (id t) w)))
             -> id x <> id t) /\
          creationTaskAbortControllerMap (removeCreationTask (id t) w) !! id t
            = None /\
          downloadTasks (store (removeCreationTask (id t) w))
            = downloadTasks (store w) /\
          notifications (removeCreationTask (id t) w) = notifications w)
    as (Hgone & Hnone & Hdl & Hnote).
  { destruct (creationTaskAbortControllerMap w !! id t) as [addr|] eqn:Hm.
    - rewrite (removeCreationTask_found _ addr w Hm). simpl.
      split; [|split; [apply lookup_delete_eq | auto]].
      intros x [_ Hne]%filter_In.
      apply negb_true_iff, String.eqb_neq in Hne. exact Hne.
    - unfold removeCreationTask. rewrite Hm.
      split; [|split; [exact Hm | auto]].
      intros x Hx Heq. destruct (Hctl x Hx) as [b Hb].
      rewrite Heq, Hm in Hb. discriminate. }
  subst w'. unfold scheduleCreationTasksEnd in *.
  split; [destruct failure; exact Hgone|].
  split; [destruct failure; exact Hnone|].
  split; [lia|].
  split; [destruct failure; exact Hdl|].
  destruct failure; simpl; rewrite Hnote, <- ?app_assoc, ?app_nil_r;
    reflexivity.
Qed.


(** * Further properties of the runner *)

Lemma runCreationTaskLoop_stops_helper (w : World) (task : CreationTask)
    (signal : nat) (since until_ : Z) (l : LoopState) (fuel : nat) :
  signalAborted signal w = true \/
  l_nextCursor l = Some None \/
  l_now l <= since ->
  runCreationTaskLoop (S fuel) task signal since until_ l w
    = (w, inr (Some l)).
Proof.
  intros Hstop. simpl.
  destruct (negb (bool_decide (l_nextCursor l = Some None))
            && (since <? l_now l)) eqn:Hguard; [|reflexivity].
  apply andb_true_iff in Hguard as [Hcur Hnow].
  apply negb_true_iff, bool_decide_eq_false in Hcur.
  destruct Hstop as [Habort|[Hnull|Hdate]]; [|contradiction|lia].
  unfold bind, ret. rewrite Habort. reflexivity.
Qed.

(** X16.  The runner starts no work it should not: entered with a
    tripped abort signal, with the cursor [null], or with the time of
    the oldest post seen no longer after the lower date bound, the loop
    returns at once, however much fuel it has: nothing is fetched and
    nothing changes. *)
Theorem runCreationTaskLoop_stops (w : World) (task : CreationTask)
    (signal : nat) (since until_ : Z) (l : LoopState) (fuel : nat) :
  signalAborted signal w = true \/
  l_nextCursor l = Some None \/
  l_now l <= since ->
  runCreationTaskLoop (S fuel) task signal since until_ l w
    = (w, inr (Some l)).
Proof.
  intros [Habort|Hguard].
  - simpl. destruct (negb _ && _); [|reflexivity].
    unfold bind, ret. rewrite Habort. reflexivity.
  - simpl.
    assert (negb (bool_decide (l_nextCursor l = Some None))
            && (since <? l_now l) = false) as ->; [|reflexivity].
    destruct Hguard as [Hnull|Hdate].
    + rewrite bool_decide_eq_true_2 by exact Hnull. reflexivity.
    + apply andb_false_iff. right. lia.
Qed.

Lemma collectMedias_store (p : TwitterPost) (ms : list TwitterMedia) :
  forall skip acc (w : World),
    store (collectMedias p ms skip acc w).1 = store w /\
    signals (collectMedias p ms skip acc w).1 = signals w.
Proof.
  induction ms as [|m ms IH]; intros skip acc w; [split; reflexivity|].
  simpl. async_unfold.
  destruct (sameFileSkip (settings w)).
  - unfold await. simpl.
    destruct (fsExists _ (env w)) as [e1 [reason|present]]; simpl;
      [split; reflexivity|].
    destruct present; rewrite (proj1 (IH _ _ _)), (proj2 (IH _ _ _));
      split; reflexivity.
  - unfold ret. apply IH.
Qed.

Lemma collectPosts_store (f : DownloadFilter) (posts : list TwitterPost) :
  forall skip acc (w : World),
    store (collectPosts f posts skip acc w).1 = store w /\
    signals (collectPosts f posts skip acc w).1 = signals w.
Proof.
  induction posts as [|p posts IH]; intros skip acc w; [split; reflexivity|].
  simpl. unfold bind at 1 2.
  pose proof (collectMedias_store p
                (List.filter (keepMedia f) (default [] (medias p)))
                skip acc w) as [Hs Hg].
  destruct (collectMedias p _ skip acc w) as [w1 [e|r]]; simpl in *;
    [split; assumption|].
  rewrite (proj1 (IH _ _ _)), (proj2 (IH _ _ _)). split; assumption.
Qed.

(** X17.  What a page leaves in the store.  For a page the runner gets
    through, the download tasks are the former ones followed by exactly
    as many new records as the page added to the completion counter;
    and the counters published for the task are the loop's counters
    after the page: every queue entry with the task's identifier is the
    task with these counters, the other entries are untouched. *)
Theorem runCreationTaskPage_records (w w' : World) (task : CreationTask)
    (signal : nat) (since until_ : Z) (l l' : LoopState) (pg : Page)
    (b : bool) :
  runCreationTaskPage task signal since until_ l pg w = (w', inr (l', b)) ->
  (exists added,
     downloadTasks (store w') = downloadTasks (store w) ++ added /\
     Z.of_nat (length added) = l_completeCount l' - l_completeCount l) /\
  creationTasks (store w') =
    List.map
      (fun x =>
         if String.eqb (id x) (id task)
         then withCounts (l_completeCount l') (l_skipCount l') task
         else x)
      (creationTasks (store w)).
Proof.
  unfold runCreationTaskPage. cbv zeta.
  destruct (List.filter (keepPost since until_) (twitterPosts pg))
    as [|k0 ks] eqn:Hkept.
  - async_unfold. intros [= <- <- <-]. simpl.
    split; [exists []; rewrite app_nil_r; split; [reflexivity|simpl; lia]|].
    auto.
  - rewrite <- Hkept. clear Hkept. unfold bind at 1.
    pose proof (collectPosts_store (filter task)
                  (List.filter (keepPost since until_) (twitterPosts pg))
                  (l_skipCount l
                   + (getMediaCounts (twitterPosts pg)
                      - getMediaCounts
                          (List.filter (keepPost since until_)
                             (twitterPosts pg))))
                  [] w) as [Hstore _].
    destruct (collectPosts _ _ _ [] w) as [w1 [e|[skip1 params]]];
      [discriminate|].
    simpl in Hstore. cbv beta iota zeta. cbn [fst snd].
    destruct params as [|p0 ps].
    + async_unfold. intros [= <- <- <-]. simpl. rewrite Hstore.
      split; [exists []; rewrite app_nil_r; split; [reflexivity|simpl; lia]|].
      auto.
    + unfold bind at 1.
      pose proof (batchCreateDownloadTask_shape w1 (p0 :: ps)) as Hshape.
      pose proof (quiet_batchCreateDownloadTask (p0 :: ps) w1)
        as (Hqueue & _).
      cbv zeta in Hshape.
      destruct (batchCreateDownloadTask (p0 :: ps) w1) as [w2 [e|[]]];
        [discriminate|].
      simpl in Hshape, Hqueue.
      destruct Hshape as [(e & He & _)|(_ & added & Hadded & Hlen & _)];
        [discriminate|].
      async_unfold. intros [= <- <- <-]. simpl.
      rewrite Hqueue, Hadded, Hstore.
      split; [exists added; split; [reflexivity|]|auto].
      rewrite Hlen. simpl length. lia.
Qed.

(** The loop goes on from the cursor of the page, with the time of its
    last post when it has one. *)
Lemma runCreationTaskPage_cursor (w w' : World) (task : CreationTask)
    (signal : nat) (since until_ : Z) (l l' : LoopState) (pg : Page)
    (b : bool) :
  runCreationTaskPage task signal since until_ l pg w = (w', inr (l', b)) ->
  l_nextCursor l' = Some (cursor pg) /\
  l_now l' =
    match last (twitterPosts pg) with
    | Some p => default (l_now l) (createdAt p)
    | None => l_now l
    end.
Proof.
  unfold runCreationTaskPage. cbv zeta.
  destruct (List.filter (keepPost since until_) (twitterPosts pg))
    as [|k0 ks].
  - async_unfold. intros [= _ <- _]. auto.
  - unfold bind at 1.
    destruct (collectPosts _ _ _ [] w) as [w1 [e|[skip1 params]]];
      [discriminate|].
    cbv beta iota zeta. cbn [fst snd].
    destruct params as [|p0 ps].
    + async_unfold. intros [= _ <- _]. auto.
    + unfold bind at 1.
      destruct (batchCreateDownloadTask (p0 :: ps) w1) as [w2 [e|[]]];
        [discriminate|].
      async_unfold. intros [= _ <- _]. auto.
Qed.

(** X18.  The last page.  The loop is entered with work to do; a page
    is fetched and gone through without a [break]; and either the page
    came with the cursor [null], or the time of its last post is not
    after the lower date bound.  Then the runner ends after this page,
    whatever fuel is left: the world and the counters are those the page
    produced, and nothing more is fetched. *)
Theorem runCreationTaskLoop_last_page (w w2 : World) (e1 : E)
    (task : CreationTask) (signal : nat) (since until_ : Z)
    (l l' : LoopState) (pg : Page) (fuel : nat) :
  l_nextCursor l <> Some None ->
  since < l_now l ->
  signalAborted signal w = false ->
  getList (source (filter task)) (user_id (user task))
    (mjoin (l_nextCursor l)) (env w) = (e1, inr pg) ->
  runCreationTaskPage task signal since until_ l pg (withEnv e1 w)
    = (w2, inr (l', false)) ->
  cursor pg = None \/
  (exists p d, last (twitterPosts pg) = Some p /\ createdAt p = Some d /\
               d <= since) ->
  runCreationTaskLoop (S (S fuel)) task signal since until_ l w
    = (w2, inr (Some l')).
Proof.
  intros Hcur Hnow Habort Hfetch Hpage Hlast.
  destruct (runCreationTaskPage_cursor _ _ _ _ _ _ _ _ _ _ Hpage)
    as (Hcursor' & Hnow').
  assert (runCreationTaskLoop (S fuel) task signal since until_ l' w2
          = (w2, inr (Some l'))) as Hstop.
  { apply runCreationTaskLoop_stops_helper. right.
    destruct Hlast as [Hnull|(p & d & Hp & Hd & Hle)].
    - left. rewrite Hcursor', Hnull. reflexivity.
    - right. rewrite Hnow', Hp, Hd. exact Hle. }
  change (runCreationTaskLoop (S (S fuel)) task signal since until_ l w)
    with
    ((if negb (bool_decide (l_nextCursor l = Some None))
         && (since <? l_now l)
      then
        bind (fun w => ret (signalAborted signal w) w)
          (fun aborted =>
             if aborted then ret (Some l)
             else
               bind (await None HostRejected
                       (getList (source (filter task))
                          (user_id (user task)) (mjoin (l_nextCursor l))))
                 (fun pg =>
                    bind (fun w => ret (signalAborted signal w) w)
                      (fun aborted' =>
                         if aborted' then ret (Some l)
                         else
                           bind (runCreationTaskPage task signal since
                                   until_ l pg)
                             (fun r =>
                                if r.2 then ret (Some r.1)
                                else runCreationTaskLoop (S fuel) task
                                       signal since until_ r.1))))
      else ret (Some l)) w).
  rewrite bool_decide_eq_false_2 by exact Hcur.
  assert ((since <? l_now l) = true) as -> by lia. simpl.
  unfold bind at 1. unfold ret at 1. rewrite Habort.
  unfold bind at 1. unfold await at 1. rewrite Hfetch.
  unfold bind at 1. unfold ret at 1.
  change (signalAborted signal (withEnv e1 w)) with (signalAborted signal w).
  rewrite Habort. unfold bind at 1. rewrite Hpage. cbn [fst snd].
  exact Hstop.
Qed.


(** X21.  Cancellation reaches the runner.  Once the user has removed a
    creation task whose controller is the one the runner was given, the
    runner, whenever it next enters its loop, returns at once: it
    fetches no further page, submits nothing and publishes nothing,
    although the side-table entry of the task is gone. *)
Theorem cancel_stops_runner (w : World) (task : CreationTask) (a : nat)
    (since until_ : Z) (l : LoopState) (fuel : nat) :
  creationTaskAbortControllerMap w !! id task = Some a ->
  is_Some (signals w !! a) ->
  let w' := removeCreationTask (id task) w in
  creationTaskAbortControllerMap w' !! id task = None /\
  runCreationTaskLoop (S fuel) task a since until_ l w' = (w', inr (Some l)).
Proof.
  intros Hm [b Hb] w'.
  assert (signalAborted a w' = true) as Habort.
  { subst w'. rewrite (removeCreationTask_found _ a w Hm).
    unfold signalAborted. simpl.
    rewrite list_lookup_insert_eq by (eapply lookup_lt_Some; exact Hb).
    reflexivity. }
  split.
  - subst w'. rewrite (removeCreationTask_found _ a w Hm). simpl.
    apply lookup_delete_eq.
  - apply runCreationTaskLoop_stops_helper. left. exact Habort.
Qed.


End Properties.

(** ** Removal and the auto-sync set *)

(** C10.  Removing one task filters its handle out of the download
    tasks and out of the auto-sync set.  Removing a batch filters the
    requested handles out of the download tasks and leaves the auto-sync
    set as it is; so there is a store in which, after a batch removal, a
    removed handle is no longer among the download tasks and still in the
    set the poller queries. *)
Theorem batchRemove_keeps_autoSyncTaskIds :
  (forall (E : Type) (host : Host E) (w : World E) (g : string),
     let w' := (removeDownloadTask g w).1 in
     downloadTasks (store w')
       = List.filter (fun v => negb (String.eqb (gid v) g))
           (downloadTasks (store w)) /\
     autoSyncTaskIds (store w')
       = List.filter (fun v => negb (String.eqb v g))
           (autoSyncTaskIds (store w)) /\
     ~ In g (List.map gid (downloadTasks (store w'))) /\
     ~ In g (autoSyncTaskIds (store w'))) /\
  (forall (E : Type) (host : Host E) (w : World E) (gids : list string),
     let w' := (batchRemoveDownloadTasks gids w).1 in
     downloadTasks (store w')
       = List.filter (fun v => negb (includes gids (gid v)))
           (downloadTasks (store w)) /\
     autoSyncTaskIds (store w') = autoSyncTaskIds (store w)) /\
  (exists (w : World Script) (g : string),
     let w' := (batchRemoveDownloadTasks [g] w).1 in
     In g (List.map gid (downloadTasks (store w))) /\
     In g (autoSyncTaskIds (store w)) /\
     ~ In g (List.map gid (downloadTasks (store w'))) /\
     In g (autoSyncTaskIds (store w'))).
Proof.
  split; [|split].
  - intros E host w g w'.
    destruct (removeDownloadTask_run w g) as (w1 & Hrun & Hs & _).
    subst w'. rewrite Hrun. simpl. rewrite Hs. simpl.
    split; [reflexivity|]. split; [reflexivity|]. split.
    + intros (t & Hg & [_ Hne]%filter_In)%in_map_iff.
      apply negb_true_iff, String.eqb_neq in Hne. exact (Hne Hg).
    + intros [_ Hne]%filter_In.
      apply negb_true_iff, String.eqb_neq in Hne. exact (Hne eq_refl).
  - intros E host w gids w'.
    destruct (batchRemoveDownloadTasks_run w gids) as (w1 & Hrun & Hs).
    subst w'. rewrite Hrun. simpl. rewrite Hs. simpl. auto.
  - exists retryWorld, "g1". simpl. intuition discriminate.
Qed.

(** * Concrete runs *)

(** C1 on [exhaustedWorld]: the daemon reports the job failed with
    ["boom"], both notifications go out, and the stored record is still
    [Active]. *)
Lemma syncDownloadTaskStatus_exhausted_run :
  ((syncDownloadTaskStatus "g1" exhaustedWorld).2 = inr tt /\
   store (syncDownloadTaskStatus "g1" exhaustedWorld).1
     = store exhaustedWorld /\
   rpcs (syncDownloadTaskStatus "g1" exhaustedWorld).1
     = rpcs exhaustedWorld ++ [TellStatus "g1"] /\
   notifications (syncDownloadTaskStatus "g1" exhaustedWorld).1
     = notifications exhaustedWorld
       ++ [AntError failedTitle
             (Some ("f-a" ++ newline ++ "boom")%string);
           OsNotification failedTitle ("f-a" ++ newline ++ "boom")%string]) /\
  List.map status
    (downloadTasks (store (syncDownloadTaskStatus "g1" exhaustedWorld).1))
    = [Active].
Proof.
  split; [|reflexivity].
  refine (syncDownloadTaskStatus_exhausted exhaustedWorld "g1" 0%nat
            (taskOf "g1" Active 0 0) (tick (env exhaustedWorld))
            (replyOf "g1" Error (Some "boom")) {| path := "f-a" |} []
            _ _ _ _ _ _);
    reflexivity.
Defined.

(** C5 on [retryWorld]: the job is resubmitted as ["g2"], which the
    daemon reports [Active]; the daemon is asked about ["g1"] twice and
    never about ["g2"], and the new record is stored as [Error]. *)
Lemma syncDownloadTaskStatus_retry_run :
  ((syncDownloadTaskStatus "g1" retryWorld).2 = inr tt /\
   downloadTasks (store (syncDownloadTaskStatus "g1" retryWorld).1)
     = [] ++ [withStatus Error
                (withGid "g2" (withRetryCount (2 - 1) (taskOf "" Waiting 102 5)))] /\
   autoSyncTaskIds (store (syncDownloadTaskStatus "g1" retryWorld).1) = [] /\
   rpcs (syncDownloadTaskStatus "g1" retryWorld).1
     = [] ++ [TellStatus "g1"; Remove "g1";
              AddUri "https://media/a" "/dl/" "f-a"; TellStatus "g1"]) /\
  lookupJob "g2" (env retryWorld) = Some (replyOf "g2" Active None).
Proof.
  split; [|reflexivity].
  refine (syncDownloadTaskStatus_retry retryWorld "g1" "g2" 0%nat
            (taskOf "g1" Active 0 2)
            (tick (env retryWorld)) (tick (tick (env retryWorld)))
            (takeHandles 1 (tick (tick (env retryWorld)))).1
            (tick (takeHandles 1 (tick (tick (env retryWorld)))).1)
            (replyOf "g1" Error (Some "boom"))
            (replyOf "g1" Error (Some "boom"))
            _ _ _ _ _ _ _ _);
    reflexivity.
Defined.

(** C2 on [pollerDownWorld]: the batched query is rejected, the run
    throws, and no timer is left to run the poller again. *)
Lemma scheduleAutoSyncTasks_query_failure_run :
  ((scheduleAutoSyncTasks pollerDownWorld).2
     = inl (Aria2Rejected "connection refused") /\
   timeouts (scheduleAutoSyncTasks pollerDownWorld).1
     = timeouts pollerDownWorld /\
   idleCallbacks (scheduleAutoSyncTasks pollerDownWorld).1
     = idleCallbacks pollerDownWorld /\
   store (scheduleAutoSyncTasks pollerDownWorld).1 = store pollerDownWorld) /\
  timeouts (scheduleAutoSyncTasks pollerDownWorld).1 = [].
Proof.
  split; [|reflexivity].
  refine (scheduleAutoSyncTasks_query_failure pollerDownWorld
            (tick (env pollerDownWorld)) "connection refused" _ _);
    [discriminate | reflexivity].
Defined.

(** C4, the claim as stated fails: merging a record stamped 7 with the
    comparison stamp 5 over a record stamped 0 stores the stamp 7, not
    the stamp 5. *)
Lemma updateDownloadTask_stores_incoming_stamp :
  List.map updatedAt
    (downloadTasks
       (store
          (updateDownloadTask (taskOf "g1" Complete 7 5) (Some 5)
             staleWorld).1))
    = [7]
  /\ 7 <> 5.
Proof. split; [reflexivity | discriminate]. Qed.

(** C4 on [staleWorld]: the same merge, and the one at the earlier
    comparison stamp -1, which is rejected. *)
Lemma updateDownloadTask_guard_run :
  ((updatedAt (taskOf "g1" Active 0 5) > 5 ->
    updateDownloadTask (taskOf "g1" Complete 7 5) (Some 5) staleWorld
      = (staleWorld, inr tt)) /\
   (updatedAt (taskOf "g1" Active 0 5) <= 5 ->
    downloadTasks
      (store
         (updateDownloadTask (taskOf "g1" Complete 7 5) (Some 5)
            staleWorld).1)
      = <[0%nat := taskOf "g1" Complete 7 5]>
          (downloadTasks (store staleWorld)) /\
    downloadTasks
      (store
         (updateDownloadTask (taskOf "g1" Complete 7 5) (Some 5)
            staleWorld).1) !! 0%nat
      = Some (taskOf "g1" Complete 7 5) /\
    updatedAt <$>
      (downloadTasks
         (store
            (updateDownloadTask (taskOf "g1" Complete 7 5) (Some 5)
               staleWorld).1) !! 0%nat)
      = Some (updatedAt (taskOf "g1" Complete 7 5)))) /\
  updateDownloadTask (taskOf "g1" Complete 7 5) (Some (-1)) staleWorld
    = (staleWorld, inr tt).
Proof.
  split.
  - refine (updateDownloadTask_guard staleWorld (taskOf "g1" Complete 7 5)
              (taskOf "g1" Active 0 5) 5 0%nat _ _); reflexivity.
  - refine (proj1 (updateDownloadTask_guard staleWorld
                     (taskOf "g1" Complete 7 5) (taskOf "g1" Active 0 5)
                     (-1) 0%nat _ _) _); reflexivity.
Defined.

(** C6, the claim as stated fails: the stored record of ["g1"] was
    last touched at 0, and the batch brings two records for ["g1"], the
    first stamped 9 and the second stamped -3.  The first is not older
    than the stored record, and yet it is not stored: only the second is
    compared, and it is rejected. *)
Lemma batchUpdateDownloadTasks_repeated_handle :
  downloadTasks (store staleWorld) = [taskOf "g1" Active 0 5]
  /\ In (taskOf "g1" Complete 9 5)
       [taskOf "g1" Complete 9 5; taskOf "g1" Paused (-3) 5]
  /\ gid (taskOf "g1" Complete 9 5) = gid (taskOf "g1" Active 0 5)
  /\ (updatedAt (taskOf "g1" Complete 9 5)
        <? updatedAt (taskOf "g1" Active 0 5)) = false
  /\ downloadTasks
       (store
          (batchUpdateDownloadTasks
             [taskOf "g1" Complete 9 5; taskOf "g1" Paused (-3) 5]
             staleWorld).1)
     = [taskOf "g1" Active 0 5].
Proof.
  split; [reflexivity|]. split; [left; reflexivity|].
  split; [reflexivity|]. split; reflexivity.
Qed.

(** C6 on [staleWorld]: of two incoming records for ["g1"] the later
    one counts; stamped before the stored record it is rejected, and a
    record for an unknown handle adds nothing. *)
Lemma batchUpdateDownloadTasks_guard_run :
  downloadTasks
    (store
       (batchUpdateDownloadTasks
          [taskOf "g1" Complete 9 5; taskOf "g7" Complete 9 5;
           taskOf "g1" Paused (-3) 5]
          staleWorld).1)
  = [taskOf "g1" Active 0 5].
Proof.
  pose proof (proj1 (proj2 (batchUpdateDownloadTasks_guard staleWorld
                [taskOf "g1" Complete 9 5; taskOf "g7" Complete 9 5;
                 taskOf "g1" Paused (-3) 5]))
                0%nat (taskOf "g1" Active 0 5) eq_refl) as H.
  pose proof (proj1 (batchUpdateDownloadTasks_guard staleWorld
                [taskOf "g1" Complete 9 5; taskOf "g7" Complete 9 5;
                 taskOf "g1" Paused (-3) 5])) as Hlen.
  cbv zeta in H, Hlen.
  destruct (downloadTasks (store (batchUpdateDownloadTasks _ staleWorld).1))
    as [|x [|y l]]; try discriminate Hlen.
  simpl in H. injection H as ->. reflexivity.
Defined.

(** C3, the claim as stated fails: the page of [crawlPage] has one post
    in range with a photo and a video; the crawl wants photos.  The
    photo is submitted, the video is dropped by the media-type filter,
    and the skip counter stays at 0. *)
Lemma runCreationTaskPage_type_drop_uncounted :
  (runCreationTaskPage crawlTask 0 0 100 (mkLoop 0 0 100 None) crawlPage
     crawlWorld).2
    = inr (mkLoop 1 0 50 (Some None), false)
  /\ typeDroppedCount (filter crawlTask)
       (List.filter (keepPost 0 100) (twitterPosts crawlPage)) = 1
  /\ getMediaCounts
       (List.filter (fun p => negb (keepPost 0 100 p))
          (twitterPosts crawlPage)) = 0.
Proof. repeat split; reflexivity. Qed.

(** C3 on [skipPage]: the post out of range gives its two entries to
    the skip counter, the two photos whose files are on disk give two
    more, the third photo is submitted, and the video, dropped by type,
    is counted nowhere. *)
Lemma runCreationTaskPage_skipCount_run :
  (runCreationTaskPage crawlTask 0 0 100 (mkLoop 0 0 100 None) skipPage
     skipWorld).2
    = inr (mkLoop 1 4 50 (Some None), false)
  /\ getMediaCounts
       (List.filter (fun p => negb (keepPost 0 100 p))
          (twitterPosts skipPage)) = 2
  /\ existingEntries (settings skipWorld)
       (passingEntries (filter crawlTask)
          (List.filter (keepPost 0 100) (twitterPosts skipPage)))
       (env skipWorld)
     = [ {| p_post := skipPost; p_media := photo "a" |};
         {| p_post := skipPost; p_media := photo "c" |} ]
  /\ missingEntries (settings skipWorld)
       (passingEntries (filter crawlTask)
          (List.filter (keepPost 0 100) (twitterPosts skipPage)))
       (env skipWorld)
     = [ {| p_post := skipPost; p_media := photo "d" |} ]
  /\ 4 = 0
         + getMediaCounts
             (List.filter (fun p => negb (keepPost 0 100 p))
                (twitterPosts skipPage))
         + Z.of_nat
             (length
                (existingEntries (settings skipWorld)
                   (passingEntries (filter crawlTask)
                      (List.filter (keepPost 0 100) (twitterPosts skipPage)))
                   (env skipWorld)))
  /\ 1 - 0
     = Z.of_nat
         (length
            (missingEntries (settings skipWorld)
               (passingEntries (filter crawlTask)
                  (List.filter (keepPost 0 100) (twitterPosts skipPage)))
               (env skipWorld))).
Proof.
  split; [vm_compute; reflexivity|]. split; [reflexivity|].
  split; [vm_compute; reflexivity|]. split; [vm_compute; reflexivity|].
  refine (proj2 (proj2 (proj2 (proj2
            (runCreationTaskPage_skipCount skipWorld
               (runCreationTaskPage crawlTask 0 0 100 (mkLoop 0 0 100 None)
                  skipPage skipWorld).1
               crawlTask 0%nat 0 100 (mkLoop 0 0 100 None)
               (mkLoop 1 4 50 (Some None)) skipPage false _))))).
  vm_compute. reflexivity.
Defined.

(** C7 on [runningSystem]: the module is loaded, one task is queued,
    the scheduler starts it; it is the one active task. *)
Lemma scheduler_mutual_exclusion_run :
  ((activeCount runningSystem <= 1)%nat /\
   (forall (w w' : World Script) t a,
      scheduleCreationTasksBegin w = (w', Running t a) ->
      existsb isActive (creationTasks (store w)) = false /\
      isActive t = true)) /\
  activeCount runningSystem = 1%nat.
Proof.
  split; [|reflexivity].
  apply scheduler_mutual_exclusion.
  eapply reachable_step.
  - eapply reachable_step.
    + apply (reachable_boot bootWorld); reflexivity.
    + apply (step_create somebody (filter crawlTask)
               (scheduleCreationTasksBegin bootWorld).1 []).
      intros [].
  - apply (step_scheduler_begin queuedWorld [] [] []). reflexivity.
Defined.

(** C8 on [staleWorld], whose daemon refuses submissions. *)
Lemma createDownloadTask_failure_run :
  (createDownloadTask
     {| p_post := postOf "p" None [photo "a"]; p_media := photo "a" |}
     staleWorld).2
    = inl (Aria2Rejected "connection refused") /\
  store
    (createDownloadTask
       {| p_post := postOf "p" None [photo "a"]; p_media := photo "a" |}
       staleWorld).1
    = store staleWorld.
Proof.
  refine (proj1 (proj2 (createDownloadTask_failure staleWorld
            {| p_post := postOf "p" None [photo "a"];
               p_media := photo "a" |}))
            "connection refused" _).
  reflexivity.
Defined.

(** C9 on [retryWorld]: no record carries ["g9"]; the record of ["g1"]
    is replaced by one with five retries, under the handle ["g2"] the
    daemon gave for the resubmitted job and with the status the daemon
    reports for ["g2"]. *)
Lemma redownloadTask_notFound_run :
  (redownloadTask "g9" retryWorld).2 = inl notFound /\
  List.map (fun t => (gid t, ariaRetryCountRemains t))
    (downloadTasks (store (redownloadTask "g1" retryWorld).1))
    = [("g2", 5)] /\
  ((redownloadTask "g1" retryWorld).2 = inr tt /\
   downloadTasks (store (redownloadTask "g1" retryWorld).1)
     = [taskOf "g2" Active 101 5] /\
   rpcs (redownloadTask "g1" retryWorld).1
     = [Remove "g1"; AddUri "https://media/a" "/dl/" "f-a";
        TellStatus "g2"]).
Proof.
  split; [|split; [reflexivity|]].
  - apply (proj1 (redownloadTask_notFound retryWorld "g9")).
    intros t [<-|[]]. discriminate.
  - exact (proj2 (proj2 (proj2 (proj2
             (redownloadTask_notFound retryWorld "g1"))))
             (taskOf "g1" Active 0 2) eq_refl).
Defined.

(** * Concrete runs of the further properties *)

(** X3 on [mergeWorld]: the sync stores the daemon's [Complete]. *)
Lemma syncDownloadTaskStatus_merge_run :
  List.map (fun t => (gid t, status t, completeSize t, totalSize t, updatedAt t))
    (downloadTasks (store (syncDownloadTaskStatus "g1" mergeWorld).1))
  = [("g1", Complete, Num 40, Num 40, 101);
     ("g2", Active, Num 0, Infinity, 0)].
Proof.
  pose proof (syncDownloadTaskStatus_merge mergeWorld "g1" 0%nat
                (taskOf "g1" Active 0 5) (tick (env mergeWorld))
                completeReply {| path := "f-a" |} []
                eq_refl eq_refl eq_refl ltac:(discriminate) eq_refl eq_refl)
    as H.
  cbv zeta in H. destruct H as (_ & H & _). rewrite H. reflexivity.
Defined.

(** X5 on [mergeWorld]: two jobs, two handles, in order. *)
Lemma batchCreateDownloadTask_order_run :
  List.map (fun t => (gid t, type (media t), status t))
    (downloadTasks (store (batchCreateDownloadTask twoJobs mergeWorld).1))
  = [("g1", "photo", Active); ("g2", "photo", Active);
     ("g3", "photo", Waiting); ("g4", "video", Active)]
  /\ rpcs (batchCreateDownloadTask twoJobs mergeWorld).1
     = [BatchAddUri [("https://media/a", "/dl/", "f-a");
                     ("https://media/b", "/dl/", "f-b")];
        TellStatusMany ["g3"; "g4"]].
Proof.
  pose proof (batchCreateDownloadTask_order mergeWorld twoJobs
                (takeHandles 2 (env mergeWorld)).1
                (tick (takeHandles 2 (env mergeWorld)).1)
                ["g3"; "g4"]
                (fromPairs [("g3", replyOf "g3" Waiting None);
                            ("g4", replyOf "g4" Active None)])
                ltac:(discriminate) eq_refl eq_refl eq_refl)
    as [Hrpcs _].
  split; [reflexivity | exact Hrpcs].
Defined.

(** X6 on [retryWorld]: the sync resubmits once and the budget goes
    from 2 to 1. *)
Lemma syncDownloadTaskStatus_retry_budget_run :
  countAddUri (rpcs (syncDownloadTaskStatus "g1" retryWorld).1)
    - countAddUri (rpcs retryWorld) = 1
  /\ retryBudget
       (downloadTasks (store (syncDownloadTaskStatus "g1" retryWorld).1)) + 1
     <= retryBudget (downloadTasks (store retryWorld)).
Proof.
  pose proof (syncDownloadTaskStatus_retry_budget retryWorld "g1") as H.
  cbv zeta in H.
  assert (forall t, In t (downloadTasks (store retryWorld)) ->
            0 <= ariaRetryCountRemains t) as Hpos.
  { intros t [<-|[]]. simpl. lia. }
  destruct (H Hpos) as (_ & Hpaid & _).
  split; [reflexivity | apply Hpaid; reflexivity].
Defined.

(** X7 on [mergeWorld]: the tick merges the tracked record, stamps it
    with the snapshot time and leaves the other alone. *)
Lemma scheduleAutoSyncTasks_merge_run :
  List.map (fun t => (gid t, status t, updatedAt t))
    (downloadTasks (store (scheduleAutoSyncTasks mergeWorld).1))
  = [("g1", Complete, 100); ("g2", Active, 0)]
  /\ timeouts (scheduleAutoSyncTasks mergeWorld).1
     = [(CbScheduleAutoSyncTasks, 500)].
Proof.
  assert (forall g st,
            fromPairs [("g1", completeReply)] !! g = Some st ->
            r_gid st = g /\ files st <> []) as Hhonest.
  { intros g st. unfold fromPairs. simpl.
    destruct (String.eqb_spec "g1" g) as [<-|Hne].
    - rewrite lookup_insert_eq. intros [= <-]. split; [reflexivity|discriminate].
    - rewrite lookup_insert_ne by exact Hne. rewrite lookup_empty.
      discriminate. }
  assert (NoDup (List.map gid (downloadTasks (store mergeWorld)))) as Hnd.
  { simpl. apply NoDup_cons. split.
    - intros [Heq|[]]%list_elem_of_In. discriminate.
    - apply NoDup_singleton. }
  pose proof (scheduleAutoSyncTasks_merge mergeWorld (tick (env mergeWorld))
                (fromPairs [("g1", completeReply)])
                ltac:(discriminate) eq_refl Hnd Hhonest) as H.
  cbv zeta in H. destruct H as (_ & Htimer & _ & _ & Htasks).
  split; [rewrite Htasks; reflexivity | exact Htimer].
Defined.

(** X8 on [freshWorld]: a job created as ["g3"] and later reported
    complete. *)
Lemma create_then_sync_run :
  downloadTasks
    (store
       (syncDownloadTaskStatus "g3"
          (createDownloadTask
             {| p_post := postOf "p" None [photo "a"]; p_media := photo "a" |}
             freshWorld).1).1)
  = [ {| gid := "g3"; status := Complete; completeSize := Num 40;
         totalSize := Num 40; fileName := "f-a"; media := photo "a";
         post := postOf "p" None [photo "a"]; error := None; dir := "/dl/";
         updatedAt := 103; downloadUrl := "https://media/a";
         ariaRetryCountRemains := 5 |} ].
Proof.
  pose proof (create_then_sync freshWorld
                {| p_post := postOf "p" None [photo "a"];
                   p_media := photo "a" |}
                "g3" (takeHandles 1 (env freshWorld)).1
                (tick (takeHandles 1 (env freshWorld)).1)
                (tick (tick (takeHandles 1 (env freshWorld)).1))
                g3Complete g3Complete {| path := "f-a" |} []) as H.
  cbv zeta in H.
  assert (forall t, In t (downloadTasks (store freshWorld)) -> gid t <> "g3")
    as Hfresh by (intros t []).
  destruct (H Hfresh eq_refl eq_refl eq_refl ltac:(discriminate) eq_refl
              eq_refl ltac:(simpl; lia)) as (_ & Htasks & _).
  rewrite Htasks. reflexivity.
Defined.

Lemma bootWorld_loaded : loaded bootWorld.
Proof. repeat split. Qed.

Lemma queued_sinceLoad : sinceLoad (mkSystem queuedWorld []).
Proof.
  exists bootWorld. split; [exact bootWorld_loaded|].
  apply rtc_once.
  apply (step_create somebody (filter crawlTask)
           (scheduleCreationTasksBegin bootWorld).1 []).
  intros [].
Qed.

Lemma running_sinceLoad : sinceLoad runningSystem.
Proof.
  destruct queued_sinceLoad as (w & Hw & Hsteps).
  exists w. split; [exact Hw|]. eapply rtc_r; [exact Hsteps|].
  apply (step_scheduler_begin queuedWorld [] [] []). reflexivity.
Qed.

(** X11 on [runningSystem]: the task that runs has its token. *)
Lemma tokens_never_orphaned_run :
  is_Some (creationTaskAbortControllerMap (world runningSystem) !! "t1") <->
  In "t1" (List.map id (creationTasks (store (world runningSystem)))).
Proof. exact (tokens_never_orphaned runningSystem running_sinceLoad "t1"). Defined.

(** X12 on [runningSystem]: one run of the scheduler, suspended. *)
Lemma scheduler_never_stops_run :
  (schedulerCallbacks (world runningSystem) + length (pending runningSystem)
   = 1)%nat
  /\ length (pending runningSystem) = 1%nat.
Proof.
  split; [|reflexivity].
  exact (proj1 (scheduler_never_stops runningSystem running_sinceLoad)).
Defined.

(** X13 on [runningSystem]: the running task is not aborted. *)
Lemma queued_tasks_not_aborted_run :
  exists a,
    creationTaskAbortControllerMap (world runningSystem) !! id crawlTask
      = Some a /\
    signalAborted a (world runningSystem) = false.
Proof.
  exact (queued_tasks_not_aborted runningSystem running_sinceLoad crawlTask
           (or_introl eq_refl)).
Defined.

(** X14 on [queuedWorld]: the one queued task is started. *)
Lemma scheduler_starts_head_run :
  creationTasks
    (store
       (scheduleCreationTasksBegin
          (withIdleCallbacks ([] ++ []) queuedWorld)).1)
  = [crawlTask].
Proof.
  destruct (scheduler_starts_head queuedWorld [] [] []
              {| id := "t1"; user := somebody; filter := filter crawlTask;
                 c_status := CWaiting; completeCount := 0; skipCount := 0 |}
              [] queued_sinceLoad eq_refl eq_refl)
    as (a & _ & _ & Hqueue & _).
  rewrite Hqueue. reflexivity.
Defined.

(** X15 on [runningSystem]: the runner fails with a rejected fetch. *)
Lemma scheduleCreationTasksEnd_cleans_up_run :
  creationTasks
    (store
       (scheduleCreationTasksEnd crawlTask (Some (HostRejected "network"))
          (world runningSystem)))
  = []
  /\ notifications
       (scheduleCreationTasksEnd crawlTask (Some (HostRejected "network"))
          (world runningSystem))
     = notifications (world runningSystem)
       ++ [OsNotification crawlFailedTitle "network";
           AntError (crawlFailedTitle ++ "：" ++ "network")%string None].
Proof.
  split; [reflexivity|].
  exact (proj2 (proj2 (proj2 (proj2
           (scheduleCreationTasksEnd_cleans_up (world runningSystem) [] []
              crawlTask 0%nat (Some (HostRejected "network"))
              running_sinceLoad))))).
Defined.

(** X16 on [crawlScriptWorld]: entered with the cursor [null], the loop
    fetches nothing. *)
Lemma runCreationTaskLoop_stops_run :
  runCreationTaskLoop 6 crawlTask 0 0 100 (mkLoop 1 0 50 (Some None))
    crawlScriptWorld
  = (crawlScriptWorld, inr (Some (mkLoop 1 0 50 (Some None)))).
Proof.
  exact (runCreationTaskLoop_stops crawlScriptWorld crawlTask 0%nat 0 100
           (mkLoop 1 0 50 (Some None)) 5%nat (or_intror (or_introl eq_refl))).
Defined.

(** X17 on [crawlPage]: one record added, one counted, and published. *)
Lemma runCreationTaskPage_records_run :
  (exists added,
     downloadTasks
       (store
          (runCreationTaskPage crawlTask 0 0 100 (mkLoop 0 0 100 None)
             crawlPage crawlWorld).1)
       = downloadTasks (store crawlWorld) ++ added /\
     Z.of_nat (length added) = 1 - 0)
  /\ List.map completeCount
       (creationTasks
          (store
             (runCreationTaskPage crawlTask 0 0 100 (mkLoop 0 0 100 None)
                crawlPage crawlWorld).1))
     = [1].
Proof.
  split; [|vm_compute; reflexivity].
  refine (proj1
            (runCreationTaskPage_records crawlWorld
               (runCreationTaskPage crawlTask 0 0 100 (mkLoop 0 0 100 None)
                  crawlPage crawlWorld).1
               crawlTask 0%nat 0 100 (mkLoop 0 0 100 None)
               (mkLoop 1 0 50 (Some None)) crawlPage false _)).
  vm_compute. reflexivity.
Defined.

(** X18 on [crawlScriptWorld]: the one page comes with the cursor
    [null]; the runner ends after it. *)
Lemma runCreationTaskLoop_last_page_run :
  (runCreationTaskLoop 5 crawlTask 0 0 100 (mkLoop 0 0 100 None)
     crawlScriptWorld).2
  = inr (Some (mkLoop 1 0 50 (Some None))).
Proof.
  refine (f_equal snd
            (runCreationTaskLoop_last_page crawlScriptWorld
               (runCreationTaskPage crawlTask 0 0 100 (mkLoop 0 0 100 None)
                  crawlPage
                  (withEnv
                     (getList "medias" "u" None (env crawlScriptWorld)).1
                     crawlScriptWorld)).1
               (getList "medias" "u" None (env crawlScriptWorld)).1
               crawlTask 0%nat 0 100 (mkLoop 0 0 100 None)
               (mkLoop 1 0 50 (Some None)) crawlPage 3%nat
               _ eq_refl eq_refl eq_refl _ (or_introl eq_refl))).
  - discriminate.
  - vm_compute. reflexivity.
Defined.

(** * The name patterns: the matcher and what the patterns accept *)

Lemma inClass_In (cs : list N) (c : N) : inClass cs c = true <-> In c cs.
Proof.
  unfold inClass. rewrite existsb_exists. split.
  - intros (x & Hx & Heq). apply N.eqb_eq in Heq. subst. exact Hx.
  - intros Hin. exists c. split; [exact Hin | apply N.eqb_refl].
Qed.

Lemma inClass_not_In (cs : list N) (c : N) :
  inClass cs c = false <-> ~ In c cs.
Proof.
  rewrite <- inClass_In. destruct (inClass cs c); split; congruence.
Qed.

Lemma lang_nil_inv (r : Regex) (s : list N) :
  lang r s -> s = [] -> nullable r = true.
Proof.
  induction 1 as [|c0|cs c0 Hc|r1 r2 s1 s2 _ IH1 _ IH2|r1 r2 s0 _ IH
                 |r1 r2 s0 _ IH|r0|r0 s1 s2 _ _ _ _]; intros Hs; simpl;
    try discriminate; try reflexivity.
  - apply app_eq_nil in Hs as [-> ->]. rewrite IH1, IH2; reflexivity.
  - rewrite IH by exact Hs. reflexivity.
  - rewrite IH by exact Hs. apply orb_true_r.
Qed.

Lemma nullable_lang (r : Regex) : nullable r = true <-> lang r [].
Proof.
  split; [|intros H; exact (lang_nil_inv r [] H eq_refl)].
  induction r as [| | | |r1 IH1 r2 IH2|r1 IH1 r2 IH2|r IH]; simpl;
    try discriminate.
  - intros _. constructor.
  - intros [H1 H2]%andb_true_iff.
    exact (lang_seq r1 r2 [] [] (IH1 H1) (IH2 H2)).
  - intros [H|H]%orb_true_iff;
      [apply lang_alt_l, IH1, H | apply lang_alt_r, IH2, H].
  - intros _. constructor.
Qed.

Lemma lang_star_cons_inv (r r' : Regex) (s' : list N) :
  lang r' s' ->
  forall c s, r' = ReStar r -> s' = c :: s ->
  exists s1 s2, s = s1 ++ s2 /\ lang r (c :: s1) /\ lang (ReStar r) s2.
Proof.
  induction 1 as [|c0|cs c0 Hc|r1 r2 s1 s2 _ _ _ _|r1 r2 s0 _ _
                 |r1 r2 s0 _ _|r0|r0 s1 s2 H1 _ H2 IH2]; intros c s Hr Hs;
    try discriminate.
  injection Hr as ->. destruct s1 as [|c1 s1].
  - simpl in Hs. exact (IH2 c s eq_refl Hs).
  - simpl in Hs. injection Hs as -> <-. exists s1, s2. auto.
Qed.

Lemma lang_star_cons (r : Regex) (c : N) (s : list N) :
  lang (ReStar r) (c :: s) ->
  exists s1 s2, s = s1 ++ s2 /\ lang r (c :: s1) /\ lang (ReStar r) s2.
Proof. intros H. exact (lang_star_cons_inv r _ _ H c s eq_refl eq_refl). Qed.

Lemma lang_seq_inv (r1 r2 : Regex) (s : list N) :
  lang (ReSeq r1 r2) s ->
  exists s1 s2, s = s1 ++ s2 /\ lang r1 s1 /\ lang r2 s2.
Proof. inversion 1; subst; eauto. Qed.

Lemma deriv_lang (c : N) (r : Regex) :
  forall s, lang (deriv c r) s <-> lang r (c :: s).
Proof.
  induction r as [| |c'|cs|r1 IH1 r2 IH2|r1 IH1 r2 IH2|r IH]; intros s;
    simpl.
  - split; inversion 1.
  - split; inversion 1.
  - destruct (N.eqb_spec c c') as [->|Hne]; split; inversion 1; subst;
      try constructor; congruence.
  - destruct (inClass cs c) eqn:Hc; split; inversion 1; subst;
      try constructor; congruence.
  - assert (lang (ReSeq (deriv c r1) r2) s ->
            lang (ReSeq r1 r2) (c :: s)) as Hleft.
    { inversion 1; subst.
      change (c :: s1 ++ s2) with ((c :: s1) ++ s2).
      constructor; [apply IH1|]; assumption. }
    assert (lang (ReSeq r1 r2) (c :: s) ->
            lang (ReSeq (deriv c r1) r2) s
            \/ (nullable r1 = true /\ lang (deriv c r2) s)) as Hinv.
    { intros (s1 & s2 & Heq & H1 & H2)%lang_seq_inv.
      destruct s1 as [|c1 s1]; simpl in Heq.
      - right. split; [apply nullable_lang, H1|]. subst s2.
        apply IH2, H2.
      - injection Heq as <- ->. left. constructor; [apply IH1|]; assumption. }
    destruct (nullable r1) eqn:Hn.
    + split.
      * inversion 1; subst; [auto|].
        change (c :: s) with ([] ++ c :: s).
        constructor; [apply nullable_lang, Hn | apply IH2; assumption].
      * intros H. destruct (Hinv H) as [Hl|[_ Hr]];
          [apply lang_alt_l | apply lang_alt_r]; assumption.
    + split; [exact Hleft|].
      intros H. destruct (Hinv H) as [Hl|[Hr _]]; [exact Hl | discriminate].
  - split.
    + inversion 1; subst;
        [apply lang_alt_l, IH1 | apply lang_alt_r, IH2]; assumption.
    + inversion 1; subst;
        [apply lang_alt_l, IH1 | apply lang_alt_r, IH2]; assumption.
  - split.
    + inversion 1; subst.
      change (c :: s1 ++ s2) with ((c :: s1) ++ s2).
      constructor; [apply IH|]; assumption.
    + intros (s1 & s2 & -> & H1 & H2)%lang_star_cons.
      constructor; [apply IH|]; assumption.
Qed.

(** The matcher decides the language. *)
Lemma test_lang (r : Regex) (s : list N) : test r s = true <-> lang r s.
Proof.
  unfold test. revert r. induction s as [|c s IH]; intros r; simpl.
  - apply nullable_lang.
  - rewrite IH. apply deriv_lang.
Qed.

Lemma plus_lang (r : Regex) (c : N) (s : list N) :
  lang (RePlus r) (c :: s) <-> lang (ReStar r) (c :: s).
Proof.
  unfold RePlus. split.
  - inversion 1; subst. constructor; assumption.
  - intros (s1 & s2 & -> & H1 & H2)%lang_star_cons.
    change (c :: s1 ++ s2) with ((c :: s1) ++ s2). constructor; assumption.
Qed.

Lemma plus_nil (r : Regex) : lang (RePlus r) [] -> lang r [].
Proof.
  unfold RePlus. intros (s1 & s2 & Heq & H1 & _)%lang_seq_inv.
  symmetry in Heq. apply app_eq_nil in Heq as [-> _]. exact H1.
Qed.

Lemma star_notin (cs : list N) (s : list N) :
  lang (ReStar (ReNotIn cs)) s <-> (forall c, In c s -> ~ In c cs).
Proof.
  split.
  - revert s. induction s as [|c s IH]; [intros _ c []|].
    intros (s1 & s2 & -> & H1 & H2)%lang_star_cons.
    inversion H1; subst. simpl in *.
    intros c' [<-|Hin]; [apply inClass_not_In; assumption | auto].
  - induction s as [|c s IH]; intros Hs; [constructor|].
    change (c :: s) with ([c] ++ s). constructor.
    + constructor. apply inClass_not_In, Hs. left. reflexivity.
    + apply IH. intros c' Hin. apply Hs. right. exact Hin.
Qed.

(** X19.  The pattern of the file-name validator accepts exactly the
    non-empty strings in which none of the eight code units backslash,
    slash, colon, star, double quote, less-than, greater-than and bar
    occurs.  (The question mark, which the validator's message also
    lists, is not among them.) *)
Theorem fileNameTemplatePattern_accepts (s : list N) :
  test fileNameTemplatePattern s = true <->
  s <> [] /\ (forall c, In c s -> ~ In c forbidden).
Proof.
  rewrite test_lang. unfold fileNameTemplatePattern.
  destruct s as [|c s].
  - split; [|intros [H _]; destruct (H eq_refl)].
    intros H%plus_nil. inversion H.
  - rewrite plus_lang, star_notin. split; [intros H; split; [discriminate|]|];
      tauto.
Qed.

(** The blocks of a directory template: a code unit outside the class,
    possibly followed by a backslash. *)
Lemma dir_block (b : list N) :
  lang (ReSeq (ReNotIn forbidden) (ReOpt (ReLit backslash))) b <->
  exists c, ~ In c forbidden /\ (b = [c] \/ b = [c; backslash]).
Proof.
  split.
  - intros (s1 & s2 & -> & H1 & H2)%lang_seq_inv.
    inversion H1; subst. exists c.
    split; [apply inClass_not_In; assumption|].
    inversion H2 as [| | | |? ? ? H|? ? ? H| |]; subst; inversion H; subst;
      auto.
  - intros (c & Hc & [->| ->]).
    + apply (lang_seq _ _ [c] []);
        [constructor; apply inClass_not_In, Hc|].
      apply lang_alt_r. constructor.
    + apply (lang_seq _ _ [c] [backslash]);
        [constructor; apply inClass_not_In, Hc|].
      apply lang_alt_l. constructor.
Qed.

Lemma backslash_forbidden : In backslash forbidden.
Proof. left. reflexivity. Qed.

(** What a sequence of blocks looks like: backslashes apart, nothing
    else of the class occurs; it does not begin with a backslash; no two
    backslashes are adjacent. *)
Lemma dir_blocks (s : list N) :
  lang (ReStar (ReSeq (ReNotIn forbidden) (ReOpt (ReLit backslash)))) s <->
  (forall c, In c s -> c = backslash \/ ~ In c forbidden) /\
  head s <> Some backslash /\
  (forall i, s !! i = Some backslash -> s !! S i <> Some backslash).
Proof.
  split.
  - remember (length s) as n eqn:Hn. revert s Hn.
    induction n as [n IH] using lt_wf_ind. intros s Hn Hs.
    destruct s as [|c s].
    { split; [intros c []|]. split; [discriminate|]. intros i Hi.
      rewrite lookup_nil in Hi. discriminate. }
    apply lang_star_cons in Hs as (s1 & s2 & -> & Hb & Hrest).
    apply dir_block in Hb as (c' & Hc' & Hshape).
    assert (c <> backslash) as Hc.
    { intros ->. apply Hc'.
      destruct Hshape as [[= <- _]|[= <- _]]; exact backslash_forbidden. }
    destruct (IH (length s2)) with (s := s2) as (Hch & Hhd & Hadj);
      [simpl in Hn; rewrite length_app in Hn; lia | reflexivity
      | exact Hrest |].
    destruct Hshape as [[= <- ->]|[= <- ->]]; simpl.
    + split; [intros x [<-|Hx]; auto|]. split; [congruence|].
      intros [|i]; simpl; [congruence | apply Hadj].
    + split; [intros x [<-|[<-|Hx]]; auto|]. split; [congruence|].
      intros [|[|i]]; simpl; [congruence | | apply Hadj].
      intros _. destruct s2; [discriminate | exact Hhd].
  - remember (length s) as n eqn:Hn. revert s Hn.
    induction n as [n IH] using lt_wf_ind. intros s Hn (Hch & Hhd & Hadj).
    destruct s as [|c s]; [constructor|].
    assert (~ In c forbidden) as Hc.
    { destruct (Hch c (or_introl eq_refl)) as [->|H]; [|exact H].
      destruct (Hhd eq_refl). }
    destruct s as [|d s].
    { apply (lang_star_app _ [c] []); [|constructor].
      apply dir_block. eauto. }
    destruct (N.eq_dec d backslash) as [->|Hd].
    + apply (lang_star_app _ [c; backslash] s); [apply dir_block; eauto|].
      apply (IH (length s)); [simpl in Hn; lia | reflexivity|].
      split; [intros x Hx; apply Hch; right; right; exact Hx|]. split.
      * destruct s as [|x s]; [discriminate|]. simpl. intros [= ->].
        exact (Hadj 1%nat eq_refl eq_refl).
      * intros i Hi. exact (Hadj (S (S i)) Hi).
    + apply (lang_star_app _ [c] (d :: s)); [apply dir_block; eauto|].
      apply (IH (length (d :: s))); [simpl in *; lia | reflexivity|].
      split; [intros x Hx; apply Hch; right; exact Hx|]. split.
      * simpl. congruence.
      * intros i Hi. exact (Hadj (S i) Hi).
Qed.

(** X20.  The pattern of the directory-template validator accepts
    exactly the non-empty strings in which, backslashes apart, none of
    the code units of the class occurs (no slash, colon, star, double
    quote, less-than, greater-than or bar), that do not begin with a
    backslash, and in which no two backslashes are adjacent. *)
Theorem dirTemplatePattern_accepts (s : list N) :
  test dirTemplatePattern s = true <->
  s <> [] /\
  (forall c, In c s -> c = backslash \/ ~ In c forbidden) /\
  head s <> Some backslash /\
  (forall i, s !! i = Some backslash -> s !! S i <> Some backslash).
Proof.
  rewrite test_lang. unfold dirTemplatePattern.
  destruct s as [|c s].
  - split; [|intros [H _]; destruct (H eq_refl)].
    intros H%plus_nil. apply dir_block in H as (c & _ & [[=]|[=]]).
  - rewrite plus_lang, dir_blocks.
    split; [intros H; split; [discriminate | exact H] | intros [_ H]; exact H].
Qed.

(** X19 on the name of three code units [a], question mark, [b]: it is
    accepted. *)
Lemma fileNameTemplatePattern_accepts_run :
  test fileNameTemplatePattern [97; questionMark; 98]%N = true.
Proof.
  apply (proj2 (fileNameTemplatePattern_accepts [97; questionMark; 98]%N)).
  split; [discriminate|].
  intros c [<-|[<-|[<-|[]]]] Hin; simpl in Hin;
    repeat (destruct Hin as [Hin|Hin]; [discriminate|]); exact Hin.
Defined.

(** X20 on [a], backslash, [b], accepted, and on [a], backslash,
    backslash, [b], which is not. *)
Lemma dirTemplatePattern_accepts_run :
  test dirTemplatePattern [97; backslash; 98]%N = true
  /\ test dirTemplatePattern [97; backslash; backslash; 98]%N = false.
Proof.
  split; [|reflexivity].
  apply (proj2 (dirTemplatePattern_accepts [97; backslash; 98]%N)).
  split; [discriminate|]. split; [|split].
  - intros c [<-|[<-|[<-|[]]]]; [right|left; reflexivity|right];
      intros Hin; simpl in Hin;
      repeat (destruct Hin as [Hin|Hin]; [discriminate|]); exact Hin.
  - discriminate.
  - intros [|[|[|i]]]; simpl; discriminate.
Defined.

(** X21 on [runningSystem]: the user removes the running task. *)
Lemma cancel_stops_runner_run :
  creationTaskAbortControllerMap
    (removeCreationTask (id crawlTask) (world runningSystem)) !! id crawlTask
    = None
  /\ runCreationTaskLoop 4 crawlTask 0 0 200 (mkLoop 0 0 100 None)
       (removeCreationTask (id crawlTask) (world runningSystem))
     = (removeCreationTask (id crawlTask) (world runningSystem),
        inr (Some (mkLoop 0 0 100 None))).
Proof.
  refine (cancel_stops_runner (world runningSystem) crawlTask 0%nat 0 200
            (mkLoop 0 0 100 None) 3%nat _ _).
  - reflexivity.
  - exists false. reflexivity.
Defined.
